(** * Eugent: tool-call preprocessing, transcript validation and healing,
      path validation and command pre-abort

    A shallow embedding of the orchestration core of the agent
    (toolCallValidator, messageValidation, errorHandlers, useToolExecutor,
    useAgenticLoop, useConversation, pathValidator, gitignore,
    execute_command, manage_todos and the file tools) together with the
    properties the specification states about it and further properties of
    the code.

    Conventions of the embedding.
    - A JavaScript string is a [string]; an absent optional field
      ([undefined]) is [None].
    - A [Set<string>] and a [Map<K,V>] are lists in insertion order, because
      the code observes that order ([Array.from], [for .. of]).
    - A function that may throw returns an [option]; [None] is the throw.
    - The platform ([JSON], [path], [fs], [RegExp], the signal) is modelled in
      the modules [JS] and [Path] or taken as a parameter. *)

From Stdlib Require Import String Ascii List ZArith Lia Bool Arith Sorted.
From Stdlib Require Import DecimalString.
From Stdlib Require DecimalNat DecimalFacts.
Set Warnings "-register-all".
Import ListNotations.
Open Scope string_scope.

(* ===================================================================== *)
(** * Platform: strings and JSON *)
(* ===================================================================== *)

Module JS.

(** ** String primitives *)

(** [s.startsWith(p)] *)
Definition startsWith (s p : string) : bool := String.prefix p s.

(** [s.includes(sub)] *)
Fixpoint includes (s sub : string) : bool :=
  if String.prefix sub s then true
  else match s with
       | EmptyString => false
       | String _ r => includes r sub
       end.

(** [s.endsWith(p)], by comparison of the last [length p] units. *)
Definition endsWith (s p : string) : bool :=
  (String.length p <=? String.length s)%nat &&
  String.eqb (substring (String.length s - String.length p) (String.length p) s) p.

(** [s.split(sep)] for a one-unit separator. *)
Fixpoint split (sep : ascii) (s : string) : list string :=
  match s with
  | EmptyString => [EmptyString]
  | String c r =>
      if Ascii.eqb c sep then EmptyString :: split sep r
      else match split sep r with
           | [] => [String c EmptyString]
           | x :: xs => String c x :: xs
           end
  end.

(** [parts.join(sep)] *)
Definition join (sep : string) (parts : list string) : string :=
  String.concat sep parts.

(** [s.replace(/c/g, by)] for a one-unit pattern. *)
Fixpoint replaceAll (c : ascii) (by_ : string) (s : string) : string :=
  match s with
  | EmptyString => EmptyString
  | String d r =>
      if Ascii.eqb d c then by_ ++ replaceAll c by_ r
      else String d (replaceAll c by_ r)
  end.

(** White space removed by [trim], over the ASCII range: TAB, LF, VT, FF, CR
    and SPACE. *)
Definition isTrimSpace (c : ascii) : bool :=
  let n := nat_of_ascii c in
  ((9 <=? n) && (n <=? 13) || (n =? 32))%nat.

Fixpoint trimStart (s : string) : string :=
  match s with
  | String c r => if isTrimSpace c then trimStart r else s
  | EmptyString => EmptyString
  end.

(** [trimEnd] keeps a unit when it is not white space or when something
    that is kept follows it. *)
Fixpoint trimEnd (s : string) : string :=
  match s with
  | EmptyString => EmptyString
  | String c r =>
      match trimEnd r with
      | EmptyString => if isTrimSpace c then EmptyString else String c EmptyString
      | r' => String c r'
      end
  end.

Definition trim (s : string) : string := trimEnd (trimStart s).

(** Truthiness of an optional string: [undefined] and the empty string are
    falsy. *)
Definition truthyStr (o : option string) : bool :=
  match o with
  | None => false
  | Some s => negb (String.eqb s "")
  end.

(** Decimal text of a natural number and of an integer (template
    literals, [JSON.stringify] of an integer). *)
Definition natToString (n : nat) : string :=
  NilEmpty.string_of_uint (Nat.to_uint n).

Definition intToString (z : Z) : string :=
  match z with
  | Z0 => "0"
  | Zpos p => natToString (Pos.to_nat p)
  | Zneg p => "-" ++ natToString (Pos.to_nat p)
  end.

(** ** JSON values

    A number literal is kept exactly, as [mantissa * 10 ^ exponent]; an
    object keeps its members as written (a repeated key is resolved at
    lookup, where the last one wins). *)

Inductive JSON : Type :=
| JNull
| JBool (b : bool)
| JNum (mantissa exponent : Z)
| JStr (s : string)
| JArr (items : list JSON)
| JObj (members : list (string * JSON)).

(** Own property [k] of an object: the last member written with that key. *)
Fixpoint lookupMember (k : string) (ms : list (string * JSON)) : option JSON :=
  match ms with
  | [] => None
  | (k', v) :: rest =>
      match lookupMember k rest with
      | Some w => Some w
      | None => if String.eqb k' k then Some v else None
      end
  end.

(** [v.k] for a decoded value [v] and a key [k] that is no built-in
    property of arrays, strings, numbers or booleans (the code reads only
    [error] and [todos]).  [None]: a [TypeError] is thrown ([v] is [null]);
    [Some None]: the result is [undefined]. *)
Definition getProp (v : JSON) (k : string) : option (option JSON) :=
  match v with
  | JNull => None
  | JObj ms => Some (lookupMember k ms)
  | _ => Some None
  end.

(** A number literal denotes zero after rounding to a double exactly when
    its magnitude is at most [2 ^ -1075] (half of the least subnormal, the
    tie going to the even neighbour, zero). *)
Definition numIsZero (m e : Z) : bool :=
  if (m =? 0)%Z then true
  else if (0 <=? e)%Z then false
  else (Z.abs m * 2 ^ 1075 <=? 10 ^ (- e))%Z.

(** [ToBoolean] on a decoded value. *)
Definition truthy (v : JSON) : bool :=
  match v with
  | JNull => false
  | JBool b => b
  | JNum m e => negb (numIsZero m e)
  | JStr s => negb (String.eqb s "")
  | JArr _ => true
  | JObj _ => true
  end.

(** [ToBoolean] on a possibly [undefined] value. *)
Definition truthyOpt (o : option JSON) : bool :=
  match o with
  | None => false
  | Some v => truthy v
  end.

(** ** [JSON.parse] *)

(** The quotation mark, U+0022. *)
Definition dquote : ascii := "034"%char.

Definition isJsonSpace (c : ascii) : bool :=
  let n := nat_of_ascii c in
  ((n =? 32) || (n =? 9) || (n =? 10) || (n =? 13))%nat.

Fixpoint skipSpace (s : string) : string :=
  match s with
  | String c r => if isJsonSpace c then skipSpace r else s
  | EmptyString => EmptyString
  end.

Definition digitVal (c : ascii) : option Z :=
  let n := nat_of_ascii c in
  if ((48 <=? n) && (n <=? 57))%nat then Some (Z.of_nat (n - 48)) else None.

Definition hexVal (c : ascii) : option N :=
  let n := N_of_ascii c in
  if ((48 <=? n) && (n <=? 57))%N then Some (n - 48)%N
  else if ((65 <=? n) && (n <=? 70))%N then Some (n - 55)%N
  else if ((97 <=? n) && (n <=? 102))%N then Some (n - 87)%N
  else None.

(** Reads a possibly empty run of digits: accumulated value, number of
    digits read, rest. *)
Fixpoint readDigits (s : string) (acc : Z) (count : nat) : Z * nat * string :=
  match s with
  | String c r =>
      match digitVal c with
      | Some d => readDigits r (acc * 10 + d)%Z (S count)
      | None => (acc, count, s)
      end
  | EmptyString => (acc, count, s)
  end.

(** Integer part: a single [0], or a non-zero digit and more digits. *)
Definition readInt (s : string) : option (Z * string) :=
  match s with
  | String c r =>
      match digitVal c with
      | Some 0%Z => Some (0%Z, r)
      | Some d => let '(v, _, rest) := readDigits r d 0 in Some (v, rest)
      | None => None
      end
  | EmptyString => None
  end.

(** Optional fraction: the mantissa extended by the fraction digits and the
    number of those digits. *)
Definition readFrac (m : Z) (s : string) : option (Z * nat * string) :=
  match s with
  | String "." r =>
      let '(v, k, rest) := readDigits r m 0 in
      if (k =? 0)%nat then None else Some (v, k, rest)
  | _ => Some (m, 0%nat, s)
  end.

(** Optional exponent part. *)
Definition readExp (s : string) : option (Z * string) :=
  let digits (neg : bool) (r : string) :=
    let '(v, k, rest) := readDigits r 0%Z 0 in
    if (k =? 0)%nat then None else Some (if neg then (- v)%Z else v, rest) in
  match s with
  | String c r =>
      if Ascii.eqb c "e" || Ascii.eqb c "E" then
        match r with
        | String "+" r' => digits false r'
        | String "-" r' => digits true r'
        | _ => digits false r
        end
      else Some (0%Z, s)
  | EmptyString => Some (0%Z, s)
  end.

Definition readNumber (s : string) : option (JSON * string) :=
  let '(neg, s1) := match s with
                    | String "-" r => (true, r)
                    | _ => (false, s)
                    end in
  match readInt s1 with
  | None => None
  | Some (i, s2) =>
      match readFrac i s2 with
      | None => None
      | Some (m, k, s3) =>
          match readExp s3 with
          | None => None
          | Some (e, s4) =>
              Some (JNum (if neg then (- m)%Z else m) (e - Z.of_nat k), s4)
          end
      end
  end.

(** UTF-8 image of a code point (a lone surrogate takes the three-unit
    form). *)
Definition utf8 (cp : N) : string :=
  let a := ascii_of_N in
  (if cp <? 128 then String (a cp) EmptyString
   else if cp <? 2048 then
     String (a (192 + cp / 64)) (String (a (128 + cp mod 64)) EmptyString)
   else if cp <? 65536 then
     String (a (224 + cp / 4096))
       (String (a (128 + (cp / 64) mod 64)) (String (a (128 + cp mod 64)) EmptyString))
   else
     String (a (240 + cp / 262144))
       (String (a (128 + (cp / 4096) mod 64))
         (String (a (128 + (cp / 64) mod 64)) (String (a (128 + cp mod 64)) EmptyString))))%N.

(** Four hexadecimal digits. *)
Definition readHex4 (s : string) : option (N * string) :=
  match s with
  | String c1 (String c2 (String c3 (String c4 r))) =>
      match hexVal c1, hexVal c2, hexVal c3, hexVal c4 with
      | Some h1, Some h2, Some h3, Some h4 =>
          Some ((((h1 * 16 + h2) * 16 + h3) * 16 + h4)%N, r)
      | _, _, _, _ => None
      end
  | _ => None
  end.

(** The text after [\u]: one code unit, or a surrogate pair written as two
    escapes, which is one code point. *)
Definition readUnicodeEscape (s : string) : option (string * string) :=
  match readHex4 s with
  | None => None
  | Some (hi, r) =>
      let single := Some (utf8 hi, r) in
      if ((55296 <=? hi) && (hi <=? 56319))%N then
        match r with
        | String "\" (String "u" r') =>
            match readHex4 r' with
            | Some (lo, r'') =>
                if ((56320 <=? lo) && (lo <=? 57343))%N
                then Some (utf8 (65536 + (hi - 55296) * 1024 + (lo - 56320))%N, r'')
                else single
            | None => single
            end
        | _ => single
        end
      else single
  end.

(** The characters of a string literal after its opening quote, up to and
    including the closing quote. *)
Fixpoint readStringBody (fuel : nat) (s : string) (acc : string)
  : option (string * string) :=
  match fuel with
  | O => None
  | S fuel' =>
      match s with
      | EmptyString => None
      | String c r =>
          if Ascii.eqb c dquote then Some (acc, r)
          else if Ascii.eqb c "\" then
            match r with
            | String e r' =>
                let simple (x : nat) :=
                  readStringBody fuel' r' (acc ++ String (ascii_of_nat x) EmptyString) in
                if Ascii.eqb e dquote then simple 34%nat
                else if Ascii.eqb e "\" then simple 92%nat
                else if Ascii.eqb e "/" then simple 47%nat
                else if Ascii.eqb e "b" then simple 8%nat
                else if Ascii.eqb e "f" then simple 12%nat
                else if Ascii.eqb e "n" then simple 10%nat
                else if Ascii.eqb e "r" then simple 13%nat
                else if Ascii.eqb e "t" then simple 9%nat
                else if Ascii.eqb e "u" then
                  match readUnicodeEscape r' with
                  | Some (u, r'') => readStringBody fuel' r'' (acc ++ u)
                  | None => None
                  end
                else None
            | EmptyString => None
            end
          else if (nat_of_ascii c <? 32)%nat then None
          else readStringBody fuel' r (acc ++ String c EmptyString)
      end
  end.

Definition readString (s : string) : option (string * string) :=
  readStringBody (S (String.length s)) s EmptyString.

(** Values, the elements of an array after its opening bracket, and the
    members of an object after its opening brace.  [first] tells that no
    element or member was read yet, so that the closing bracket may come
    at once and no comma is expected. *)
Fixpoint parseValue (fuel : nat) (s : string) : option (JSON * string) :=
  match fuel with
  | O => None
  | S fuel' =>
      match skipSpace s with
      | EmptyString => None
      | String c r as s' =>
          if Ascii.eqb c "{" then
            match parseMembers fuel' true r with
            | Some (ms, rest) => Some (JObj ms, rest)
            | None => None
            end
          else if Ascii.eqb c "[" then
            match parseElements fuel' true r with
            | Some (vs, rest) => Some (JArr vs, rest)
            | None => None
            end
          else if Ascii.eqb c dquote then
            match readString r with
            | Some (str, rest) => Some (JStr str, rest)
            | None => None
            end
          else if String.prefix "true" s' then Some (JBool true, substring 4 (String.length s') s')
          else if String.prefix "false" s' then Some (JBool false, substring 5 (String.length s') s')
          else if String.prefix "null" s' then Some (JNull, substring 4 (String.length s') s')
          else readNumber s'
      end
  end

with parseElements (fuel : nat) (first : bool) (s : string)
  : option (list JSON * string) :=
  match fuel with
  | O => None
  | S fuel' =>
      let element (s0 : string) :=
        match parseValue fuel' s0 with
        | Some (v, rest) =>
            match parseElements fuel' false rest with
            | Some (vs, rest') => Some (v :: vs, rest')
            | None => None
            end
        | None => None
        end in
      match skipSpace s with
      | EmptyString => None
      | String c r as s' =>
          if Ascii.eqb c "]" then Some ([], r)
          else if first then element s'
          else if Ascii.eqb c "," then element r
          else None
      end
  end

with parseMembers (fuel : nat) (first : bool) (s : string)
  : option (list (string * JSON) * string) :=
  match fuel with
  | O => None
  | S fuel' =>
      let member (s0 : string) :=
        match skipSpace s0 with
        | String "034"%char r0 =>
            match readString r0 with
            | Some (k, r1) =>
                match skipSpace r1 with
                | String ":" r2 =>
                    match parseValue fuel' r2 with
                    | Some (v, rest) =>
                        match parseMembers fuel' false rest with
                        | Some (ms, rest') => Some ((k, v) :: ms, rest')
                        | None => None
                        end
                    | None => None
                    end
                | _ => None
                end
            | None => None
            end
        | _ => None
        end in
      match skipSpace s with
      | EmptyString => None
      | String c r as s' =>
          if Ascii.eqb c "}" then Some ([], r)
          else if first then member s'
          else if Ascii.eqb c "," then member r
          else None
      end
  end.

(** [JSON.parse(text)]; [None] is the [SyntaxError].  The fuel covers every
    text: each nested value and each element or member takes one unit and
    reads at least one character. *)
Definition parse (text : string) : option JSON :=
  match parseValue (2 * String.length text + 2) text with
  | Some (v, rest) =>
      match skipSpace rest with
      | EmptyString => Some v
      | _ => None
      end
  | None => None
  end.

(** ** [JSON.stringify] of a flat object literal

    Every call of [JSON.stringify] in the code modelled here is applied to
    an object literal whose values are strings, booleans or integers. *)

Inductive Lit : Type :=
| LStr (s : string)
| LBool (b : bool)
| LInt (z : Z).

Definition hexDigit (n : N) : ascii :=
  ascii_of_N (if (n <? 10)%N then 48 + n else 87 + n)%N.

(** One unit of a quoted string. *)
Definition escapeUnit (c : ascii) : string :=
  let n := N_of_ascii c in
  if (n =? 34)%N then String "\" (String dquote EmptyString)
  else if (n =? 92)%N then "\\"
  else if (n =? 8)%N then "\b"
  else if (n =? 12)%N then "\f"
  else if (n =? 10)%N then "\n"
  else if (n =? 13)%N then "\r"
  else if (n =? 9)%N then "\t"
  else if (n <? 32)%N then
    "\u00" ++ String (hexDigit (n / 16)) (String (hexDigit (n mod 16)) EmptyString)
  else String c EmptyString.

Fixpoint escape (s : string) : string :=
  match s with
  | EmptyString => EmptyString
  | String c r => escapeUnit c ++ escape r
  end.

Definition quote (s : string) : string :=
  String dquote (escape s ++ String dquote EmptyString).

Definition stringifyLit (v : Lit) : string :=
  match v with
  | LStr s => quote s
  | LBool true => "true"
  | LBool false => "false"
  | LInt z => intToString z
  end.

Definition stringifyObject (fields : list (string * Lit)) : string :=
  "{" ++ join "," (map (fun kv => quote (fst kv) ++ ":" ++ stringifyLit (snd kv)) fields)
      ++ "}".

End JS.

(* ===================================================================== *)
(** * Platform: anchored regular expressions *)
(* ===================================================================== *)

(** [/^r$/.test(s)] for a pattern built from character classes,
    concatenation, alternation and repetition, decided by derivatives. *)

Module Regex.

Inductive re : Type :=
| Void
| Eps
| Class (p : ascii -> bool)
| Cat (a b : re)
| Alt (a b : re)
| Star (a : re).

(** [a+] *)
Definition Plus (a : re) : re := Cat a (Star a).

Fixpoint nullable (r : re) : bool :=
  match r with
  | Void => false
  | Eps => true
  | Class _ => false
  | Cat a b => nullable a && nullable b
  | Alt a b => nullable a || nullable b
  | Star _ => true
  end.

Fixpoint deriv (c : ascii) (r : re) : re :=
  match r with
  | Void => Void
  | Eps => Void
  | Class p => if p c then Eps else Void
  | Cat a b =>
      if nullable a then Alt (Cat (deriv c a) b) (deriv c b)
      else Cat (deriv c a) b
  | Alt a b => Alt (deriv c a) (deriv c b)
  | Star a => Cat (deriv c a) (Star a)
  end.

Fixpoint test (r : re) (s : string) : bool :=
  match s with
  | EmptyString => nullable r
  | String c s' => test (deriv c r) s'
  end.


End Regex.

(* ===================================================================== *)
(** * lib/core/types *)
(* ===================================================================== *)

(** [ToolCall]: [{ id, type: 'function', function: { name, arguments } }].
    A missing [id] or [name] is the empty string; the code tells neither
    from the other (both are falsy). *)
Record ToolCall : Type := mkToolCall {
  tcId : string;
  tcName : string;
  tcArguments : string
}.

(** [Message.role]; [unknown s] is any other run-time value, [unknown ""]
    a missing role. *)
Inductive Role : Type :=
| system
| user
| assistant
| tool
| unknown (s : string).

(** [Message].  The fields [id] and [usage] are display data which none of
    the functions below reads. *)
Record Message : Type := mkMessage {
  role : Role;
  content : option string;
  toolCalls : option (list ToolCall);
  name : option string;
  toolCallId : option string;
  toolArgs : option JS.JSON
}.

Definition isRole (r q : Role) : bool :=
  match r, q with
  | system, system | user, user | assistant, assistant | tool, tool => true
  | unknown a, unknown b => String.eqb a b
  | _, _ => false
  end.

(** [{ role: "tool", name, content, toolCallId, toolArgs }] *)
Definition toolResponse (nm cont id : string) (args : JS.JSON) : Message :=
  mkMessage tool (Some cont) None (Some nm) (Some id) (Some args).

(** [{ role: "assistant", content }] *)
Definition assistantText (cont : string) : Message :=
  mkMessage assistant (Some cont) None None None None.

(** [{ role: "assistant", content, toolCalls }] *)
Definition assistantCalls (cont : string) (calls : list ToolCall) : Message :=
  mkMessage assistant (Some cont) (Some calls) None None None.

(** [{ role: "user", content }] *)
Definition userText (cont : string) : Message :=
  mkMessage user (Some cont) None None None None.

(** [{} as Message] *)
Definition emptyObjectMessage : Message :=
  mkMessage (unknown "") None None None None None.

(** [msg.toolCalls && msg.toolCalls.length > 0]: the calls, when there are
    any. *)
Definition announcedCalls (m : Message) : list ToolCall :=
  match toolCalls m with
  | Some calls => calls
  | None => []
  end.

(* ===================================================================== *)
(** * lib/chat/toolCallValidator *)
(* ===================================================================== *)

Module ToolCallValidator.

Import JS.

Record ToolCallValidationResult : Type := mkResult {
  valid : bool;
  toolName : option string;
  parsedArgs : option JSON;           (* the field [toolArgs] *)
  errorMessage : option Message
}.

(** The class [[a-zA-Z0-9_-]]. *)
Definition nameUnit (c : ascii) : bool :=
  let n := nat_of_ascii c in
  ((97 <=? n) && (n <=? 122) || (65 <=? n) && (n <=? 90)
   || (48 <=? n) && (n <=? 57) || (n =? 95) || (n =? 45))%nat.

Definition isDot (c : ascii) : bool := Ascii.eqb c ".".

(** [/^[a-zA-Z0-9_-]+(\.[a-zA-Z0-9_-]+)*$/] *)
Definition toolNamePattern : Regex.re :=
  Regex.Cat (Regex.Plus (Regex.Class nameUnit))
    (Regex.Star (Regex.Cat (Regex.Class isDot) (Regex.Plus (Regex.Class nameUnit)))).

Definition invalidNameText (toolName : string) : string :=
  "Invalid tool name format: " ++ String dquote (toolName ++ String dquote
  ". Tool names must only contain letters, numbers, underscores, dashes, and non-consecutive dots. Do NOT include parentheses or function call syntax.").

Definition validateToolName (toolName toolCallId : string) : ToolCallValidationResult :=
  if negb (Regex.test toolNamePattern toolName) || includes toolName ".." then
    mkResult false None None
      (Some (toolResponse toolName
               (stringifyObject [("error", LStr (invalidNameText toolName))])
               toolCallId (JObj [])))
  else mkResult true (Some toolName) None None.

Section ParseArguments.

(** The message of the [SyntaxError] that [JSON.parse] raises on a text; it
    is engine text, so it is a parameter. *)
Variable syntaxErrorMessage : string -> string.

Definition invalidJsonText (argumentsJson : string) : string :=
  "Invalid JSON in tool arguments: " ++ syntaxErrorMessage argumentsJson
  ++ ". Raw arguments: " ++ argumentsJson.

Definition parseToolArguments (toolName argumentsJson toolCallId : string)
  : ToolCallValidationResult :=
  match parse argumentsJson with
  | Some args => mkResult true (Some toolName) (Some args) None
  | None =>
      mkResult false None None
        (Some (toolResponse toolName
                 (stringifyObject [("error", LStr (invalidJsonText argumentsJson))])
                 toolCallId (JObj [])))
  end.

End ParseArguments.

(** [{ name, args }] *)
Record HistoryEntry : Type := mkEntry {
  entryName : string;
  entryArgs : JSON
}.

Record ToolCallHistory : Type := mkHistory {
  allToolCalls : list HistoryEntry;
  lastToolCall : option HistoryEntry
}.

(** The body of the loop of [extractToolCallHistory] for one message: the
    entry it pushes, if any. *)
Definition successfulCall (msg : Message) : option HistoryEntry :=
  match role msg, toolArgs msg with
  | tool, Some args =>
      if truthy args then
        if negb (truthyStr (content msg)) then None
        else
          match content msg with
          | Some text =>
              match parse text with
              | Some result =>
                  match getProp result "error" with
                  | Some None =>
                      Some (mkEntry (match name msg with
                                     | Some n => n
                                     | None => ""
                                     end) args)
                  | _ => None
                  end
              | None => None
              end
          | None => None
          end
      else None
  | _, _ => None
  end.

Fixpoint extractLoop (messages : list Message) (acc : ToolCallHistory)
  : ToolCallHistory :=
  match messages with
  | [] => acc
  | msg :: rest =>
      match successfulCall msg with
      | Some e => extractLoop rest (mkHistory (allToolCalls acc ++ [e]) (Some e))
      | None => extractLoop rest acc
      end
  end.

Definition extractToolCallHistory (messages : list Message) : ToolCallHistory :=
  extractLoop messages (mkHistory [] None).

End ToolCallValidator.

(* ===================================================================== *)
(** * hooks/useToolExecutor *)
(* ===================================================================== *)

Module ToolExecutor.

Import JS ToolCallValidator.

(** [ToolContext]; [signalAborted] is [signal.aborted] at dispatch. *)
Record ToolContext : Type := mkContext {
  ctxAllToolCalls : list HistoryEntry;
  ctxLastToolCall : option HistoryEntry;
  signalAborted : bool
}.

Record ToolExecutionResult : Type := mkExecution {
  toolMessage : Message;
  permissionDenied : bool;
  deniedToolName : string;
  validationFailed : bool;
  validationErrorMessage : option Message
}.

(** [requiresPermission] of the registry *)
Definition requiresPermission (toolName : string) (allowedTools : list string) : bool :=
  negb (existsb (String.eqb toolName) allowedTools).

(** [formatToolStatus] yields display text, which is not modelled; what is
    kept is whether the call throws.  A formatter of the table reads a
    property of [args], a [TypeError] when [args] is [null]; and three names
    that pass [validateToolName] select, through the prototype of the table,
    something that cannot be called this way. *)
Definition formatToolStatusThrows (toolName : string) (args : JSON) : bool :=
  let known := ["execute_command"; "read_file"; "write_file"; "edit_file";
                "delete_file"; "list_files"; "find_files"; "grep"] in
  let broken := ["__proto__"; "__defineGetter__"; "__defineSetter__"] in
  existsb (String.eqb toolName) broken
  || existsb (String.eqb toolName) known
     && match args with JNull => true | _ => false end.

(** The special case for [manage_todos] after a tool ran: the list that
    [setTodos] leaves, given the one before. *)
Definition handleManageTodos (toolName : string) (denied : bool)
    (toolResult : string) (args : JSON) (todos : JSON) : JSON :=
  if String.eqb toolName "manage_todos" && negb denied then
    match parse toolResult with
    | Some result =>
        match getProp result "error" with
        | Some err =>
            if negb (truthyOpt err) then
              match getProp args "todos" with
              | Some (Some t) => if truthy t then t else todos
              | Some None => todos
              | None => todos            (* thrown inside the try *)
              end
            else todos
        | None => todos                  (* thrown inside the try *)
        end
    | None => todos                      (* caught and logged *)
    end
  else todos.

Section ExecuteToolCall.

Variable syntaxErrorMessage : string -> string.
Variable allowedTools : list string.
(** The answer of the user to a permission request. *)
Variable requestPermission : string -> JSON -> bool.
(** [executeTool] of the registry: the serialized result of a tool. *)
Variable executeTool : string -> JSON -> ToolContext -> string.

Definition validationFailure (err : option Message) : ToolExecutionResult :=
  mkExecution emptyObjectMessage false "" true err.

(** [executeToolCall(toolCall, conversationHistory, signal)] with the todo
    list it leaves; [None] when it throws. *)
Definition executeToolCall (toolCall : ToolCall) (conversationHistory : list Message)
    (aborted : bool) (todos : JSON) : option (ToolExecutionResult * JSON) :=
  let nameValidation := validateToolName (tcName toolCall) (tcId toolCall) in
  if negb (valid nameValidation) then
    Some (validationFailure (errorMessage nameValidation), todos)
  else
    match toolName nameValidation with
    | None => None
    | Some name0 =>
        let argsValidation :=
          parseToolArguments syntaxErrorMessage name0 (tcArguments toolCall) (tcId toolCall) in
        if negb (valid argsValidation) then
          Some (validationFailure (errorMessage argsValidation), todos)
        else
          match toolName argsValidation, parsedArgs argsValidation with
          | Some name1, Some args =>
              if formatToolStatusThrows name1 args then None
              else
                let history := extractToolCallHistory conversationHistory in
                let context :=
                  mkContext (allToolCalls history) (lastToolCall history) aborted in
                let '(toolResult, denied) :=
                  if requiresPermission name1 allowedTools then
                    if negb (requestPermission name1 args) then
                      (stringifyObject
                         [("error", LStr "Permission denied by user. STOP IMMEDIATELY.")],
                       true)
                    else (executeTool name1 args context, false)
                  else (executeTool name1 args context, false) in
                let message := toolResponse name1 toolResult (tcId toolCall) args in
                Some (mkExecution message denied (if denied then name1 else "") false None,
                      handleManageTodos name1 denied toolResult args todos)
          | _, _ => None
          end
    end.

End ExecuteToolCall.

End ToolExecutor.

(* ===================================================================== *)
(** * lib/validation/messageValidation *)
(* ===================================================================== *)

Module MessageValidation.

Import JS.

Record ValidationResult : Type := mkValidation {
  valid : bool;
  errors : list string;
  warnings : list string
}.

(** ** [Set<string>], in insertion order *)

Definition setHas (x : string) (s : list string) : bool :=
  existsb (String.eqb x) s.

Definition setAdd (x : string) (s : list string) : list string :=
  if setHas x s then s else (s ++ [x])%list.

Definition setDelete (x : string) (s : list string) : list string :=
  filter (fun y => negb (String.eqb y x)) s.

(** ** [validateMessages] *)

(** The variables of the scan: [pendingToolCalls], [errors], [warnings]. *)
Record Scan : Type := mkScan {
  pending : list string;
  errs : list string;
  warns : list string
}.

Definition pushError (st : Scan) (e : string) : Scan :=
  mkScan (pending st) (errs st ++ [e]) (warns st).

Definition pushWarning (st : Scan) (w : string) : Scan :=
  mkScan (pending st) (errs st) (warns st ++ [w]).

Definition prevRoleIs (prevMsg : option Message) (r : Role) : bool :=
  match prevMsg with
  | Some p => isRole (role p) r
  | None => false
  end.

(** The body of [for (const toolCall of msg.toolCalls)]. *)
Definition checkToolCall (i : nat) (st : Scan) (toolCall : ToolCall) : Scan :=
  let st1 :=
    if String.eqb (tcId toolCall) "" then
      pushError st ("Tool call in message " ++ natToString i ++ " is missing an id")
    else mkScan (setAdd (tcId toolCall) (pending st)) (errs st) (warns st) in
  if String.eqb (tcName toolCall) "" then
    pushError st1 ("Tool call in message " ++ natToString i ++ " is missing function name")
  else st1.

(** The body of the loop over the messages. *)
Definition checkMessage (i : nat) (prevMsg : option Message) (msg : Message)
    (st : Scan) : Scan :=
  let idx := natToString i in
  match role msg with
  | unknown EmptyString => pushError st ("Message at index " ++ idx ++ " is missing a role")
  | system =>
      let st1 :=
        if (0 <? i)%nat && negb (prevRoleIs prevMsg system) then
          pushWarning st ("System message at index " ++ idx
                          ++ " appears after non-system messages")
        else st in
      if negb (truthyStr (content msg)) then
        pushError st1 ("System message at index " ++ idx ++ " is missing content")
      else st1
  | user =>
      let st1 :=
        if negb (truthyStr (content msg))
           || match content msg with
              | Some c => String.eqb (trim c) ""
              | None => false
              end
        then pushError st ("User message at index " ++ idx ++ " has empty content")
        else st in
      if prevRoleIs prevMsg user then
        pushError st1 ("User message at index " ++ idx
                       ++ " follows another user message (index "
                       ++ natToString (i - 1) ++ ")")
      else st1
  | assistant => fold_left (checkToolCall i) (announcedCalls msg) st
  | tool =>
      let st1 :=
        if negb (truthyStr (name msg)) then
          pushError st ("Tool message at index " ++ idx ++ " is missing name")
        else st in
      match toolCallId msg with
      | Some id =>
          if String.eqb id "" then
            pushError st1 ("Tool message at index " ++ idx ++ " is missing toolCallId")
          else if negb (setHas id (pending st1)) then
            pushWarning st1 ("Tool message at index " ++ idx ++ " has toolCallId "
                             ++ String dquote (id ++ String dquote
                             " which was not found in previous assistant message"))
          else mkScan (setDelete id (pending st1)) (errs st1) (warns st1)
      | None => pushError st1 ("Tool message at index " ++ idx ++ " is missing toolCallId")
      end
  | unknown r => pushError st ("Message at index " ++ idx ++ " has invalid role: " ++ r)
  end.

Fixpoint scanMessages (i : nat) (prevMsg : option Message) (messages : list Message)
    (st : Scan) : Scan :=
  match messages with
  | [] => st
  | msg :: rest => scanMessages (S i) (Some msg) rest (checkMessage i prevMsg msg st)
  end.

Definition unansweredText (ids : list string) : string :=
  natToString (List.length ids)
  ++ " tool call(s) have no corresponding tool response. Tool call IDs: "
  ++ join ", " ids.

Definition validateMessages (messages : list Message) : ValidationResult :=
  match messages with
  | [] => mkValidation true [] []
  | _ =>
      let st := scanMessages 0 None messages (mkScan [] [] []) in
      let errors :=
        if (0 <? List.length (pending st))%nat
        then (errs st ++ [unansweredText (pending st)])%list
        else errs st in
      mkValidation (List.length errors =? 0)%nat errors (warns st)
  end.

(** ** [Map<K, V>], in insertion order *)

Section JsMap.

Context {K V : Type}.
Variable eqbK : K -> K -> bool.

Fixpoint mapGet (k : K) (m : list (K * V)) : option V :=
  match m with
  | [] => None
  | (k', v) :: rest => if eqbK k' k then Some v else mapGet k rest
  end.

(** [m.set(k, v)]: a key already there keeps its place. *)
Fixpoint mapSet (k : K) (v : V) (m : list (K * V)) : list (K * V) :=
  match m with
  | [] => [(k, v)]
  | (k', v') :: rest =>
      if eqbK k' k then (k', v) :: rest else (k', v') :: mapSet k v rest
  end.

Definition mapDelete (k : K) (m : list (K * V)) : list (K * V) :=
  filter (fun kv => negb (eqbK (fst kv) k)) m.

End JsMap.

(** ** [healOrphanedToolCalls] *)

(** [{ name, index }] *)
Definition Pending : Type := list (string * (string * nat)).

(** The body of [for (const toolCall of msg.toolCalls)] in the first loop. *)
Definition trackCall (i : nat) (acc : Pending) (toolCall : ToolCall) : Pending :=
  if negb (String.eqb (tcId toolCall) "") && negb (String.eqb (tcName toolCall) "")
  then mapSet String.eqb (tcId toolCall) (tcName toolCall, i) acc
  else acc.

(** The body of the first loop for the message at index [i]. *)
Definition trackMessage (i : nat) (msg : Message) (p : Pending) : Pending :=
  let p1 :=
    if isRole (role msg) assistant
    then fold_left (trackCall i) (announcedCalls msg) p
    else p in
  if isRole (role msg) tool && truthyStr (toolCallId msg) then
    match toolCallId msg with
    | Some id => mapDelete String.eqb id p1
    | None => p1
    end
  else p1.

Fixpoint trackMessages (i : nat) (messages : list Message) (p : Pending) : Pending :=
  match messages with
  | [] => p
  | msg :: rest => trackMessages (S i) rest (trackMessage i msg p)
  end.

(** The body of [for (const [id, { name, index }] of pendingToolCalls)]. *)
Definition groupStep (acc : list (nat * list (string * string)))
    (entry : string * (string * nat)) : list (nat * list (string * string)) :=
  let '(id, (nm, index)) := entry in
  let acc1 := match mapGet Nat.eqb index acc with
              | Some _ => acc
              | None => mapSet Nat.eqb index [] acc
              end in
  match mapGet Nat.eqb index acc1 with
  | Some l => mapSet Nat.eqb index (l ++ [(id, nm)])%list acc1
  | None => acc1
  end.

(** [orphansByIndex]: the orphans of each announcing index, both in
    insertion order. *)
Definition groupOrphans (p : Pending) : list (nat * list (string * string)) :=
  fold_left groupStep p [].

(** [keys.sort((a, b) => b - a)] *)
Fixpoint insertDescending (x : nat) (l : list nat) : list nat :=
  match l with
  | [] => [x]
  | y :: rest => if (y <=? x)%nat then x :: l else y :: insertDescending x rest
  end.

Definition sortDescending (l : list nat) : list nat :=
  fold_right insertDescending [] l.

(** [a.splice(start, 0, ...items)] *)
Definition splice (a : list Message) (start : nat) (items : list Message) : list Message :=
  (firstn start a ++ items ++ skipn start a)%list.

Definition orphanedText : string :=
  "Tool call was orphaned (no response was recorded). This has been automatically resolved.".

Definition orphanResponse (orphan : string * string) : Message :=
  toolResponse (snd orphan) (stringifyObject [("error", LStr orphanedText)])
              (fst orphan) (JObj []).

Definition healOrphanedToolCalls (messages : list Message) : list Message :=
  let pendingToolCalls := trackMessages 0 messages [] in
  if (List.length pendingToolCalls =? 0)%nat then messages
  else
    let orphansByIndex := groupOrphans pendingToolCalls in
    let sortedIndices := sortDescending (map fst orphansByIndex) in
    fold_left (fun healedMessages assistantIndex =>
                 match mapGet Nat.eqb assistantIndex orphansByIndex with
                 | Some orphans =>
                     splice healedMessages (assistantIndex + 1) (map orphanResponse orphans)
                 | None => healedMessages
                 end)
              sortedIndices messages.

(** ** [sanitizeMessagesForAPI] *)

(** [const { toolArgs, usage, ...rest } = msg; return rest]: the message
    without [toolArgs] (and without [usage], which the record leaves
    out). *)
Definition sanitizeMessagesForAPI (messages : list Message) : list Message :=
  map (fun msg => mkMessage (role msg) (content msg) (toolCalls msg) (name msg)
                    (toolCallId msg) None)
      messages.

End MessageValidation.

(* ===================================================================== *)
(** * lib/chat/errorHandlers *)
(* ===================================================================== *)

Module ErrorHandlers.

Import JS.

Definition abortedResponse (toolCall : ToolCall) : Message :=
  toolResponse (tcName toolCall)
              (stringifyObject [("error", LStr "Operation aborted by user")])
              (tcId toolCall) (JObj []).

Definition interruptedMessage : Message :=
  assistantText ("[Request interrupted by user]" ++ String "010"%char EmptyString).

Definition handleAbortError (messages : list Message) : list Message :=
  match last (map Some messages) None with
  | Some lastMessage =>
      if isRole (role lastMessage) assistant
         && (0 <? List.length (announcedCalls lastMessage))%nat
      then (messages ++ map abortedResponse (announcedCalls lastMessage)
                     ++ [interruptedMessage])%list
      else (messages ++ [interruptedMessage])%list
  | None => (messages ++ [interruptedMessage])%list
  end.

End ErrorHandlers.

(* ===================================================================== *)
(** * hooks/useAgenticLoop and the abort branch of [handleSubmit] *)
(* ===================================================================== *)

Module AgenticLoop.

Import JS ToolExecutor.

(** How the branch of [runAgenticLoop] that executes the proposed tool
    calls ends.  [committed] is the transcript held by the component, as the
    last [setMessages] left it; [history] is the local
    [conversationHistory]. *)
Inductive Outcome : Type :=
| AbortError (committed : list Message) (todos : JSON)
| Failure (committed : list Message) (todos : JSON)
| Executed (committed history : list Message) (denied : bool)
           (deniedName : string) (todos : JSON).

Section ToolPhase.

(** The option [executeToolCall] of the hook. *)
Variable executeToolCall :
  ToolCall -> list Message -> bool -> JSON -> option (ToolExecutionResult * JSON).

(** [signal.aborted] as the loop reads it once [n] tool calls of the turn
    have been executed: before the next call and after the last one. *)
Variable signalAt : nat -> bool.

(** [signal.aborted] when the tool of the call after those [n] is
    dispatched, that is, after its permission request. *)
Variable signalAtDispatch : nat -> bool.

(** How the loop [for (const toolCall of response.toolCalls)] ends. *)
Inductive LoopEnd : Type :=
| Thrown (isAbort : bool) (todos : JSON)
| Left (history : list Message) (denied : bool) (deniedName : string)
       (executed : nat) (todos : JSON).

Fixpoint runToolCalls (calls : list ToolCall) (executed : nat)
    (history : list Message) (todos : JSON) : LoopEnd :=
  match calls with
  | [] => Left history false "" executed todos
  | toolCall :: rest =>
      if signalAt executed then Thrown true todos
      else
        match executeToolCall toolCall history (signalAtDispatch executed) todos with
        | None => Thrown false todos
        | Some (result, todos1) =>
            if validationFailed result then
              match validationErrorMessage result with
              | Some e => runToolCalls rest (S executed) (history ++ [e]) todos1
              | None => Thrown false todos1   (* the asserted message is absent *)
              end
            else
              let history1 := (history ++ [toolMessage result])%list in
              if permissionDenied result then
                Left history1 true (deniedToolName result) (S executed) todos1
              else runToolCalls rest (S executed) history1 todos1
        end
  end.

(** From the push of the assistant message that proposes [calls] to the
    check of the signal after the loop. *)
Definition executeProposedCalls (history : list Message) (content0 : string)
    (calls : list ToolCall) (todos : JSON) : Outcome :=
  let history1 := (history ++ [assistantCalls content0 calls])%list in
  match runToolCalls calls 0 history1 todos with
  | Thrown true todos1 => AbortError history1 todos1
  | Thrown false todos1 => Failure history1 todos1
  | Left history2 denied deniedName executed todos1 =>
      if signalAt executed then AbortError history2 todos1
      else Executed history2 history2 denied deniedName todos1
  end.

(** The transcript that [handleSubmit] leaves when the branch ends in an
    abort: [setMessages((prev) => handleAbortError(prev))]. *)
Definition surfacedAbort (history : list Message) (content0 : string)
    (calls : list ToolCall) (todos : JSON) : option (list Message) :=
  match executeProposedCalls history content0 calls todos with
  | AbortError committed _ => Some (ErrorHandlers.handleAbortError committed)
  | _ => None
  end.

End ToolPhase.

End AgenticLoop.

(* ===================================================================== *)
(** * Platform: [path] (POSIX), the file system and the working directory *)
(* ===================================================================== *)

Module Path.

Import JS.

(** [path.sep] *)
Definition sep : string := "/".

Definition isAbsolute (p : string) : bool := startsWith p "/".

(** One component in [normalizeString]; the stack holds the components
    kept so far, the last one first. *)
Definition normalizeStep (allowAboveRoot : bool) (stack : list string) (seg : string)
  : list string :=
  if String.eqb seg "" || String.eqb seg "." then stack
  else if String.eqb seg ".." then
    match stack with
    | top :: below =>
        if String.eqb top ".." then (if allowAboveRoot then ".." :: stack else stack)
        else below
    | [] => if allowAboveRoot then [".."] else []
    end
  else seg :: stack.

(** The components that [normalizeString(p, allowAboveRoot)] keeps. *)
Definition normalizeSegments (allowAboveRoot : bool) (p : string) : list string :=
  rev (fold_left (normalizeStep allowAboveRoot) (split "/" p) []).

(** The absolute path with the given components. *)
Definition render (segs : list string) : string := "/" ++ join "/" segs.

(** The components of [path.resolve(cwd, p)] for an absolute [cwd]. *)
Definition resolveSegments (cwd p : string) : list string :=
  normalizeSegments false
    (if String.eqb p "" then cwd ++ "/"
     else if isAbsolute p then p ++ "/"
     else cwd ++ "/" ++ p ++ "/").

(** [path.resolve(cwd, p)] for an absolute [cwd]. *)
Definition resolve (cwd p : string) : string := render (resolveSegments cwd p).

(** [path.normalize(p)] *)
Definition normalize (p : string) : string :=
  if String.eqb p "" then "."
  else
    let absolute := isAbsolute p in
    let trailing := endsWith p "/" in
    let body := join "/" (normalizeSegments (negb absolute) p) in
    if String.eqb body "" then
      (if absolute then "/" else if trailing then "./" else ".")
    else
      let body1 := if trailing then body ++ "/" else body in
      if absolute then "/" ++ body1 else body1.

(** [path.join(a, b)] *)
Definition join2 (a b : string) : string :=
  match filter (fun s => negb (String.eqb s "")) [a; b] with
  | [] => "."
  | parts => normalize (join "/" parts)
  end.

Fixpoint stripCommon (a b : list string) : list string * list string :=
  match a, b with
  | x :: a', y :: b' => if String.eqb x y then stripCommon a' b' else (a, b)
  | _, _ => (a, b)
  end.

(** [path.relative(from, to)] for absolute arguments. *)
Definition relative (from to : string) : string :=
  let '(up, down) := stripCommon (normalizeSegments false from)
                                 (normalizeSegments false to) in
  join "/" (map (fun _ => "..") up ++ down).

(** [path.basename(p)] *)
Definition basename (p : string) : string :=
  last (filter (fun s => negb (String.eqb s "")) (split "/" p)) "".

End Path.

(** [fs.Stats], as far as it is read. *)
Record Stats : Type := mkStats {
  isFile : bool;
  isDirectory : bool
}.

(** The process and the file system as one snapshot: [process.cwd()], which
    is an absolute normalized path; [fs.statSync], where [None] is a path
    that does not exist, so that [fs.existsSync] is its definedness; and
    [fs.readFileSync(_, 'utf-8')], where [None] is a failed read. *)
Record World : Type := mkWorld {
  cwd : string;
  statSync : string -> option Stats;
  readFileSync : string -> option string
}.

Definition existsSync (w : World) (p : string) : bool :=
  match statSync w p with
  | Some _ => true
  | None => false
  end.

(* ===================================================================== *)
(** * tools/shared/gitignore *)
(* ===================================================================== *)

Module Gitignore.

Import JS.

Section Matching.

(** [new RegExp(source)]: [None] when the source is no pattern (a
    [SyntaxError]), else its [test]. *)
Variable newRegExp : string -> option (string -> bool).

(** [pattern.slice(0, -1)] *)
Definition dropLast (s : string) : string :=
  substring 0 (String.length s - 1) s.

(** [None] when the construction of a pattern throws. *)
Fixpoint matchesGitignorePattern (filePath : string) (patterns : list string)
  : option bool :=
  let fileName := Path.basename filePath in
  match patterns with
  | [] => Some false
  | pattern :: rest =>
      if String.eqb pattern "" || startsWith pattern "#" then
        matchesGitignorePattern filePath rest
      else if endsWith pattern "/" then
        if includes filePath (dropLast pattern) then Some true
        else matchesGitignorePattern filePath rest
      else if includes pattern "*" then
        match newRegExp ("^" ++ replaceAll "?" "." (replaceAll "*" ".*" pattern) ++ "$") with
        | Some regexTest =>
            if regexTest fileName || regexTest filePath then Some true
            else matchesGitignorePattern filePath rest
        | None => None
        end
      else
        if String.eqb fileName pattern || includes filePath pattern then Some true
        else matchesGitignorePattern filePath rest
  end.

End Matching.

Definition loadGitignorePatterns (w : World) (dirPath : string) : list string :=
  let gitignorePath := Path.join2 dirPath ".gitignore" in
  if negb (existsSync w gitignorePath) then []
  else
    match readFileSync w gitignorePath with
    | Some text =>
        filter (fun line => negb (String.eqb line "") && negb (startsWith line "#"))
               (map trim (split "010"%char text))
    | None => []
    end.

End Gitignore.

(* ===================================================================== *)
(** * lib/security/pathValidator *)
(* ===================================================================== *)

Module PathValidator.

Import JS.

(** The result shape shared by the validators:
    [{ valid, absolutePath?, stats?, error? }]. *)
Record Validation : Type := mkValidation {
  valid : bool;
  absolutePath : option string;
  stats : option Stats;
  error : option string
}.

Definition validatePath (w : World) (inputPath operation : string) : Validation :=
  let absolute := Path.resolve (cwd w) inputPath in
  if negb (startsWith absolute (cwd w)) then
    mkValidation false None None
      (Some ("Access denied: Cannot " ++ operation ++ " outside the current directory"))
  else mkValidation true (Some absolute) None None.

(** [{ blocked, error? }] *)
Definition blockEugentDirectory (w : World) (absolute operation : string)
  : bool * option string :=
  let relativePath := Path.relative (cwd w) absolute in
  if startsWith relativePath (".eugent" ++ Path.sep) || String.eqb relativePath ".eugent"
  then (true, Some ("Access denied: Cannot " ++ operation
                    ++ " .eugent configuration directory"))
  else (false, None).

Inductive ResourceType : Type := file | directory.

Definition validateResourceType (w : World) (absolute : string)
    (expectedType : ResourceType) (inputPath : string) : Validation :=
  match statSync w absolute with
  | None =>
      mkValidation false None None
        (Some ((match expectedType with file => "File" | directory => "Directory" end)
               ++ " not found: " ++ inputPath))
  | Some st =>
      let isValid := match expectedType with
                     | file => isFile st
                     | directory => isDirectory st
                     end in
      if negb isValid then
        mkValidation false None (Some st)
          (Some ("Path is not a "
                 ++ (match expectedType with file => "file" | directory => "directory" end)
                 ++ ": " ++ inputPath))
      else mkValidation true None (Some st) None
  end.

Section Composed.

Variable newRegExp : string -> option (string -> bool).

(** [{ allowed, error? }]; [None] when the matcher throws. *)
Definition checkGitignoreAccess (w : World) (absolute : string)
    (includeGitignored : bool) (operation : string) : option (bool * option string) :=
  if includeGitignored then Some (true, None)
  else
    let patterns := Gitignore.loadGitignorePatterns w (cwd w) in
    let relativePath := Path.relative (cwd w) absolute in
    match Gitignore.matchesGitignorePattern newRegExp relativePath patterns with
    | Some true =>
        Some (false, Some ("Access denied: Cannot " ++ operation
                           ++ " gitignored path: " ++ relativePath))
    | Some false => Some (true, None)
    | None => None
    end.

(** The sequence shared by [validateFilePath] and [validateDirectoryPath]. *)
Definition validateResourcePath (expectedType : ResourceType) (w : World)
    (inputPath operation : string) (includeGitignored : bool) : option Validation :=
  let pathCheck := validatePath w inputPath operation in
  if negb (valid pathCheck) then Some pathCheck
  else
    match absolutePath pathCheck with
    | None => None
    | Some absolute =>
        let eugentCheck := blockEugentDirectory w absolute operation in
        if fst eugentCheck then Some (mkValidation false None None (snd eugentCheck))
        else
          let resourceCheck := validateResourceType w absolute expectedType inputPath in
          if negb (valid resourceCheck) then Some resourceCheck
          else
            match checkGitignoreAccess w absolute includeGitignored operation with
            | None => None
            | Some (false, err) => Some (mkValidation false None None err)
            | Some (true, _) =>
                Some (mkValidation true (Some absolute) (stats resourceCheck) None)
            end
    end.

Definition validateFilePath := validateResourcePath file.

Definition validateDirectoryPath := validateResourcePath directory.

End Composed.

End PathValidator.

(* ===================================================================== *)
(** * tools/command/execute_command *)
(* ===================================================================== *)

Module ExecuteCommand.

Import JS.

Record ExecuteCommandArgs : Type := mkArgs {
  command : string;
  timeout : option Z
}.

(** What an invocation does to the outside. *)
Inductive Effect : Type :=
| Spawn (cmd : string)                 (* [spawn(command, { shell: true, cwd })] *)
| ListenAbort                          (* [signal.addEventListener('abort', ..)] *)
| ArmTimeout (ms : Z)                  (* [setTimeout(.., timeout)] *)
| ClearTimeout
| KillProcessTree (pid : nat)
| ArmGrace                             (* [setTimeout(.., 2000)] *)
| KillGroup (pid : nat)                (* [process.kill(-pid, 'SIGKILL')] *)
| KillChild.                           (* [child.kill('SIGKILL')] *)

(** The variables of the closure, the value the promise resolved to, and
    the effects so far, the latest first. *)
Record Invocation : Type := mkInvocation {
  stdout : string;
  stderr : string;
  killed : bool;
  resolved : bool;
  timeoutHandle : bool;
  childPid : option nat;
  settled : option string;
  effects : list Effect
}.

Definition abortedBeforeText : string :=
  "ABORTED: User pressed ESC to stop this command. The command was intentionally cancelled and did not complete.".

Definition abortedForcedText : string :=
  "ABORTED: Process tree killed. The command was terminated forcefully.".

Definition abortedPayload (text cmd out err : string) : string :=
  stringifyObject [("error", LStr text); ("aborted", LBool true);
                   ("command", LStr cmd); ("stdout", LStr out); ("stderr", LStr err)].

(** [resolve(v)]: a promise keeps the first value. *)
Definition settle (v : string) (s : Invocation) : Invocation :=
  mkInvocation (stdout s) (stderr s) (killed s) true (timeoutHandle s) (childPid s)
    (match settled s with Some old => Some old | None => Some v end) (effects s).

Definition emit (e : Effect) (s : Invocation) : Invocation :=
  mkInvocation (stdout s) (stderr s) (killed s) (resolved s) (timeoutHandle s)
    (childPid s) (settled s) (e :: effects s).

Definition setKilled (s : Invocation) : Invocation :=
  mkInvocation (stdout s) (stderr s) true (resolved s) (timeoutHandle s)
    (childPid s) (settled s) (effects s).

(** [abortHandler], up to the arming of the grace timer. *)
Definition abortHandler (s : Invocation) : Invocation :=
  let s1 := setKilled s in
  match childPid s1 with
  | Some pid => emit ArmGrace (emit (KillProcessTree pid) s1)
  | None => s1
  end.

(** The executor of the promise.  [signal] is [context?.signal?.aborted],
    [None] without a signal; [pid] is [child.pid] of the spawned child. *)
Definition executeExecuteCommand (args : ExecuteCommandArgs) (signal : option bool)
    (pid : option nat) : Invocation :=
  let cmd := command args in
  let ms := match timeout args with Some t => t | None => 30000%Z end in
  let s0 := mkInvocation "" "" false false false None None [] in
  match signal with
  | Some true => settle (abortedPayload abortedBeforeText cmd "" "") s0
  | _ =>
      let s1 := emit (Spawn cmd) s0 in
      let s2 := mkInvocation (stdout s1) (stderr s1) (killed s1) (resolved s1)
                  (timeoutHandle s1) pid (settled s1) (effects s1) in
      let s3 := match signal with
                | Some true => abortHandler s2
                | Some false => emit ListenAbort s2
                | None => s2
                end in
      if (0 <? ms)%Z then
        emit (ArmTimeout ms)
          (mkInvocation (stdout s3) (stderr s3) (killed s3) (resolved s3) true
             (childPid s3) (settled s3) (effects s3))
      else s3
  end.

(** What may happen to a spawned child afterwards. *)
Inductive Event : Type :=
| Abort                                (* the signal fires *)
| GraceElapsed
| TimeoutElapsed
| StdoutData (d : string)
| StderrData (d : string)
| Close (code : option Z)
| Error (message : string).

Definition bufferLimit : N := (1024 * 1024 * 10)%N.

Definition clearTimer (s : Invocation) : Invocation :=
  if timeoutHandle s then emit ClearTimeout s else s.

Definition handle (cmd : string) (s : Invocation) (e : Event) : Invocation :=
  match e with
  | Abort => abortHandler s
  | GraceElapsed =>
      if killed s && negb (resolved s)
      then settle (abortedPayload abortedForcedText cmd (trim (stdout s)) (trim (stderr s))) s
      else s
  | TimeoutElapsed =>
      let s1 := setKilled s in
      match childPid s1 with
      | Some pid => emit (KillGroup pid) s1
      | None => s1
      end
  | StdoutData d =>
      let s1 := mkInvocation (stdout s ++ d) (stderr s) (killed s) (resolved s)
                  (timeoutHandle s) (childPid s) (settled s) (effects s) in
      if (bufferLimit <? N.of_nat (String.length (stdout s1)))%N
      then emit KillChild (setKilled s1) else s1
  | StderrData d =>
      let s1 := mkInvocation (stdout s) (stderr s ++ d) (killed s) (resolved s)
                  (timeoutHandle s) (childPid s) (settled s) (effects s) in
      if (bufferLimit <? N.of_nat (String.length (stderr s1)))%N
      then emit KillChild (setKilled s1) else s1
  | Close code =>
      let s1 := clearTimer s in
      if resolved s1 then s1
      else if killed s1 then
        settle (abortedPayload abortedBeforeText cmd (trim (stdout s1)) (trim (stderr s1))) s1
      else
        settle (stringifyObject
                  [("command", LStr cmd); ("stdout", LStr (trim (stdout s1)));
                   ("stderr", LStr (trim (stderr s1)));
                   ("exitCode", LInt (match code with Some c => c | None => 0%Z end))]) s1
  | Error message =>
      let s1 := clearTimer s in
      if resolved s1 then s1
      else
        settle (stringifyObject
                  [("error", LStr (if String.eqb message ""
                                   then "Failed to execute command" else message));
                   ("command", LStr cmd); ("stdout", LStr (trim (stdout s1)));
                   ("stderr", LStr (trim (stderr s1)))]) s1
  end.

(** An invocation followed by the events of its child. *)
Definition run (args : ExecuteCommandArgs) (signal : option bool) (pid : option nat)
    (events : list Event) : Invocation :=
  fold_left (handle (command args)) events (executeExecuteCommand args signal pid).

Definition spawned (s : Invocation) : bool :=
  existsb (fun e => match e with Spawn _ => true | _ => false end) (effects s).

End ExecuteCommand.

(* ===================================================================== *)
(** * hooks/useConversation *)
(* ===================================================================== *)

Module Conversation.

Import JS MessageValidation.

(** [{ task, completed }] *)
Record Todo : Type := mkTodo {
  task : string;
  completed : bool
}.

(** [{ role: "system", content }] *)
Definition systemText (cont : string) : Message :=
  mkMessage system (Some cont) None None None None.

(** The line feed of the template literals. *)
Definition newline : string := String "010"%char EmptyString.

(** How [buildMessagesForAPI] ends: the [Error] it throws, with its
    message, or the array it returns. *)
Inductive Request : Type :=
| Rejected (message : string)
| Accepted (messages : list Message).

Section BuildMessages.

(** [getSystemPrompt()], and what [loadMemories()] and [loadContext()]
    resolve to, [None] being [null]. *)
Variable getSystemPrompt : string.
Variable loadMemories : option string.
Variable loadContext : option string.

Definition todoLine (todo : Todo) : string :=
  "- [" ++ (if completed todo then "x" else " ") ++ "] " ++ task todo.

(** The array [messages] when it is validated; [todos] is [None] when the
    argument is left out. *)
Definition assembleMessages (conversationHistory : list Message)
    (todos : option (list Todo)) : list Message :=
  ([systemText getSystemPrompt]
   ++ match loadMemories with
      | Some memories =>
          if negb (String.eqb memories "")
          then [systemText ("## Persistent Memories" ++ newline ++ newline ++ memories)]
          else []
      | None => []
      end
   ++ match loadContext with
      | Some projectContext =>
          if negb (String.eqb projectContext "")
          then [systemText ("## Project Context" ++ newline ++ newline ++ projectContext)]
          else []
      | None => []
      end
   ++ match todos with
      | Some (_ :: _ as l) =>
          [systemText ("## Current Tasks" ++ newline ++ newline
                       ++ join newline (map todoLine l))]
      | _ => []
      end
   ++ conversationHistory)%list.

Definition buildMessagesForAPI (conversationHistory : list Message)
    (todos : option (list Todo)) : Request :=
  let messages := assembleMessages conversationHistory todos in
  let validation := validateMessages messages in
  if negb (valid validation) then
    Rejected ("Invalid message structure: " ++ join ", " (errors validation))
  else Accepted (sanitizeMessagesForAPI messages).

End BuildMessages.

End Conversation.

(* ===================================================================== *)
(** * tools/project/manage_todos *)
(* ===================================================================== *)

Module ManageTodos.

Import JS.

(** [typeof v === 'string'] and [typeof v === 'boolean'] for a possibly
    [undefined] value. *)
Definition isString (o : option JSON) : bool :=
  match o with
  | Some (JStr _) => true
  | _ => false
  end.

Definition isBoolean (o : option JSON) : bool :=
  match o with
  | Some (JBool _) => true
  | _ => false
  end.

Definition fieldsText : string :=
  "Each todo must have a string " ++ String dquote ("task" ++ String dquote
  (" and boolean " ++ String dquote ("completed" ++ String dquote " field"))).

(** The loop [for (const todo of args.todos)]: [None] when it throws
    (reading a property of a todo that is [null]), else whether every todo
    passed the test. *)
Fixpoint checkTodos (todos : list JSON) : option bool :=
  match todos with
  | [] => Some true
  | todo :: rest =>
      match getProp todo "task" with
      | None => None
      | Some task0 =>
          if negb (isString task0) then Some false
          else
            match getProp todo "completed" with
            | None => None
            | Some completed0 =>
                if negb (isBoolean completed0) then Some false else checkTodos rest
            end
      end
  end.

Section Execute.

(** The message of the [TypeError] that reading the property [key] of
    [null] raises; it is engine text, so it is a parameter. *)
Variable typeErrorMessage : string -> string.

Definition failedText (key : string) : string :=
  "Failed to manage todos: " ++ typeErrorMessage key.

(** [executeManageTodos(args)] for decoded arguments. *)
Definition executeManageTodos (args : JSON) : string :=
  match getProp args "todos" with
  | None => stringifyObject [("error", LStr (failedText "todos"))]
  | Some (Some (JArr todos)) =>
      match checkTodos todos with
      | None => stringifyObject [("error", LStr (failedText "task"))]
      | Some false => stringifyObject [("error", LStr fieldsText)]
      | Some true =>
          stringifyObject [("success", LBool true);
                           ("count", LInt (Z.of_nat (List.length todos)))]
      end
  | Some _ => stringifyObject [("error", LStr "todos must be an array")]
  end.

End Execute.

End ManageTodos.

(* ===================================================================== *)
(** * tools/file/read_file *)
(* ===================================================================== *)

Module ReadFile.

Import JS.

(** [ReadFileArgs], as declared; an absent optional field is [None]. *)
Record ReadFileArgs : Type := mkArgs {
  file_path : string;
  offset : option Z;
  read_for_write : option bool
}.

Definition MAX_FILE_SIZE : Z := (256 * 1024)%Z.

Definition DEFAULT_LINE_LIMIT : Z := 300%Z.

(** An index of [a.slice(start, end)] brought into the array: a negative
    one counts from the end. *)
Definition sliceIndex (len : nat) (i : Z) : nat :=
  if (i <? 0)%Z then Z.to_nat (Z.max (Z.of_nat len + i) 0)
  else Nat.min (Z.to_nat i) len.

(** [a.slice(start, end)] *)
Definition slice {A : Type} (a : list A) (start final : Z) : list A :=
  let k := sliceIndex (List.length a) start in
  firstn (sliceIndex (List.length a) final - k) (skipn k a).

(** [content ? content.split('\n') : []] *)
Definition allLines (content : string) : list string :=
  if String.eqb content "" then [] else split "010"%char content.

Definition startLineOf (offset0 : Z) (totalLines : nat) : Z :=
  if (offset0 =? -1)%Z || (Z.of_nat totalLines <=? offset0)%Z
  then Z.max 0 (Z.of_nat totalLines - DEFAULT_LINE_LIMIT)
  else offset0.

Definition endLineOf (startLine : Z) (totalLines : nat) : Z :=
  Z.min (startLine + DEFAULT_LINE_LIMIT) (Z.of_nat totalLines).

(** What the [catch] of the function may catch: the error of a regular
    expression that cannot be built from a gitignore pattern, the error of
    [readFileSync] for a path, and the [TypeError] of an absent field. *)
Inductive Caught : Type :=
| PatternError
| ReadError (path : string)
| MissingField.

Section Execute.

Variable newRegExp : string -> option (string -> bool).
(** [fs.statSync(p).size] *)
Variable size : string -> Z.
(** The message of a caught error; it is engine text. *)
Variable caughtMessage : Caught -> string.

Definition failed (c : Caught) : string :=
  stringifyObject [("error", LStr ("Failed to read file: " ++ caughtMessage c))].

Definition executeReadFile (w : World) (args : ReadFileArgs) : string :=
  let offset0 := match offset args with Some o => o | None => 0%Z end in
  let readForWrite := match read_for_write args with Some b => b | None => false end in
  match PathValidator.validateFilePath newRegExp w (file_path args) "read files" false with
  | None => failed PatternError
  | Some validation =>
      if negb (PathValidator.valid validation) then
        match PathValidator.error validation with
        | Some e => stringifyObject [("error", LStr e)]
        | None => "{}"
        end
      else
        match PathValidator.absolutePath validation with
        | None => failed MissingField
        | Some absolutePath =>
            match readFileSync w absolutePath with
            | None => failed (ReadError absolutePath)
            | Some content =>
                let totalLines := List.length (allLines content) in
                if readForWrite then
                  match PathValidator.stats validation with
                  | None => failed MissingField
                  | Some _ =>
                      if (MAX_FILE_SIZE <=? size absolutePath)%Z then
                        stringifyObject
                          [("error",
                            LStr ("File too large for editing ("
                                  ++ intToString (size absolutePath) ++ " bytes, max "
                                  ++ intToString MAX_FILE_SIZE ++ " bytes)"));
                           ("file_path", LStr (file_path args));
                           ("size", LInt (size absolutePath));
                           ("total_lines", LInt (Z.of_nat totalLines))]
                      else
                        stringifyObject
                          [("file_path", LStr (file_path args));
                           ("content", LStr content);
                           ("size", LInt (size absolutePath));
                           ("total_lines", LInt (Z.of_nat totalLines));
                           ("read_for_write", LBool true)]
                  end
                else
                  let startLine := startLineOf offset0 totalLines in
                  let endLine := endLineOf startLine totalLines in
                  let selectedLines := slice (allLines content) startLine endLine in
                  let partialContent := join (String "010"%char EmptyString) selectedLines in
                  let partialSize := Z.of_nat (String.length partialContent) in
                  if (MAX_FILE_SIZE <=? partialSize)%Z then
                    stringifyObject
                      [("error",
                        LStr ("Content exceeds 256KB limit (" ++ intToString partialSize
                              ++ " bytes). Likely a minified file."));
                       ("file_path", LStr (file_path args));
                       ("total_lines", LInt (Z.of_nat totalLines));
                       ("attempted_lines", LInt (endLine - startLine))]
                  else
                    stringifyObject
                      [("file_path", LStr (file_path args));
                       ("content", LStr partialContent);
                       ("offset", LInt startLine);
                       ("lines_returned", LInt (endLine - startLine));
                       ("total_lines", LInt (Z.of_nat totalLines));
                       ("size", LInt partialSize)]
            end
        end
  end.

End Execute.

End ReadFile.

(* ===================================================================== *)
(** * tools/file/write_file and tools/file/delete_file *)
(* ===================================================================== *)

(** What a tool does to the file system. *)
Inductive FsEffect : Type :=
| Mkdir (path : string)                 (* [mkdirSync(path, { recursive: true })] *)
| WriteFile (path content : string)     (* [writeFileSync(path, content, 'utf-8')] *)
| Unlink (path : string).               (* [unlinkSync(path)] *)

(** What the [catch] of a file tool may catch: the error of a regular
    expression that cannot be built from a gitignore pattern, the error of
    an operation on the file system, the [TypeError] of an absent field,
    the [TypeError] of [path.resolve] on a value that is no string, and the
    error of a failed read. *)
Inductive CaughtError : Type :=
| PatternSyntax
| FsFailure (operation : FsEffect)
| AbsentField
| MistypedPath
| ReadFailure (path : string).

Module WriteFile.

Import JS.

Record WriteFileArgs : Type := mkArgs {
  file_path : string;
  content : string
}.

(** [path.dirname(p)] for an absolute normalized path. *)
Definition dirname (p : string) : string :=
  Path.render (removelast (Path.normalizeSegments false p)).

Section Execute.

Variable newRegExp : string -> option (string -> bool).
(** Whether an operation on the file system throws. *)
Variable throws : FsEffect -> bool.
(** The message of a caught error; it is engine text. *)
Variable caughtMessage : CaughtError -> string.

Definition failed (c : CaughtError) : string :=
  stringifyObject [("error", LStr ("Failed to write file: " ++ caughtMessage c))].

(** [ToolResponse.error(e!)] for an error text that may be absent. *)
Definition errorResponse (e : option string) : string :=
  match e with
  | Some text => stringifyObject [("error", LStr text)]
  | None => "{}"
  end.

(** The response and the operations carried out on the file system, in
    their order. *)
Definition executeWriteFile (w : World) (args : WriteFileArgs)
  : string * list FsEffect :=
  let pathCheck := PathValidator.validatePath w (file_path args) "write files" in
  if negb (PathValidator.valid pathCheck) then
    (errorResponse (PathValidator.error pathCheck), [])
  else
    match PathValidator.absolutePath pathCheck with
    | None => (failed AbsentField, [])
    | Some absolutePath =>
        if existsSync w absolutePath then
          (stringifyObject
             [("error", LStr ("File already exists: " ++ file_path args
                              ++ ". Use edit_file to modify existing files."))], [])
        else
          let eugentCheck :=
            PathValidator.blockEugentDirectory w absolutePath "write to" in
          if fst eugentCheck then (errorResponse (snd eugentCheck), [])
          else
            match PathValidator.checkGitignoreAccess newRegExp w absolutePath false
                    "write to" with
            | None => (failed PatternSyntax, [])
            | Some (false, e) => (errorResponse e, [])
            | Some (true, _) =>
                let parentDir := dirname absolutePath in
                let made := if negb (existsSync w parentDir) then [Mkdir parentDir]
                            else [] in
                if negb (existsSync w parentDir) && throws (Mkdir parentDir) then
                  (failed (FsFailure (Mkdir parentDir)), [])
                else if throws (WriteFile absolutePath (content args)) then
                  (failed (FsFailure (WriteFile absolutePath (content args))), made)
                else
                  (stringifyObject
                     [("file_path", LStr (file_path args));
                      ("size", LInt (Z.of_nat (String.length (content args))));
                      ("lines",
                       LInt (Z.of_nat (List.length (split "010"%char (content args)))))],
                   (made ++ [WriteFile absolutePath (content args)])%list)
            end
    end.

End Execute.

End WriteFile.

Module DeleteFile.

Import JS.

Record DeleteFileArgs : Type := mkArgs {
  file_path : string
}.

Section Execute.

Variable newRegExp : string -> option (string -> bool).
Variable throws : FsEffect -> bool.
Variable caughtMessage : CaughtError -> string.

Definition failed (c : CaughtError) : string :=
  stringifyObject [("error", LStr ("Failed to delete file: " ++ caughtMessage c))].

(** The response and the operations carried out on the file system. *)
Definition executeDeleteFile (w : World) (args : DeleteFileArgs)
  : string * list FsEffect :=
  match PathValidator.validateFilePath newRegExp w (file_path args) "delete files"
          false with
  | None => (failed PatternSyntax, [])
  | Some validation =>
      if negb (PathValidator.valid validation) then
        (WriteFile.errorResponse (PathValidator.error validation), [])
      else
        match PathValidator.absolutePath validation, PathValidator.stats validation with
        | Some absolutePath, Some stats0 =>
            if isDirectory stats0 then
              (stringifyObject
                 [("error", LStr ("Cannot delete directory: " ++ file_path args
                                  ++ ". Path is a directory, not a file."))], [])
            else
              let relativePath := Path.relative (cwd w) absolutePath in
              let gitignorePatterns := Gitignore.loadGitignorePatterns w (cwd w) in
              match Gitignore.matchesGitignorePattern newRegExp relativePath
                      gitignorePatterns with
              | None => (failed PatternSyntax, [])
              | Some isGitignored =>
                  if throws (Unlink absolutePath) then
                    (failed (FsFailure (Unlink absolutePath)), [])
                  else
                    (stringifyObject
                       [("file_path", LStr (file_path args));
                        ("deleted", LBool true);
                        ("was_gitignored", LBool isGitignored)],
                     [Unlink absolutePath])
              end
        | _, _ => (failed AbsentField, [])
        end
  end.

End Execute.

End DeleteFile.

(* ===================================================================== *)
(** * Platform: search and replacement in strings *)
(* ===================================================================== *)

Module StringSearch.

Import JS.

(** [s.indexOf(sub)]: the index of the first occurrence, [None] for [-1]. *)
Fixpoint indexOf (s sub : string) : option nat :=
  if String.prefix sub s then Some 0
  else match s with
       | EmptyString => None
       | String _ r => option_map S (indexOf r sub)
       end.

(** The parts of [s.split(sep)] for a separator that is not empty.  [skip]
    units of the separator just found are still to be passed; [cur] is the
    part being read. *)
Fixpoint splitParts (sep : string) (skip : nat) (cur : string) (s : string)
  : list string :=
  match s with
  | EmptyString => [cur]
  | String c r =>
      match skip with
      | S k => splitParts sep k cur r
      | O =>
          if String.prefix sep s
          then cur :: splitParts sep (String.length sep - 1) EmptyString r
          else splitParts sep 0 (cur ++ String c EmptyString) r
      end
  end.

(** [s.split(sep)] for a string separator; the empty separator splits into
    the single units. *)
Definition splitBy (sep s : string) : list string :=
  if String.eqb sep "" then map (fun c => String c EmptyString) (list_ascii_of_string s)
  else splitParts sep 0 EmptyString s.

(** The replacement text of [s.replace(pattern, template)] for a string
    pattern (GetSubstitution without captures): [$$] is a dollar sign,
    [$&] the matched text, [$`] the text before the match and [$'] the text
    after it; any other unit stands for itself. *)
Fixpoint substitution (matched before after : string) (template : string) : string :=
  match template with
  | EmptyString => EmptyString
  | String c r =>
      if Ascii.eqb c "$" then
        match r with
        | String d r' =>
            if Ascii.eqb d "$" then String "$" (substitution matched before after r')
            else if Ascii.eqb d "&" then matched ++ substitution matched before after r'
            else if Ascii.eqb d "`" then before ++ substitution matched before after r'
            else if Ascii.eqb d "'" then after ++ substitution matched before after r'
            else String c (substitution matched before after r)
        | EmptyString => String c EmptyString
        end
      else String c (substitution matched before after r)
  end.

(** [s.replace(pattern, template)] for a string pattern: the first
    occurrence is replaced. *)
Definition replaceFirst (s pattern template : string) : string :=
  match indexOf s pattern with
  | None => s
  | Some i =>
      let before := substring 0 i s in
      let after := substring (i + String.length pattern)
                     (String.length s - (i + String.length pattern)) s in
      before ++ substitution pattern before after template ++ after
  end.

End StringSearch.

(* ===================================================================== *)
(** * tools/file/edit_file *)
(* ===================================================================== *)

Module EditFile.

Import JS ToolCallValidator.

(** [EditFileArgs], as declared; an absent optional field is [None]. *)
Record EditFileArgs : Type := mkArgs {
  file_path : string;
  old_content : option string;
  new_content : option string;
  replace_full : option bool;
  full_content : option string
}.

(** [readFilePath === absolutePath], where [absolutePath] may be
    [undefined]. *)
Definition samePath (readFilePath : string) (absolutePath : option string) : bool :=
  match absolutePath with
  | Some a => String.eqb readFilePath a
  | None => false
  end.

(** [context.allToolCalls.some(..)] with the callback of the source;
    [None] when the callback throws: [call.args] is [null], or
    [call.args.file_path] is no string, which [path.resolve] refuses. *)
Fixpoint fileWasRead (cwd0 : string) (absolutePath : option string)
    (calls : list HistoryEntry) : option bool :=
  match calls with
  | [] => Some false
  | call :: rest =>
      if negb (String.eqb (entryName call) "read_file") then
        fileWasRead cwd0 absolutePath rest
      else
        match getProp (entryArgs call) "read_for_write" with
        | None => None
        | Some flag =>
            if negb (truthyOpt flag) then fileWasRead cwd0 absolutePath rest
            else
              match getProp (entryArgs call) "file_path" with
              | Some (Some (JStr p)) =>
                  if samePath (Path.resolve cwd0 p) absolutePath then Some true
                  else fileWasRead cwd0 absolutePath rest
              | _ => None
              end
        end
  end.

Section Execute.

Variable newRegExp : string -> option (string -> bool).
Variable throws : FsEffect -> bool.
Variable caughtMessage : CaughtError -> string.

Definition failed (c : CaughtError) : string :=
  stringifyObject [("error", LStr ("Failed to edit file: " ++ caughtMessage c))].

Definition errorText (text : string) : string :=
  stringifyObject [("error", LStr text)].

Definition linesOf (text : string) : Z :=
  Z.of_nat (List.length (split "010"%char text)).

(** [fileSystem.writeFileSync(absolutePath, text, 'utf-8')] followed by the
    success response of the given mode. *)
Definition writeAndReport (args : EditFileArgs) (absolutePath : option string)
    (mode text : string) : string * list FsEffect :=
  match absolutePath with
  | None => (failed AbsentField, [])
  | Some target =>
      if throws (WriteFile target text) then
        (failed (FsFailure (WriteFile target text)), [])
      else
        (stringifyObject
           [("file_path", LStr (file_path args));
            ("mode", LStr mode);
            ("size", LInt (Z.of_nat (String.length text)));
            ("lines", LInt (linesOf text))],
         [WriteFile target text])
  end.

(** [fileSystem.readFileSync(absolutePath, 'utf-8')]; the error caught
    when it throws. *)
Definition readCurrent (w : World) (absolutePath : option string)
  : CaughtError + string :=
  match absolutePath with
  | None => inl AbsentField
  | Some target =>
      match readFileSync w target with
      | None => inl (ReadFailure target)
      | Some text => inr text
      end
  end.

(** The response and the operations carried out on the file system;
    [context] is [None] when the function is called without one. *)
Definition executeEditFile (w : World) (args : EditFileArgs)
    (context : option ToolExecutor.ToolContext) : string * list FsEffect :=
  match PathValidator.validateFilePath newRegExp w (file_path args) "edit files" false with
  | None => (failed PatternSyntax, [])
  | Some validation =>
      if negb (PathValidator.valid validation) then
        (WriteFile.errorResponse (PathValidator.error validation), [])
      else
        let absolutePath := PathValidator.absolutePath validation in
        let calls := match context with
                     | Some c => ToolExecutor.ctxAllToolCalls c
                     | None => []
                     end in
        if (List.length calls =? 0)%nat then
          (errorText "Cannot edit file: No tool calls found in conversation. You must read the file with read_for_write=true before editing.", [])
        else
          match fileWasRead (cwd w) absolutePath calls with
          | None => (failed MistypedPath, [])
          | Some false =>
              (errorText ("Cannot edit file: " ++ String dquote (file_path args
                          ++ String dquote " has not been read with read_for_write=true in this conversation. You must read the file before editing it.")), [])
          | Some true =>
              if match replace_full args with Some b => b | None => false end then
                match full_content args with
                | None =>
                    (errorText "Invalid parameters: replace_full=true requires full_content to be provided.", [])
                | Some fullContent =>
                    if truthyStr (old_content args) || truthyStr (new_content args) then
                      (errorText "Invalid parameters: When replace_full=true, old_content and new_content must be empty.", [])
                    else writeAndReport args absolutePath "full_replace" fullContent
                end
              else
                match old_content args, new_content args with
                | Some oldContent, Some newContent =>
                    if truthyStr (full_content args) then
                      (errorText "Invalid parameters: full_content should only be used with replace_full=true.", [])
                    else
                      match readCurrent w absolutePath with
                      | inl caught => (failed caught, [])
                      | inr currentContent =>
                          if negb (includes currentContent oldContent) then
                            (errorText "Search string not found in file. Make sure old_content exactly matches the text you want to replace.", [])
                          else
                            let occurrences :=
                              (Z.of_nat (List.length
                                           (StringSearch.splitBy oldContent currentContent))
                               - 1)%Z in
                            if (1 <? occurrences)%Z then
                              (errorText ("Ambiguous replacement: old_content appears "
                                          ++ intToString occurrences
                                          ++ " times in the file. Please make old_content more specific to match exactly once."), [])
                            else
                              writeAndReport args absolutePath "search_replace"
                                (StringSearch.replaceFirst currentContent oldContent
                                   newContent)
                      end
                | _, _ =>
                    (errorText "Invalid parameters: Search/replace mode requires both old_content and new_content.", [])
                end
          end
  end.

End Execute.

End EditFile.

(* ===================================================================== *)
(** * tools/system/execute_command: the process tree *)
(* ===================================================================== *)

Module ProcessTree.

Import JS.

Section Walk.

(** The standard output of [pgrep -P pid] as [execAsync] delivers it;
    [None] when [execAsync] rejects (a non-zero exit status, which is what
    [pgrep] gives when it finds no child, or the timeout).  Each process
    id is asked for once at most, so that a function of the id covers every
    run. *)
Variable pgrep : Z -> option string.
(** [parseInt(text, 10)], an integer; [None] for [NaN]. *)
Variable parseInt : string -> option Z.

(** The process ids read from the output of [pgrep]. *)
Definition childrenOf (stdout : string) : list Z :=
  let lines := filter (fun line => (0 <? String.length line)%nat)
                 (map trim (split "010"%char stdout)) in
  flat_map (fun n => match n with Some pid => [pid] | None => [] end)
    (map parseInt lines).

(** [toProcess.pop()]: the last element, and the array that is left. *)
Definition pop (toProcess : list Z) : option (Z * list Z) :=
  match rev toProcess with
  | [] => None
  | currentPid :: others => Some (currentPid, rev others)
  end.

(** The loop of [findAllDescendants]; [descendants] is the set in the
    order of insertion.  [None]: the loop has not ended within [fuel]
    rounds. *)
Fixpoint walk (fuel : nat) (descendants toProcess : list Z) : option (list Z) :=
  match pop toProcess with
  | None => Some descendants
  | Some (currentPid, rest) =>
      match fuel with
      | O => None
      | S fuel' =>
          if existsb (Z.eqb currentPid) descendants then walk fuel' descendants rest
          else
            let descendants' := (descendants ++ [currentPid])%list in
            match pgrep currentPid with
            | Some stdout => walk fuel' descendants' (rest ++ childrenOf stdout)%list
            | None => walk fuel' descendants' rest
            end
      end
  end.

Definition findAllDescendants (fuel : nat) (pid : Z) : option (list Z) :=
  walk fuel [] [pid].

(** The process ids that [killProcessTree] sends [SIGKILL] to, in the order
    of the calls of [process.kill]; an error of [process.kill] is caught
    and the loop goes on. *)
Definition killProcessTree (fuel : nat) (pid : Z) : option (list Z) :=
  match findAllDescendants fuel pid with
  | Some allPids => Some (rev allPids)
  | None => None
  end.

End Walk.

End ProcessTree.

(* ===================================================================== *)
(** * Notions of the specification *)
(* ===================================================================== *)

(** Every unit of [s] satisfies [p]. *)
Fixpoint allUnits (p : ascii -> bool) (s : string) : bool :=
  match s with
  | EmptyString => true
  | String c r => p c && allUnits p r
  end.




(** The message announces the tool-call id. *)
Definition announces (m : Message) (id : string) : Prop :=
  role m = assistant /\ id <> "" /\ exists tc, In tc (announcedCalls m) /\ tcId tc = id.

(** The message is a tool response to the id. *)
Definition answers (m : Message) (id : string) : Prop :=
  role m = tool /\ toolCallId m = Some id.

(** Some assistant message announces the id and no later tool message
    answers it. *)
Definition Unanswered (messages : list Message) (id : string) : Prop :=
  exists before m after,
    messages = (before ++ m :: after)%list /\ announces m id
    /\ forall m', In m' after -> ~ answers m' id.

(** The ids that [validateMessages] holds as pending after its scan. *)
Definition unansweredIds (messages : list Message) : list string :=
  MessageValidation.pending
    (MessageValidation.scanMessages 0 None messages (MessageValidation.mkScan [] [] [])).

(** The errors that [validateMessages] raises on one message, and on the
    messages of a transcript, apart from the unanswered calls. *)
Definition messageErrors (i : nat) (prevMsg : option Message) (msg : Message)
  : list string :=
  MessageValidation.errs
    (MessageValidation.checkMessage i prevMsg msg (MessageValidation.mkScan [] [] [])).

Fixpoint transcriptErrors (i : nat) (prevMsg : option Message) (messages : list Message)
  : list string :=
  match messages with
  | [] => []
  | msg :: rest => messageErrors i prevMsg msg ++ transcriptErrors (S i) (Some msg) rest
  end.

(** The assistant message announces the id in a call that has a function
    name: the calls that [healOrphanedToolCalls] tracks. *)
Definition announcesNamed (m : Message) (id : string) : Prop :=
  role m = assistant
  /\ exists tc, In tc (announcedCalls m) /\ tcId tc = id /\ id <> "" /\ tcName tc <> "".

(** [blocks i] woven in after the message at index [i], for every index
    from [i] on. *)
Fixpoint weave (blocks : nat -> list Message) (i : nat) (messages : list Message)
  : list Message :=
  match messages with
  | [] => []
  | m :: rest => m :: blocks i ++ weave blocks (S i) rest
  end.

(** The responses that healing inserts after the message at [index], from
    the pending calls. *)
Definition orphanBlock (p : MessageValidation.Pending) (index : nat) : list Message :=
  map (fun e => MessageValidation.orphanResponse (fst e, fst (snd e)))
      (filter (fun e => Nat.eqb (snd (snd e)) index) p).

(** Boolean forms of [answers] and [announcesNamed], as the healer tests
    them. *)
Definition answersB (m : Message) (id : string) : bool :=
  isRole (role m) tool && JS.truthyStr (toolCallId m)
  && match toolCallId m with Some id' => String.eqb id' id | None => false end.

Definition tracksCall (id : string) (tc : ToolCall) : bool :=
  negb (String.eqb (tcId tc) "") && negb (String.eqb (tcName tc) "")
  && String.eqb (tcId tc) id.

Definition announcesNamedB (m : Message) (id : string) : bool :=
  isRole (role m) assistant && existsb (tracksCall id) (announcedCalls m).

(** Whether an id is pending after a message, given whether it was
    before. *)
Definition stepPending (id : string) (b : bool) (m : Message) : bool :=
  if answersB m id then false else if announcesNamedB m id then true else b.

(** A component of a normalized path: not empty, not a dot or two, and
    without a separator. *)
Definition plainSegment (s : string) : bool :=
  negb (String.eqb s "") && negb (String.eqb s ".") && negb (String.eqb s "..")
  && allUnits (fun c => negb (Ascii.eqb c "/")) s.

(** The components of an absolute normalized path, as [process.cwd()]
    returns one. *)
Definition plainSegments (segs : list string) : bool := forallb plainSegment segs.

(** The components of [root] are the first components of [p]. *)
Fixpoint segmentsPrefix (root p : list string) : bool :=
  match root, p with
  | [], _ => true
  | r :: root', x :: p' => String.eqb r x && segmentsPrefix root' p'
  | _ :: _, [] => false
  end.

(** The absolute path [p] lies in the directory [root] or is it. *)
Definition insideRoot (root p : string) : bool :=
  segmentsPrefix (Path.normalizeSegments false root) (Path.normalizeSegments false p).

(** The world of the counterexample of C5: the root is [/etc], where a
    file [passwd] exists and there is no [.gitignore]. *)
Definition etcWorld : World :=
  mkWorld "/etc"
    (fun p => if String.eqb p "/etc/passwd" then Some (mkStats true false) else None)
    (fun _ => None).

(** The world of the witness of C5: the root is [/a/proj], with the file
    [sub/f.txt] and no [.gitignore]. *)
Definition projectWorld : World :=
  mkWorld "/a/proj"
    (fun p => if String.eqb p "/a/proj/sub/f.txt" then Some (mkStats true false) else None)
    (fun _ => None).

(** A string between quotation marks. *)
Definition quoted (s : string) : string := String JS.dquote (s ++ String JS.dquote "").

(** A temporary directory as in pathValidator.test. *)
Definition testDir : World :=
  mkWorld "/tmp/eugent-test-x1"
    (fun p =>
       if existsb (String.eqb p)
            ["/tmp/eugent-test-x1/test.txt"; "/tmp/eugent-test-x1/subdir/nested.txt";
             "/tmp/eugent-test-x1/.eugent/config.json";
             "/tmp/eugent-test-x1/my.eugent.backup.txt"]
       then Some (mkStats true false)
       else if existsb (String.eqb p)
                 ["/tmp/eugent-test-x1"; "/tmp/eugent-test-x1/subdir";
                  "/tmp/eugent-test-x1/.eugent"]
       then Some (mkStats false true)
       else None)
    (fun _ => None).

(** ** The output of a command *)




(** ** Todos *)

(** A todo as [manage_todos] wants it: an object with a string [task] and
    a boolean [completed]. *)
Definition wellFormedTodo (todo : JS.JSON) : bool :=
  match todo with
  | JS.JObj members =>
      ManageTodos.isString (JS.lookupMember "task" members)
      && ManageTodos.isBoolean (JS.lookupMember "completed" members)
  | _ => false
  end.

(** ** A project with notes *)

(** A working directory [/a/proj] with the single file [notes.txt]. *)
Definition notesWorld (text : string) : World :=
  mkWorld "/a/proj"
    (fun p => if String.eqb p "/a/proj/notes.txt" then Some (mkStats true false) else None)
    (fun p => if String.eqb p "/a/proj/notes.txt" then Some text else None).

(** The context of a conversation in which [notes.txt] was read for
    writing. *)
Definition notesRead : ToolExecutor.ToolContext :=
  ToolExecutor.mkContext
    [ToolCallValidator.mkEntry "read_file"
       (JS.JObj [("file_path", JS.JStr "notes.txt"); ("read_for_write", JS.JBool true)])]
    None false.

(** ** Process trees *)

(** The children of a process as [pgrep] reports them: none when the
    command fails. *)
Definition reportedChildren (pgrep : Z -> option string)
    (parseInt : string -> option Z) (pid : Z) : list Z :=
  match pgrep pid with
  | Some stdout => ProcessTree.childrenOf parseInt stdout
  | None => []
  end.

(** A process 100 with the children 101 and 102, and 103 below 101. *)
Definition sampleTree (pid : Z) : option string :=
  if (pid =? 100)%Z then Some "101
102
"
  else if (pid =? 101)%Z then Some "103
"
  else None.

(** Decimal process ids. *)
Definition decimalPid (text : string) : option Z :=
  if String.eqb text "" then None
  else match NilEmpty.uint_of_string text with
       | Some digits => Some (Z.of_nat (Nat.of_uint digits))
       | None => None
       end.

(** ** The scenario of an abort after a denial *)

Module AbortScenario.

Import JS.

(** No tool is allowed without consent, and the user denies. *)
Definition executeToolCall :=
  ToolExecutor.executeToolCall (fun _ => "Unexpected token") []
    (fun _ _ => false)
    (fun _ _ _ => stringifyObject [("success", LBool true)]).

(** The signal is set while the first permission request is open: the
    loop reads it as set from the first executed call on, and every tool
    would be dispatched with it set. *)
Definition signalAt (executed : nat) : bool := (0 <? executed)%nat.

Definition signalAtDispatch (executed : nat) : bool := true.

Definition deleteCall : ToolCall :=
  mkToolCall "call-1" "delete_file" (stringifyObject [("file_path", LStr "old.txt")]).

Definition writeCall : ToolCall :=
  mkToolCall "call-2" "write_file" (stringifyObject [("file_path", LStr "new.txt")]).

Definition deniedResponse : Message :=
  toolResponse "delete_file"
    (stringifyObject [("error", LStr "Permission denied by user. STOP IMMEDIATELY.")])
    "call-1" (JObj [("file_path", JStr "old.txt")]).

End AbortScenario.

(* ===================================================================== *)
(** * Notions of the proofs *)
(* ===================================================================== *)

Module ProofNotions.

Import JS MessageValidation.


(** The errors that [validateMessages] raises on one tool call. *)
Definition callErrors (i : nat) (toolCall : ToolCall) : list string :=
  errs (checkToolCall i (mkScan [] [] []) toolCall).

(** Strictly descending. *)
Definition descending (l : list nat) : Prop := StronglySorted (fun a b => b < a) l.

(** The orphans recorded for the index [k], as [{ id, name }]. *)
Definition strip (k : nat) (p : Pending) : list (string * string) :=
  map (fun e => (fst e, fst (snd e))) (filter (fun e => Nat.eqb (snd (snd e)) k) p).

(** The option holds a value. *)
Definition isSome {A : Type} (o : option A) : bool :=
  match o with Some _ => true | None => false end.

(** No message of the list announces or answers the id. *)
Definition quiet (id : string) (messages : list Message) : Prop :=
  forall b, fold_left (stepPending id) messages b = b.

(** The keys of the map are distinct and not empty, and its indices are
    below [i]. *)
Definition wellKeyed (i : nat) (p : Pending) : Prop :=
  NoDup (map fst p) /\ forall e, In e p -> fst e <> "" /\ snd (snd e) < i.

(** The map records the id with the index [k]. *)
Definition blockHas (id : string) (k : nat) (p : Pending) : bool :=
  existsb (fun e => String.eqb (fst e) id && Nat.eqb (snd (snd e)) k) p.

(** The string has no separator. *)
Definition noSlash (s : string) : bool := allUnits (fun c => negb (Ascii.eqb c "/")) s.

(** The text of the components, each with the separator before it. *)
Fixpoint slashed (segs : list string) : string :=
  match segs with
  | [] => ""
  | s :: rest => "/" ++ s ++ slashed rest
  end.

(** A text that is empty or begins with the separator. *)
Definition atBoundary (t : string) : Prop := t = "" \/ exists t', t = String "/" t'.

(** The decoded form of a value of a flat object literal. *)
Definition litJSON (v : Lit) : JSON :=
  match v with
  | LStr s => JStr s
  | LBool b => JBool b
  | LInt z => JNum z 0
  end.

(** The text of one member of a serialized object, and of the members
    after the first together with the closing brace. *)
Definition memberText (kv : string * Lit) : string :=
  quote (fst kv) ++ ":" ++ stringifyLit (snd kv).

Fixpoint tailText (fields : list (string * Lit)) : string :=
  match fields with
  | [] => "}"
  | kv :: rest => "," ++ memberText kv ++ tailText rest
  end.

(** What may follow a value inside an object: a comma or the closing
    brace. *)
Definition endsValue (rest : string) : Prop :=
  exists r, rest = String "," r \/ rest = String "}" r.

(** The rounds of the walk that the processes of [U] not yet in the set
    [D] can still cause: one for the process and one for each child. *)
Definition weight (children : Z -> list Z) (D U : list Z) : nat :=
  list_sum (map (fun u => if existsb (Z.eqb u) D then 0 else S (List.length (children u))) U).

End ProofNotions.

(* ===================================================================== *)
(** * The unit tests of the repository, replayed on the embedding *)
(* ===================================================================== *)

Module RepositoryTests.

Import JS ToolCallValidator.

(** toolCallValidator.test: valid and invalid tool names *)
Example test_tool_names :
  map (fun n => valid (validateToolName n "call-123"))
      ["read_file"; "my-custom-tool"; "web.fetch"; "tool123";
       "list_files()"; "bad..tool"; "../etc/passwd"; "tool$injection"; "read file"; ""]
  = [true; true; true; true; false; false; false; false; false; false].
Proof. vm_compute. reflexivity. Qed.

(** toolCallValidator.test: valid JSON *)
Example test_parse_valid :
  map (fun text => parsedArgs (parseToolArguments (fun _ => "") "tool" text "call-123"))
      ["{" ++ quoted "file_path" ++ ": " ++ quoted "test.txt" ++ "}";
       "{" ++ quoted "config" ++ ": {" ++ quoted "enabled" ++ ": true, " ++ quoted "count" ++ ": 42}}";
       "{}";
       "{" ++ quoted "items" ++ ": [1, 2, 3]}";
       "{" ++ quoted "value" ++ ": null}"]
  = [Some (JObj [("file_path", JStr "test.txt")]);
     Some (JObj [("config", JObj [("enabled", JBool true); ("count", JNum 42 0)])]);
     Some (JObj []);
     Some (JObj [("items", JArr [JNum 1 0; JNum 2 0; JNum 3 0])]);
     Some (JObj [("value", JNull)])].
Proof. vm_compute. reflexivity. Qed.

(** toolCallValidator.test: invalid JSON *)
Example test_parse_invalid :
  map (fun text => valid (parseToolArguments (fun _ => "") "tool" text "call-123"))
      ["{" ++ quoted "file_path" ++ ": " ++ quoted "test.txt";
       "{" ++ quoted "key" ++ ": " ++ quoted "value" ++ ",}";
       "undefined"; ""; "{broken"]
  = [false; false; false; false; false].
Proof. vm_compute. reflexivity. Qed.

(** toolCallValidator.test: the history of successful calls *)
Example test_history_excludes_errors :
  map (fun payload =>
         allToolCalls (extractToolCallHistory
                         [toolResponse "bad_tool" (stringifyObject payload) "call-1" (JObj [])]))
      [[("error", LStr "Failed")]; [("error", LStr "")]; [("error", LInt 0)]]
  = [[]; []; []]
  /\ allToolCalls (extractToolCallHistory
                     [toolResponse "bad_tool" ("{" ++ quoted "error" ++ ":null}") "call-1" (JObj [])])
     = []
  /\ map entryName
       (allToolCalls
          (extractToolCallHistory
             [toolResponse "first" (stringifyObject [("ok", LBool true)]) "call-1" (JObj []);
              toolResponse "second" (stringifyObject [("error", LStr "failed")]) "call-2" (JObj []);
              toolResponse "third" (stringifyObject [("ok", LBool true)]) "call-3" (JObj [])]))
     = ["first"; "third"]
  /\ extractToolCallHistory
       [toolResponse "read_file" "{invalid json" "call-1" (JObj []);
        toolResponse "read_file" "" "call-1" (JObj []);
        mkMessage tool (Some (stringifyObject [("data", LStr "test")])) None
          (Some "read_file") (Some "call-1") None;
        userText "Hello"; assistantText "Hi there"]
     = mkHistory [] None.
Proof. repeat split; vm_compute; reflexivity. Qed.

(** pathValidator.test: validatePath *)
Example test_validatePath :
  map (fun p => PathValidator.valid (PathValidator.validatePath testDir p "read"))
      ["test.txt"; "./test.txt"; "subdir/nested.txt";
       "../etc/passwd"; "/etc/passwd"; "subdir/../../etc/passwd"]
  = [true; true; true; false; false; false]
  /\ PathValidator.absolutePath (PathValidator.validatePath testDir "subdir/nested.txt" "read")
     = Some "/tmp/eugent-test-x1/subdir/nested.txt".
Proof. split; vm_compute; reflexivity. Qed.

(** pathValidator.test: blockEugentDirectory and validateResourceType *)
Example test_block_and_resource :
  map (fun p => fst (PathValidator.blockEugentDirectory testDir p "read"))
      ["/tmp/eugent-test-x1/.eugent"; "/tmp/eugent-test-x1/.eugent/config.json";
       "/tmp/eugent-test-x1/subdir"; "/tmp/eugent-test-x1/my.eugent.backup.txt"]
  = [true; true; false; false]
  /\ map (fun c => PathValidator.valid
                     (PathValidator.validateResourceType testDir (fst (fst c)) (snd (fst c))
                        (snd c)))
       [("/tmp/eugent-test-x1/test.txt", PathValidator.file, "test.txt");
        ("/tmp/eugent-test-x1/subdir", PathValidator.directory, "subdir");
        ("/tmp/eugent-test-x1/nonexistent.txt", PathValidator.file, "nonexistent.txt");
        ("/tmp/eugent-test-x1/subdir", PathValidator.file, "subdir");
        ("/tmp/eugent-test-x1/test.txt", PathValidator.directory, "test.txt")]
     = [true; true; false; false; false].
Proof. split; vm_compute; reflexivity. Qed.

(** pathValidator.test: validateFilePath and validateDirectoryPath *)
Example test_composed_validators :
  map (fun p => option_map PathValidator.valid
                  (PathValidator.validateFilePath (fun _ => None) testDir p "read" false))
      ["test.txt"; "../etc/passwd"; ".eugent/config.json"; "nonexistent.txt"; "subdir"; ""]
  = [Some true; Some false; Some false; Some false; Some false; Some false]
  /\ map (fun p => option_map PathValidator.error
                     (PathValidator.validateFilePath (fun _ => None) testDir p "read" false))
       [".eugent/config.json"; "nonexistent.txt"; "subdir"]
     = [Some (Some "Access denied: Cannot read .eugent configuration directory");
        Some (Some "File not found: nonexistent.txt");
        Some (Some "Path is not a file: subdir")]
  /\ map (fun p => option_map PathValidator.valid
                     (PathValidator.validateDirectoryPath (fun _ => None) testDir p "list" false))
       ["subdir"; ".eugent"; "nonexistent"; "test.txt"]
     = [Some true; Some false; Some false; Some false].
Proof. repeat split; vm_compute; reflexivity. Qed.

End RepositoryTests.

(* ===================================================================== *)
(** * Facts about strings *)
(* ===================================================================== *)

Lemma append_nil_r (s : string) : s ++ "" = s.
Proof. induction s; simpl; congruence. Qed.

Lemma append_assoc (a b c : string) : (a ++ b) ++ c = a ++ (b ++ c).
Proof. induction a; simpl; congruence. Qed.

Lemma append_eq_nil (s t : string) : s ++ t = "" -> s = "" /\ t = "".
Proof. destruct s; simpl; [auto | discriminate]. Qed.


(* ===================================================================== *)
(** * The matcher decides the language of a pattern *)
(* ===================================================================== *)

Module RegexFacts.

Import Regex.





End RegexFacts.

(* ===================================================================== *)
(** * Tool names *)
(* ===================================================================== *)

Module ToolNameFacts.

Import ProofNotions.

Import Regex RegexFacts JS ToolCallValidator.


Lemma prefix_cons (a b : ascii) (s t : string) :
  String.prefix (String a s) (String b t) = Ascii.eqb a b && String.prefix s t.
Proof.
  simpl. destruct (ascii_dec a b) as [->|Hne].
  - now rewrite Ascii.eqb_refl.
  - apply Ascii.eqb_neq in Hne. now rewrite Hne.
Qed.










End ToolNameFacts.


(* ===================================================================== *)
(** * Decoding of tool arguments *)
(* ===================================================================== *)

Module ParseFacts.

Import JS ToolCallValidator.




End ParseFacts.



(* ===================================================================== *)
(** * The error key of a tool result *)
(* ===================================================================== *)

Module ErrorKeyFacts.

Import JS ToolCallValidator.

Lemma lookupMember_present (k : string) (ms : list (string * JSON)) :
  In k (map fst ms) -> exists v, lookupMember k ms = Some v.
Proof.
  induction ms as [|[k' v] rest IH]; simpl; [tauto|].
  intros [->|Hin].
  - destruct (lookupMember k rest); [eauto|]. rewrite String.eqb_refl. eauto.
  - destruct (IH Hin) as [w ->]. eauto.
Qed.

(** A tool message whose decoded content has the key [error] pushes no
    entry. *)
Lemma successfulCall_error_key (msg : Message) (text : string)
    (members : list (string * JSON)) :
  content msg = Some text ->
  parse text = Some (JObj members) ->
  In "error" (map fst members) ->
  successfulCall msg = None.
Proof.
  intros Hc Hp Hin. unfold successfulCall. rewrite Hc, Hp.
  destruct (lookupMember_present _ _ Hin) as [v Hv].
  simpl. rewrite Hv.
  destruct (role msg); try reflexivity.
  destruct (toolArgs msg); try reflexivity.
  destruct (truthy j); try reflexivity.
  destruct (negb _); reflexivity.
Qed.

Lemma extractLoop_app (a b : list Message) (acc : ToolCallHistory) :
  extractLoop (a ++ b) acc = extractLoop b (extractLoop a acc).
Proof.
  revert acc. induction a as [|m a IH]; intros acc; simpl; [reflexivity|].
  destruct (successfulCall m); apply IH.
Qed.


End ErrorKeyFacts.


(** The same through [executeToolCall]: a [manage_todos] tool that answers
    with the error 0 has its todos applied. *)
Lemma executeToolCall_applies_todos_on_zero_error :
  let executeTool := fun (_ : string) (_ : JS.JSON) (_ : ToolExecutor.ToolContext) =>
                       JS.stringifyObject [("error", JS.LInt 0)] in
  option_map snd
    (ToolExecutor.executeToolCall (fun _ => "Unexpected token") ["manage_todos"]
       (fun _ _ => true) executeTool
       (mkToolCall "call-1" "manage_todos"
          (JS.stringifyObject [("todos", JS.LInt 7)]))
       [] false (JS.JArr []))
  = Some (JS.JNum 7 0).
Proof. vm_compute. reflexivity. Qed.

(* ===================================================================== *)
(** * Command pre-abort *)
(* ===================================================================== *)

Module CommandFacts.

Import ExecuteCommand.

Lemma settle_settled (v old : string) (s : Invocation) :
  settled s = Some old -> settled (settle v s) = Some old.
Proof. intros H. unfold settle. cbn [settled]. now rewrite H. Qed.

(** A resolved promise keeps its value whatever happens afterwards. *)
Lemma handle_settled (cmd : string) (s : Invocation) (e : Event) (v : string) :
  settled s = Some v -> settled (handle cmd s e) = Some v.
Proof.
  intros H. destruct e; cbn [handle].
  - unfold abortHandler. destruct (childPid (setKilled s)); exact H.
  - destruct (killed s && negb (resolved s)); [now apply settle_settled | exact H].
  - destruct (childPid (setKilled s)); exact H.
  - match goal with |- context [if ?c then _ else _] => destruct c end; exact H.
  - match goal with |- context [if ?c then _ else _] => destruct c end; exact H.
  - assert (H1 : settled (clearTimer s) = Some v)
      by (unfold clearTimer; destruct (timeoutHandle s); exact H).
    destruct (resolved (clearTimer s)); [exact H1|].
    destruct (killed (clearTimer s)); now apply settle_settled.
  - assert (H1 : settled (clearTimer s) = Some v)
      by (unfold clearTimer; destruct (timeoutHandle s); exact H).
    destruct (resolved (clearTimer s)); [exact H1 | now apply settle_settled].
Qed.

Lemma run_settled (cmd : string) (events : list Event) :
  forall s v, settled s = Some v -> settled (fold_left (handle cmd) events s) = Some v.
Proof.
  induction events as [|e events IH]; intros s v H; [exact H|].
  cbn [fold_left]. apply IH. now apply handle_settled.
Qed.

(** No handler spawns a process. *)
Lemma handle_spawned (cmd : string) (s : Invocation) (e : Event) :
  spawned (handle cmd s e) = spawned s.
Proof.
  destruct e; cbn [handle].
  - unfold abortHandler. destruct (childPid (setKilled s)); reflexivity.
  - destruct (killed s && negb (resolved s)); reflexivity.
  - destruct (childPid (setKilled s)); reflexivity.
  - match goal with |- context [if ?c then _ else _] => destruct c end; reflexivity.
  - match goal with |- context [if ?c then _ else _] => destruct c end; reflexivity.
  - assert (H1 : spawned (clearTimer s) = spawned s)
      by (unfold clearTimer; destruct (timeoutHandle s); reflexivity).
    destruct (resolved (clearTimer s)); [exact H1|].
    destruct (killed (clearTimer s)); exact H1.
  - assert (H1 : spawned (clearTimer s) = spawned s)
      by (unfold clearTimer; destruct (timeoutHandle s); reflexivity).
    destruct (resolved (clearTimer s)); exact H1.
Qed.

Lemma run_spawned (cmd : string) (events : list Event) :
  forall s, spawned (fold_left (handle cmd) events s) = spawned s.
Proof.
  induction events as [|e events IH]; intros s; [reflexivity|].
  cbn [fold_left]. now rewrite IH, handle_spawned.
Qed.

End CommandFacts.

(** C10.  With the signal already aborted, [executeExecuteCommand] resolves
    at once to the aborted payload, which echoes the command and has empty
    output buffers, and it has no effect on the outside: no process is
    spawned, no listener or timer is set; whatever is delivered afterwards
    changes neither the outcome nor that.  (Without the abort, the first
    effect is the spawn and nothing is resolved yet.) *)
Theorem executeExecuteCommand_pre_aborted :
  forall (args : ExecuteCommand.ExecuteCommandArgs) (pid : option nat),
    let s := ExecuteCommand.executeExecuteCommand args (Some true) pid in
    let payload := JS.stringifyObject
                     [("error", JS.LStr ExecuteCommand.abortedBeforeText);
                      ("aborted", JS.LBool true);
                      ("command", JS.LStr (ExecuteCommand.command args));
                      ("stdout", JS.LStr ""); ("stderr", JS.LStr "")] in
    ExecuteCommand.settled s = Some payload
    /\ ExecuteCommand.resolved s = true
    /\ ExecuteCommand.effects s = []
    /\ ExecuteCommand.spawned s = false
    /\ ExecuteCommand.childPid s = None
    /\ (forall events,
          ExecuteCommand.settled (ExecuteCommand.run args (Some true) pid events)
          = Some payload
          /\ ExecuteCommand.spawned (ExecuteCommand.run args (Some true) pid events) = false)
    /\ (forall signal, signal <> Some true ->
          ExecuteCommand.spawned (ExecuteCommand.executeExecuteCommand args signal pid) = true
          /\ ExecuteCommand.settled (ExecuteCommand.executeExecuteCommand args signal pid) = None).
Proof.
  intros args pid s payload. subst s payload.
  split; [reflexivity|]. split; [reflexivity|]. split; [reflexivity|].
  split; [reflexivity|]. split; [reflexivity|]. split.
  - intros events. unfold ExecuteCommand.run. split.
    + now apply CommandFacts.run_settled.
    + now rewrite CommandFacts.run_spawned.
  - intros signal Hsignal.
    destruct signal as [[|]|]; [congruence| |];
      unfold ExecuteCommand.executeExecuteCommand;
      destruct (0 <? _)%Z; split; reflexivity.
Qed.

(** The payload of a pre-aborted [npm test], decoded. *)
Example pre_aborted_payload_decoded :
  option_map JS.parse
    (ExecuteCommand.settled
       (ExecuteCommand.executeExecuteCommand (ExecuteCommand.mkArgs "npm test" None)
          (Some true) (Some 4242)))
  = Some (Some (JS.JObj [("error", JS.JStr ExecuteCommand.abortedBeforeText);
                         ("aborted", JS.JBool true); ("command", JS.JStr "npm test");
                         ("stdout", JS.JStr ""); ("stderr", JS.JStr "")])).
Proof. vm_compute. reflexivity. Qed.

(* ===================================================================== *)
(** * Uniqueness of tool-call ids is not checked *)
(* ===================================================================== *)

(** C7 (counterexample).  An assistant message announces the id [call-1]
    twice, one tool message answers it, and [validateMessages] reports no
    error. *)
Lemma validateMessages_accepts_repeated_id :
  MessageValidation.validateMessages
    [userText "list the files";
     assistantCalls "" [mkToolCall "call-1" "list_files" "{}";
                        mkToolCall "call-1" "read_file" "{}"];
     toolResponse "list_files" "{}" "call-1" (JS.JObj [])]
  = MessageValidation.mkValidation true [] [].
Proof. vm_compute. reflexivity. Qed.

Module UniqueIdFacts.

Import JS MessageValidation.

Lemma setHas_refl (x : string) (s : list string) : setHas x (s ++ [x]) = true.
Proof.
  unfold setHas. rewrite existsb_app. simpl. rewrite String.eqb_refl.
  now rewrite orb_true_r.
Qed.

Lemma setAdd_idempotent (x : string) (s : list string) :
  setAdd x (setAdd x s) = setAdd x s.
Proof.
  unfold setAdd. destruct (setHas x s) eqn:H; cbv iota.
  - now rewrite H.
  - now rewrite setHas_refl.
Qed.

End UniqueIdFacts.

(** C7 (amended).  [validateMessages] requires of a tool call an id and a
    function name and nothing about other calls: ids are collected in a set,
    where announcing an id again changes nothing, so that a transcript in
    which an assistant message announces one id twice and a tool message
    answers it has no error. *)
Theorem validateMessages_repeated_id_valid :
  forall (id name1 name2 args1 args2 text toolName result : string) (toolArgs0 : JS.JSON),
    id <> "" -> name1 <> "" -> name2 <> "" -> toolName <> "" ->
    (forall pendingIds, MessageValidation.setAdd id (MessageValidation.setAdd id pendingIds)
                        = MessageValidation.setAdd id pendingIds)
    /\ MessageValidation.validateMessages
         [assistantCalls text [mkToolCall id name1 args1; mkToolCall id name2 args2];
          toolResponse toolName result id toolArgs0]
       = MessageValidation.mkValidation true [] [].
Proof.
  intros id name1 name2 args1 args2 text toolName result toolArgs0 Hid H1 H2 Ht.
  split; [intros; apply UniqueIdFacts.setAdd_idempotent|].
  assert (Hcall : forall i st nm a,
             nm <> "" ->
             MessageValidation.checkToolCall i st (mkToolCall id nm a)
             = MessageValidation.mkScan
                 (MessageValidation.setAdd id (MessageValidation.pending st))
                 (MessageValidation.errs st) (MessageValidation.warns st)).
  { intros i st nm a Hnm. unfold MessageValidation.checkToolCall. cbn [tcId tcName].
    apply String.eqb_neq in Hid, Hnm. now rewrite Hid, Hnm. }
  unfold MessageValidation.validateMessages, MessageValidation.scanMessages,
    MessageValidation.checkMessage.
  cbn [role assistantCalls toolResponse announcedCalls toolCalls fold_left name toolCallId].
  rewrite !Hcall by assumption.
  cbn [MessageValidation.pending MessageValidation.errs MessageValidation.warns].
  rewrite UniqueIdFacts.setAdd_idempotent.
  apply String.eqb_neq in Hid, Ht.
  unfold JS.truthyStr, MessageValidation.setAdd, MessageValidation.setHas,
    MessageValidation.setDelete.
  cbn [existsb app filter]. rewrite Ht, Hid.
  cbn [negb existsb MessageValidation.pending MessageValidation.errs MessageValidation.warns].
  rewrite String.eqb_refl. cbn [orb negb filter MessageValidation.pending
    MessageValidation.errs MessageValidation.warns].
  rewrite String.eqb_refl. reflexivity.
Qed.

(** A witness of the amended C7. *)
Lemma validateMessages_repeated_id_valid_witness :
  MessageValidation.validateMessages
    [assistantCalls "" [mkToolCall "call-1" "list_files" "{}";
                        mkToolCall "call-1" "read_file" "{}"];
     toolResponse "list_files" "{}" "call-1" (JS.JObj [])]
  = MessageValidation.mkValidation true [] [].
Proof.
  apply (validateMessages_repeated_id_valid "call-1" "list_files" "read_file" "{}" "{}" ""
           "list_files" "{}" (JS.JObj [])); discriminate.
Defined.

(* ===================================================================== *)
(** * Unanswered tool calls *)
(* ===================================================================== *)

Module ValidationFacts.

Import ProofNotions.

Import JS MessageValidation.

Lemma setHas_In (x : string) (s : list string) : setHas x s = true <-> In x s.
Proof.
  unfold setHas. rewrite existsb_exists. split.
  - intros [y [Hy He]]. apply String.eqb_eq in He. now subst.
  - intros H. exists x. split; [assumption | apply String.eqb_refl].
Qed.

Lemma setAdd_In (x y : string) (s : list string) :
  In y (setAdd x s) <-> y = x \/ In y s.
Proof.
  unfold setAdd. destruct (setHas x s) eqn:H.
  - apply setHas_In in H. split; [auto | intros [->|?]; auto].
  - rewrite in_app_iff. simpl. split; intros [?|?]; auto.
    + destruct H0; [auto | contradiction].
Qed.

Lemma setDelete_In (x y : string) (s : list string) :
  In y (setDelete x s) <-> In y s /\ y <> x.
Proof.
  unfold setDelete. rewrite filter_In, negb_true_iff, String.eqb_neq. tauto.
Qed.

(** *** Errors do not depend on the pending set *)

Lemma checkToolCall_errs (i : nat) (st : Scan) (toolCall : ToolCall) :
  errs (checkToolCall i st toolCall) = (errs st ++ callErrors i toolCall)%list.
Proof.
  unfold callErrors, checkToolCall, pushError.
  destruct (tcId toolCall =? ""), (tcName toolCall =? ""); simpl;
    rewrite ?app_nil_r, <- ?app_assoc; reflexivity.
Qed.

Lemma fold_checkToolCall_errs (i : nat) (calls : list ToolCall) (st : Scan) :
  errs (fold_left (checkToolCall i) calls st)
  = (errs st ++ flat_map (callErrors i) calls)%list.
Proof.
  revert st. induction calls as [|tc calls IH]; intros st; simpl.
  - now rewrite app_nil_r.
  - now rewrite IH, checkToolCall_errs, app_assoc.
Qed.

Lemma checkMessage_errs (i : nat) (prevMsg : option Message) (msg : Message) (st : Scan) :
  errs (checkMessage i prevMsg msg st) = (errs st ++ messageErrors i prevMsg msg)%list.
Proof.
  unfold messageErrors, checkMessage.
  destruct (role msg) as [| | | |r].
  - destruct ((0 <? i)%nat && negb (prevRoleIs prevMsg system));
      destruct (negb (truthyStr (content msg))); simpl;
      rewrite ?app_nil_r; reflexivity.
  - destruct (negb (truthyStr (content msg)) || _);
      destruct (prevRoleIs prevMsg user); simpl;
      rewrite ?app_nil_r, <- ?app_assoc; reflexivity.
  - now rewrite !fold_checkToolCall_errs.
  - destruct (negb (truthyStr (name msg)));
      destruct (toolCallId msg) as [id|]; simpl;
      try (destruct (id =? ""); simpl);
      try (destruct (negb (setHas id (pending st))); simpl);
      rewrite ?app_nil_r, <- ?app_assoc; try reflexivity.
  - destruct r; simpl; reflexivity.
Qed.

Lemma scanMessages_errs (messages : list Message) :
  forall i prevMsg st,
    errs (scanMessages i prevMsg messages st)
    = (errs st ++ transcriptErrors i prevMsg messages)%list.
Proof.
  induction messages as [|m rest IH]; intros i prevMsg st; simpl.
  - now rewrite app_nil_r.
  - now rewrite IH, checkMessage_errs, app_assoc.
Qed.

(** *** The pending set after the scan *)

Lemma fold_checkToolCall_pending (i : nat) (calls : list ToolCall) :
  forall st id,
    In id (pending (fold_left (checkToolCall i) calls st))
    <-> In id (pending st) \/ (id <> "" /\ exists tc, In tc calls /\ tcId tc = id).
Proof.
  induction calls as [|tc calls IH]; intros st id; simpl.
  - split; [auto | intros [H|[_ [tc [[] _]]]]; exact H].
  - rewrite IH. clear IH.
    assert (Hstep : In id (pending (checkToolCall i st tc))
                    <-> In id (pending st) \/ (id <> "" /\ tcId tc = id)).
    { unfold checkToolCall, pushError.
      destruct (tcId tc =? "") eqn:Hid; destruct (tcName tc =? ""); simpl.
      - apply String.eqb_eq in Hid. split; [auto | intros [H|[Hne He]]; [auto | congruence]].
      - apply String.eqb_eq in Hid. split; [auto | intros [H|[Hne He]]; [auto | congruence]].
      - apply String.eqb_neq in Hid. rewrite setAdd_In.
        split; [intros [->|H]; auto | intros [H|[_ <-]]; auto].
      - apply String.eqb_neq in Hid. rewrite setAdd_In.
        split; [intros [->|H]; auto | intros [H|[_ <-]]; auto]. }
    rewrite Hstep. split.
    + intros [[H|[Hne He]]|[Hne [tc' [Hin He]]]]; eauto 6.
    + intros [H|[Hne [tc' [[<-|Hin] He]]]]; eauto 6.
Qed.

Lemma checkMessage_pending (i : nat) (prevMsg : option Message) (msg : Message)
    (st : Scan) (id : string) :
  ~ In "" (pending st) ->
  (In id (pending (checkMessage i prevMsg msg st))
   <-> announces msg id \/ (In id (pending st) /\ ~ answers msg id)).
Proof.
  intros Hempty. unfold checkMessage, announces, answers.
  destruct (role msg) as [| | | |r] eqn:Hrole.
  - assert (Hp : forall s1 : Scan, pending s1 = pending st ->
               pending (if negb (truthyStr (content msg))
                        then pushError s1 ("System message at index " ++ natToString i
                                           ++ " is missing content")
                        else s1) = pending st).
    { intros s1 H1. destruct (negb _); simpl; exact H1. }
    rewrite Hp by (destruct (_ && _); reflexivity).
    split; [intros H; right; split; [exact H | intros [? _]; discriminate]
           | intros [[? _]|[H _]]; [discriminate | exact H]].
  - assert (Hp : forall s1 : Scan, pending s1 = pending st ->
               pending (if prevRoleIs prevMsg user
                        then pushError s1 ("User message at index " ++ natToString i
                                           ++ " follows another user message (index "
                                           ++ natToString (i - 1) ++ ")")
                        else s1) = pending st).
    { intros s1 H1. destruct (prevRoleIs _ _); simpl; exact H1. }
    rewrite Hp by (destruct (_ || _); reflexivity).
    split; [intros H; right; split; [exact H | intros [? _]; discriminate]
           | intros [[? _]|[H _]]; [discriminate | exact H]].
  - rewrite fold_checkToolCall_pending. split.
    + intros [H|H]; [right; split; [exact H | intros [? _]; discriminate] | left; tauto].
    + intros [[_ H]|[H _]]; [right; exact H | left; exact H].
  - set (st1 := if negb (truthyStr (name msg))
                then pushError st ("Tool message at index " ++ natToString i
                                   ++ " is missing name")
                else st).
    assert (H1 : pending st1 = pending st) by (subst st1; destruct (negb _); reflexivity).
    destruct (toolCallId msg) as [id'|] eqn:Hid.
    + destruct (id' =? "") eqn:He; [|destruct (negb (setHas id' (pending st1))) eqn:Hhas].
      * apply String.eqb_eq in He. subst id'. simpl. rewrite H1. split.
        -- intros H. right. split; [exact H|]. intros [_ Hx]. injection Hx as <-. contradiction.
        -- intros [[? _]|[H _]]; [discriminate | exact H].
      * simpl. rewrite H1. apply negb_true_iff in Hhas. rewrite H1 in Hhas. split.
        -- intros H. right. split; [exact H|]. intros [_ Hx]. injection Hx as <-.
           apply setHas_In in H. congruence.
        -- intros [[? _]|[H _]]; [discriminate | exact H].
      * simpl. rewrite setDelete_In, H1. split.
        -- intros [H Hne]. right. split; [exact H|]. intros [_ Hx]. congruence.
        -- intros [[? _]|[H Hn]]; [discriminate|]. split; [exact H|].
           intros ->. apply Hn. split; reflexivity.
    + simpl. rewrite H1. split.
      * intros H. right. split; [exact H | intros [_ ?]; discriminate].
      * intros [[? _]|[H _]]; [discriminate | exact H].
  - assert (Hp : pending (match r with
                          | "" => pushError st ("Message at index " ++ natToString i
                                                ++ " is missing a role")
                          | String _ _ => pushError st ("Message at index " ++ natToString i
                                                        ++ " has invalid role: " ++ r)
                          end) = pending st) by (destruct r; reflexivity).
    rewrite Hp.
    split; [intros H; right; split; [exact H | intros [? _]; discriminate]
           | intros [[? _]|[H _]]; [discriminate | exact H]].
Qed.

Lemma Unanswered_nil (id : string) : ~ Unanswered [] id.
Proof. intros [before [m [after [H _]]]]. destruct before; discriminate. Qed.

Lemma Unanswered_cons (m : Message) (rest : list Message) (id : string) :
  Unanswered (m :: rest) id
  <-> (announces m id /\ forall m', In m' rest -> ~ answers m' id) \/ Unanswered rest id.
Proof.
  split.
  - intros [before [m0 [after [Heq [Ha Hn]]]]]. destruct before as [|b before].
    + injection Heq as <- <-. left. auto.
    + injection Heq as <- ->. right. exists before, m0, after. auto.
  - intros [[Ha Hn]|[before [m0 [after [-> [Ha Hn]]]]]].
    + exists [], m, rest. auto.
    + exists (m :: before), m0, after. auto.
Qed.

Lemma scanMessages_pending (messages : list Message) (id : string) :
  forall i prevMsg st,
    ~ In "" (pending st) ->
    (In id (pending (scanMessages i prevMsg messages st))
     <-> Unanswered messages id
         \/ (In id (pending st) /\ forall m, In m messages -> ~ answers m id)).
Proof.
  induction messages as [|m rest IH]; intros i prevMsg st Hempty; simpl.
  - split; [intros H; right; split; [exact H | intros ? []]
           | intros [H|[H _]]; [now apply Unanswered_nil in H | exact H]].
  - assert (Hempty' : ~ In "" (pending (checkMessage i prevMsg m st))).
    { rewrite (checkMessage_pending i prevMsg m st "" Hempty).
      intros [[_ [Hne _]]|[H _]]; [now apply Hne | contradiction]. }
    rewrite (IH _ _ _ Hempty'), Unanswered_cons,
      (checkMessage_pending i prevMsg m st id Hempty).
    split.
    + intros [H|[[Ha|[Hp Hn]] Hrest]]; [left; right; exact H | left; left; auto |].
      right. split; [exact Hp|]. intros m' [<-|Hin]; auto.
    + intros [[[Ha Hn]|H]|[Hp Hn]]; [right; split; auto | left; exact H |].
      right. split; [right; split; [exact Hp | apply Hn; left; reflexivity]|].
      intros m' Hin. apply Hn. right. exact Hin.
Qed.

Lemma unansweredIds_spec (messages : list Message) (id : string) :
  In id (unansweredIds messages) <-> Unanswered messages id.
Proof.
  unfold unansweredIds. rewrite scanMessages_pending by (simpl; tauto).
  simpl. tauto.
Qed.

End ValidationFacts.

(** C2 (counterexample).  Two announced ids are left unanswered and the
    errors list has one entry, which names both; and a transcript without
    any tool call still has an error. *)
Lemma validateMessages_one_error_for_two_ids :
  let transcript := [userText "list and read";
                     assistantCalls "" [mkToolCall "call-1" "list_files" "{}";
                                        mkToolCall "call-2" "read_file" "{}"]] in
  unansweredIds transcript = ["call-1"; "call-2"]
  /\ MessageValidation.errors (MessageValidation.validateMessages transcript)
     = ["2 tool call(s) have no corresponding tool response. Tool call IDs: call-1, call-2"]
  /\ MessageValidation.errors (MessageValidation.validateMessages [userText ""])
     = ["User message at index 0 has empty content"].
Proof. repeat split; vm_compute; reflexivity. Qed.

(** A tool call answered twice leaves no error either. *)
Example validateMessages_answered_twice :
  MessageValidation.errors
    (MessageValidation.validateMessages
       [userText "list"; assistantCalls "" [mkToolCall "call-1" "list_files" "{}"];
        toolResponse "list_files" "{}" "call-1" (JS.JObj []);
        toolResponse "list_files" "{}" "call-1" (JS.JObj [])])
  = [].
Proof. vm_compute. reflexivity. Qed.

(** C2 (amended).  The ids that [validateMessages] holds as pending after
    the scan are exactly the announced ids that no later tool message
    answers; its errors are the errors of the single messages followed, when
    some id is unanswered, by one error that lists all of them; so it
    reports zero errors exactly when no message has an error of its own and
    every announced id has at least one later tool message with that
    toolCallId. *)
Theorem validateMessages_errors_and_unanswered_ids :
  forall messages : list Message,
    let r := MessageValidation.validateMessages messages in
    (forall id, In id (unansweredIds messages) <-> Unanswered messages id)
    /\ MessageValidation.errors r
       = (transcriptErrors 0 None messages
          ++ match unansweredIds messages with
             | [] => []
             | ids => [MessageValidation.unansweredText ids]
             end)%list
    /\ (MessageValidation.errors r = []
        <-> transcriptErrors 0 None messages = []
            /\ forall id, ~ Unanswered messages id)
    /\ (MessageValidation.valid r = true <-> MessageValidation.errors r = []).
Proof.
  intros messages r.
  assert (Herrors : MessageValidation.errors r
                    = (transcriptErrors 0 None messages
                       ++ match unansweredIds messages with
                          | [] => []
                          | ids => [MessageValidation.unansweredText ids]
                          end)%list).
  { subst r. unfold MessageValidation.validateMessages.
    destruct messages as [|m rest]; [reflexivity|].
    cbn [MessageValidation.errors]. fold (unansweredIds (m :: rest)).
    rewrite ValidationFacts.scanMessages_errs. cbn [MessageValidation.errs app].
    destruct (unansweredIds (m :: rest)); simpl; [now rewrite app_nil_r | reflexivity]. }
  split; [exact (ValidationFacts.unansweredIds_spec messages)|].
  split; [exact Herrors|].
  split.
  - rewrite Herrors. split.
    + intros H. apply app_eq_nil in H as [H1 H2]. split; [exact H1|].
      intros id Hid. apply ValidationFacts.unansweredIds_spec in Hid.
      destruct (unansweredIds messages); [contradiction | discriminate].
    + intros [H1 H2]. rewrite H1.
      destruct (unansweredIds messages) as [|id ids] eqn:Hids; [reflexivity|].
      exfalso. apply (H2 id). apply ValidationFacts.unansweredIds_spec.
      rewrite Hids. now left.
  - subst r. unfold MessageValidation.validateMessages.
    destruct messages as [|m rest]; [simpl; tauto|].
    cbn [MessageValidation.valid MessageValidation.errors].
    rewrite Nat.eqb_eq. apply length_zero_iff_nil.
Qed.

(* ===================================================================== *)
(** * Cancellation during tool execution *)
(* ===================================================================== *)

(** C4.  When the last message of the transcript is the assistant message
    with the tool calls, [handleAbortError] appends one aborted response
    per call.  When a response has been committed after it, nothing is
    appended for the calls that are still open: the user denies the first of
    two calls with the signal set, the abort is raised after the loop, and
    the surfaced transcript leaves [call-2] unanswered, as [validateMessages]
    reports. *)
Theorem abort_after_denial_leaves_call_unanswered :
  (forall messages text calls,
     ErrorHandlers.handleAbortError (messages ++ [assistantCalls text calls])
     = (messages ++ [assistantCalls text calls]
        ++ map ErrorHandlers.abortedResponse calls
        ++ [ErrorHandlers.interruptedMessage])%list)
  /\ (let surfaced :=
        AgenticLoop.surfacedAbort AbortScenario.executeToolCall AbortScenario.signalAt
          AbortScenario.signalAtDispatch
          [userText "replace the file"] ""
          [AbortScenario.deleteCall; AbortScenario.writeCall] (JS.JArr []) in
      surfaced
      = Some [userText "replace the file";
              assistantCalls "" [AbortScenario.deleteCall; AbortScenario.writeCall];
              AbortScenario.deniedResponse;
              ErrorHandlers.interruptedMessage]
      /\ option_map unansweredIds surfaced = Some ["call-2"]
      /\ option_map (fun t => MessageValidation.errors (MessageValidation.validateMessages t))
           surfaced
         = Some ["1 tool call(s) have no corresponding tool response. Tool call IDs: call-2"]).
Proof.
  split.
  - intros messages text calls. unfold ErrorHandlers.handleAbortError.
    rewrite map_app. cbn [map]. rewrite last_last. cbn [isRole role assistantCalls announcedCalls toolCalls andb].
    destruct calls as [|c calls]; cbn [length Nat.ltb Nat.leb map app];
      rewrite <- ?app_assoc; reflexivity.
  - repeat split; vm_compute; reflexivity.
Qed.

(* ===================================================================== *)
(** * Healing *)
(* ===================================================================== *)

Module MapFacts.

Import MessageValidation.

Section Keys.

Context {K V : Type}.
Variable eqbK : K -> K -> bool.
Hypothesis eqbK_spec : forall a b, eqbK a b = true <-> a = b.

Lemma eqbK_refl (a : K) : eqbK a a = true.
Proof. now apply eqbK_spec. Qed.

Lemma eqbK_neq (a b : K) : a <> b -> eqbK a b = false.
Proof.
  intros H. destruct (eqbK a b) eqn:E; [|reflexivity].
  apply eqbK_spec in E. contradiction.
Qed.

Lemma mapGet_set_same (k : K) (v : V) (m : list (K * V)) :
  mapGet eqbK k (mapSet eqbK k v m) = Some v.
Proof.
  induction m as [|[k' v'] m IH]; simpl.
  - now rewrite eqbK_refl.
  - destruct (eqbK k' k) eqn:E; simpl; rewrite E; auto.
Qed.

Lemma mapGet_set_other (k k0 : K) (v : V) (m : list (K * V)) :
  k0 <> k -> mapGet eqbK k0 (mapSet eqbK k v m) = mapGet eqbK k0 m.
Proof.
  intros Hne. induction m as [|[k' v'] m IH]; simpl.
  - rewrite eqbK_neq by congruence. reflexivity.
  - destruct (eqbK k' k) eqn:E; simpl.
    + apply eqbK_spec in E. subst k'. rewrite !eqbK_neq by congruence. reflexivity.
    + now rewrite IH.
Qed.

Lemma mapGet_delete_same (k : K) (m : list (K * V)) :
  mapGet eqbK k (mapDelete eqbK k m) = None.
Proof.
  induction m as [|[k' v'] m IH]; simpl; [reflexivity|].
  destruct (eqbK k' k) eqn:E; simpl; [assumption|]. now rewrite E.
Qed.

Lemma mapGet_delete_other (k k0 : K) (m : list (K * V)) :
  k0 <> k -> mapGet eqbK k0 (mapDelete eqbK k m) = mapGet eqbK k0 m.
Proof.
  intros Hne. induction m as [|[k' v'] m IH]; simpl; [reflexivity|].
  destruct (eqbK k' k) eqn:E; simpl.
  - apply eqbK_spec in E. subst k'. rewrite eqbK_neq by congruence. assumption.
  - now rewrite IH.
Qed.

Lemma mapGet_none_keys (k : K) (m : list (K * V)) :
  mapGet eqbK k m = None <-> ~ In k (map fst m).
Proof.
  induction m as [|[k' v'] m IH]; simpl; [tauto|].
  destruct (eqbK k' k) eqn:E.
  - apply eqbK_spec in E. split; [discriminate | intros H; exfalso; auto].
  - rewrite IH. split; [|tauto]. intros H [Heq|Hin]; [|auto].
    subst. rewrite eqbK_refl in E. discriminate.
Qed.

Lemma mapGet_In (k : K) (v : V) (m : list (K * V)) :
  mapGet eqbK k m = Some v -> In (k, v) m.
Proof.
  induction m as [|[k' v'] m IH]; simpl; [discriminate|].
  destruct (eqbK k' k) eqn:E.
  - apply eqbK_spec in E. intros H. injection H as ->. subst. now left.
  - auto.
Qed.

Lemma In_mapGet (k : K) (v : V) (m : list (K * V)) :
  NoDup (map fst m) -> In (k, v) m -> mapGet eqbK k m = Some v.
Proof.
  induction m as [|[k' v'] m IH]; simpl; [tauto|].
  intros Hnd [Heq|Hin].
  - injection Heq as -> ->. now rewrite eqbK_refl.
  - inversion Hnd as [|? ? Hnotin Hnd']; subst.
    rewrite eqbK_neq; [auto|].
    intros ->. apply Hnotin. apply (in_map fst) in Hin. exact Hin.
Qed.

Lemma keys_set (k : K) (v : V) (m : list (K * V)) :
  map fst (mapSet eqbK k v m)
  = if existsb (fun k' => eqbK k' k) (map fst m) then map fst m else (map fst m ++ [k])%list.
Proof.
  induction m as [|[k' v'] m IH]; simpl; [reflexivity|].
  destruct (eqbK k' k) eqn:E; simpl; [reflexivity|].
  rewrite IH. destruct (existsb _ _); reflexivity.
Qed.

Lemma keys_set_In (k k0 : K) (v : V) (m : list (K * V)) :
  In k0 (map fst (mapSet eqbK k v m)) <-> k0 = k \/ In k0 (map fst m).
Proof.
  rewrite keys_set. destruct (existsb _ _) eqn:E.
  - apply existsb_exists in E as [k' [Hin He]]. apply eqbK_spec in He. subst k'.
    split; [auto | intros [->|?]; auto].
  - rewrite in_app_iff. simpl. split; [intros [?|[?|[]]]; auto | intros [?|?]; auto].
Qed.

Lemma keys_set_NoDup (k : K) (v : V) (m : list (K * V)) :
  NoDup (map fst m) -> NoDup (map fst (mapSet eqbK k v m)).
Proof.
  intros Hnd. rewrite keys_set. destruct (existsb _ _) eqn:E; [assumption|].
  apply NoDup_app; [assumption | repeat constructor; simpl; tauto |].
  intros x Hx [<-|[]].
  assert (Hex : existsb (fun k' => eqbK k' k) (map fst m) = true).
  { apply existsb_exists. exists k. split; [assumption | apply eqbK_refl]. }
  congruence.
Qed.

Lemma keys_delete_NoDup (k : K) (m : list (K * V)) :
  NoDup (map fst m) -> NoDup (map fst (mapDelete eqbK k m)).
Proof.
  induction m as [|[k' v'] m IH]; simpl; [auto|].
  intros Hnd. inversion Hnd as [|? ? Hnotin Hnd']; subst.
  destruct (eqbK k' k); simpl; [auto|].
  constructor; [|auto].
  intros Hin. apply Hnotin. apply in_map_iff in Hin as [[k1 v1] [Hk Hin]].
  simpl in Hk. subst k1. apply filter_In in Hin as [Hin _].
  apply (in_map fst) in Hin. exact Hin.
Qed.

Lemma delete_In (k : K) (e : K * V) (m : list (K * V)) :
  In e (mapDelete eqbK k m) -> In e m.
Proof. unfold mapDelete. rewrite filter_In. tauto. Qed.

Lemma set_In (k : K) (v : V) (e : K * V) (m : list (K * V)) :
  In e (mapSet eqbK k v m) -> e = (k, v) \/ In e m.
Proof.
  induction m as [|[k' v'] m IH]; simpl.
  - intros [<-|[]]. now left.
  - destruct (eqbK k' k) eqn:E; simpl.
    + apply eqbK_spec in E. subst k'. intros [<-|H]; auto.
    + intros [<-|H]; [auto|]. destruct (IH H); auto.
Qed.

End Keys.

Lemma string_eqb_spec (a b : string) : String.eqb a b = true <-> a = b.
Proof. apply String.eqb_eq. Qed.

Lemma nat_eqb_spec (a b : nat) : Nat.eqb a b = true <-> a = b.
Proof. apply Nat.eqb_eq. Qed.

End MapFacts.

Module HealFacts.

Import ProofNotions.

Import JS MessageValidation MapFacts.

(** ** Weaving and splicing *)

Lemma weave_app (blocks : nat -> list Message) (a b : list Message) :
  forall i, weave blocks i (a ++ b) = (weave blocks i a ++ weave blocks (i + length a) b)%list.
Proof.
  induction a as [|m a IH]; intros i; simpl.
  - now rewrite Nat.add_0_r.
  - rewrite IH, <- app_assoc. now rewrite Nat.add_succ_r.
Qed.

Lemma weave_ext (f g : nat -> list Message) (messages : list Message) :
  forall i, (forall j, i <= j -> f j = g j) -> weave f i messages = weave g i messages.
Proof.
  induction messages as [|m rest IH]; intros i H; simpl; [reflexivity|].
  rewrite (H i) by lia. rewrite (IH (S i)); [reflexivity|].
  intros j Hj. apply H. lia.
Qed.

Lemma weave_empty (f : nat -> list Message) (messages : list Message) :
  forall i, (forall j, i <= j -> f j = []) -> weave f i messages = messages.
Proof.
  induction messages as [|m rest IH]; intros i H; simpl; [reflexivity|].
  rewrite (H i) by lia. simpl. rewrite IH; [reflexivity|].
  intros j Hj. apply H. lia.
Qed.

(** Splicing after the message at index [k] into a list woven with nothing
    up to [k] is weaving with the block at [k]. *)
Lemma splice_weave (f : nat -> list Message) (block : list Message) (k : nat)
    (messages : list Message) :
  forall i,
    i <= k -> k < i + length messages ->
    (forall j, i <= j <= k -> f j = []) ->
    splice (weave f i messages) (k - i + 1) block
    = weave (fun j => if Nat.eqb j k then block else f j) i messages.
Proof.
  induction messages as [|m rest IH]; intros i Hik Hlen Hf; simpl in *; [lia|].
  rewrite (Hf i) by lia. simpl.
  destruct (Nat.eq_dec i k) as [->|Hne].
  - rewrite Nat.eqb_refl, Nat.sub_diag. unfold splice. simpl. f_equal. f_equal.
    apply weave_ext. intros j Hj. destruct (Nat.eqb_spec j k); [lia | reflexivity].
  - destruct (Nat.eqb_spec i k) as [|_]; [contradiction|]. simpl.
    replace (k - i + 1) with (S (k - S i + 1)) by lia.
    unfold splice in *. simpl. f_equal.
    apply IH; [lia | lia |]. intros j Hj. apply Hf. lia.
Qed.

Lemma fold_splice_weave (block : nat -> list Message) (messages : list Message) :
  forall (l : list nat) (f : nat -> list Message),
    descending l ->
    (forall k, In k l -> k < length messages) ->
    (forall k j, In k l -> j <= k -> f j = []) ->
    fold_left (fun h k => splice h (k + 1) (block k)) l (weave f 0 messages)
    = weave (fun j => if existsb (Nat.eqb j) l then block j else f j) 0 messages.
Proof.
  induction l as [|k l IH]; intros f Hsorted Hlen Hf; simpl.
  - reflexivity.
  - inversion Hsorted as [|? ? Hs Hall]; subst.
    replace (k + 1) with (k - 0 + 1) by lia.
    rewrite splice_weave; [|lia|apply Hlen; now left|intros j Hj; apply (Hf k); [now left | lia]].
    rewrite IH; [|assumption|intros; apply Hlen; now right|].
    + apply weave_ext. intros j _.
      destruct (Nat.eqb_spec j k) as [->|Hne]; simpl.
      * destruct (existsb (Nat.eqb k) l) eqn:E; [|reflexivity].
        apply existsb_exists in E as [x [Hx He]]. apply Nat.eqb_eq in He. subst x.
        rewrite Forall_forall in Hall. specialize (Hall k Hx). lia.
      * reflexivity.
    + intros k' j Hin Hj. rewrite Forall_forall in Hall. specialize (Hall k' Hin).
      destruct (Nat.eqb_spec j k); [lia|]. apply (Hf k); [now left | lia].
Qed.

(** ** Sorting the indices *)

Lemma insertDescending_In (x y : nat) (l : list nat) :
  In y (insertDescending x l) <-> y = x \/ In y l.
Proof.
  induction l as [|z l IH]; simpl; [intuition|].
  destruct (z <=? x)%nat; simpl; [intuition|]. rewrite IH. intuition.
Qed.

Lemma sortDescending_In (x : nat) (l : list nat) : In x (sortDescending l) <-> In x l.
Proof.
  induction l as [|y l IH]; simpl; [tauto|].
  rewrite insertDescending_In, IH. intuition.
Qed.

Lemma insertDescending_sorted (x : nat) (l : list nat) :
  descending l -> ~ In x l -> descending (insertDescending x l).
Proof.
  unfold descending. induction 1 as [|y l Hs IH Hall]; intros Hnotin; simpl.
  - repeat constructor.
  - destruct (Nat.leb_spec y x) as [Hle|Hgt].
    + assert (y < x) by (simpl in Hnotin; lia).
      constructor; [now constructor|].
      constructor; [assumption|].
      rewrite Forall_forall in *. intros z Hz. specialize (Hall z Hz). lia.
    + constructor; [apply IH; simpl in Hnotin; tauto|].
      rewrite Forall_forall in *. intros z Hz.
      apply insertDescending_In in Hz as [->|Hz]; [lia | auto].
Qed.

Lemma sortDescending_sorted (l : list nat) : NoDup l -> descending (sortDescending l).
Proof.
  induction 1 as [|x l Hnotin Hnd IH]; simpl; [constructor|].
  apply insertDescending_sorted; [assumption|]. now rewrite sortDescending_In.
Qed.

(** ** Grouping the orphans by index *)

Lemma groupOrphans_fold (p : Pending) : groupOrphans p = fold_left groupStep p [].
Proof. reflexivity. Qed.

Lemma groupStep_get (acc : list (nat * list (string * string))) (id nm : string)
    (index k : nat) :
  mapGet Nat.eqb k (groupStep acc (id, (nm, index)))
  = if Nat.eqb index k
    then Some (match mapGet Nat.eqb k acc with Some l => l | None => [] end
               ++ [(id, nm)])%list
    else mapGet Nat.eqb k acc.
Proof.
  unfold groupStep. destruct (Nat.eqb_spec index k) as [->|Hne].
  - destruct (mapGet Nat.eqb k acc) as [l|] eqn:Hget.
    + rewrite Hget. now rewrite (mapGet_set_same Nat.eqb nat_eqb_spec).
    + rewrite (mapGet_set_same Nat.eqb nat_eqb_spec).
      now rewrite (mapGet_set_same Nat.eqb nat_eqb_spec).
  - destruct (mapGet Nat.eqb index acc) as [l|] eqn:Hget.
    + rewrite Hget. rewrite (mapGet_set_other Nat.eqb nat_eqb_spec) by congruence.
      reflexivity.
    + rewrite (mapGet_set_same Nat.eqb nat_eqb_spec).
      rewrite !(mapGet_set_other Nat.eqb nat_eqb_spec) by congruence. reflexivity.
Qed.

Lemma groupStep_keys_NoDup (acc : list (nat * list (string * string)))
    (entry : string * (string * nat)) :
  NoDup (map fst acc) -> NoDup (map fst (groupStep acc entry)).
Proof.
  intros Hnd. destruct entry as [id [nm index]]. unfold groupStep.
  destruct (mapGet Nat.eqb index acc) as [l|] eqn:Hget.
  - rewrite Hget. now apply (keys_set_NoDup Nat.eqb nat_eqb_spec).
  - rewrite (mapGet_set_same Nat.eqb nat_eqb_spec).
    now apply (keys_set_NoDup Nat.eqb nat_eqb_spec), (keys_set_NoDup Nat.eqb nat_eqb_spec).
Qed.

Lemma group_get (p : Pending) :
  forall acc k,
    mapGet Nat.eqb k (fold_left groupStep p acc)
    = match mapGet Nat.eqb k acc with
      | Some l => Some (l ++ strip k p)%list
      | None => if existsb (fun e => Nat.eqb (snd (snd e)) k) p
                then Some (strip k p) else None
      end.
Proof.
  induction p as [|[id [nm index]] p IH]; intros acc k.
  - simpl. destruct (mapGet Nat.eqb k acc); [now rewrite app_nil_r | reflexivity].
  - cbn [fold_left]. rewrite IH, groupStep_get. unfold strip.
    cbn [filter existsb map snd fst].
    destruct (Nat.eqb index k); cbn [orb map fst snd].
    + destruct (mapGet Nat.eqb k acc); simpl; now rewrite <- ?app_assoc.
    + reflexivity.
Qed.

Lemma group_keys_NoDup (p : Pending) :
  forall acc, NoDup (map fst acc) -> NoDup (map fst (fold_left groupStep p acc)).
Proof.
  induction p as [|e p IH]; intros acc Hnd; simpl; [assumption|].
  apply IH. now apply groupStep_keys_NoDup.
Qed.

Lemma strip_nil (k : nat) (p : Pending) :
  existsb (fun e => Nat.eqb (snd (snd e)) k) p = false -> strip k p = [].
Proof.
  unfold strip. induction p as [|e p IH]; simpl; [reflexivity|].
  destruct (Nat.eqb (snd (snd e)) k); simpl; [discriminate | exact IH].
Qed.

Lemma orphanBlock_strip (p : Pending) (k : nat) :
  orphanBlock p k = map orphanResponse (strip k p).
Proof. unfold orphanBlock, strip. now rewrite map_map. Qed.

Lemma fold_left_ext {A B : Type} (f g : A -> B -> A) (l : list B) :
  (forall a b, f a b = g a b) -> forall a, fold_left f l a = fold_left g l a.
Proof.
  intros H. induction l as [|b l IH]; intros a; simpl; [reflexivity|].
  now rewrite H, IH.
Qed.

(** Healing weaves the orphan responses into the transcript. *)
Lemma heal_weave (messages : list Message) :
  let p := trackMessages 0 messages [] in
  (forall e, In e p -> snd (snd e) < length messages) ->
  healOrphanedToolCalls messages = weave (orphanBlock p) 0 messages.
Proof.
  intros p Hindex. unfold healOrphanedToolCalls. fold p.
  destruct (Nat.eqb_spec (length p) 0) as [Hlen|Hlen].
  - apply length_zero_iff_nil in Hlen. rewrite Hlen.
    symmetry. apply weave_empty. reflexivity.
  - rewrite groupOrphans_fold.
    set (obi := fold_left groupStep p []).
    assert (Hget : forall k,
               match mapGet Nat.eqb k obi with
               | Some o => map orphanResponse o
               | None => []
               end = orphanBlock p k).
    { intros k. unfold obi. rewrite group_get. simpl. rewrite orphanBlock_strip.
      destruct (existsb _ p) eqn:E; [reflexivity|]. now rewrite strip_nil. }
    rewrite (fold_left_ext _ (fun h k => splice h (k + 1) (orphanBlock p k))).
    2:{ intros h k. rewrite <- Hget. destruct (mapGet Nat.eqb k obi); [reflexivity|].
        unfold splice. simpl. now rewrite firstn_skipn. }
    rewrite <- (weave_empty (fun _ => []) messages 0) at 1 by reflexivity.
    rewrite fold_splice_weave.
    + apply weave_ext. intros j _.
      destruct (existsb (Nat.eqb j) (sortDescending (map fst obi))) eqn:E; [reflexivity|].
      rewrite <- Hget.
      destruct (mapGet Nat.eqb j obi) as [o|] eqn:Ho; [|reflexivity].
      exfalso. apply (mapGet_In Nat.eqb nat_eqb_spec) in Ho.
      assert (Hin : In j (sortDescending (map fst obi))).
      { apply sortDescending_In. apply (in_map fst) in Ho. exact Ho. }
      assert (Hex : existsb (Nat.eqb j) (sortDescending (map fst obi)) = true).
      { apply existsb_exists. exists j. split; [exact Hin | apply Nat.eqb_refl]. }
      congruence.
    + apply sortDescending_sorted. apply group_keys_NoDup. constructor.
    + intros k Hk. apply (proj1 (sortDescending_In _ _)) in Hk.
      destruct (mapGet Nat.eqb k obi) as [o|] eqn:Ho.
      * unfold obi in Ho. rewrite group_get in Ho. simpl in Ho.
        destruct (existsb _ p) eqn:E; [|discriminate].
        apply existsb_exists in E as [e [He Hk']]. apply Nat.eqb_eq in Hk'. subst k.
        now apply Hindex.
      * apply (mapGet_none_keys Nat.eqb nat_eqb_spec) in Ho. exfalso. exact (Ho Hk).
    + reflexivity.
Qed.

(** ** One id through the first loop *)

Abbreviation get := (mapGet String.eqb).

Lemma trackCalls_get (i : nat) (id : string) (calls : list ToolCall) :
  forall p,
    (existsb (tracksCall id) calls = true ->
     exists n, get id (fold_left (trackCall i) calls p) = Some (n, i))
    /\ (existsb (tracksCall id) calls = false ->
        get id (fold_left (trackCall i) calls p) = get id p).
Proof.
  induction calls as [|tc calls IH]; intros p; cbn [existsb fold_left].
  - split; [discriminate | reflexivity].
  - destruct (IH (trackCall i p tc)) as [IHt IHf].
    destruct (existsb (tracksCall id) calls) eqn:Hrest.
    + rewrite orb_true_r. split; [intros _; now apply IHt | discriminate].
    + rewrite orb_false_r. rewrite (IHf eq_refl). unfold trackCall, tracksCall.
      destruct (negb (tcId tc =? "") && negb (tcName tc =? "")); cbn [andb].
      * destruct (String.eqb_spec (tcId tc) id) as [<-|Hne].
        -- split; [intros _ | discriminate].
           eexists. apply (mapGet_set_same String.eqb string_eqb_spec).
        -- split; [discriminate | intros _].
           apply (mapGet_set_other String.eqb string_eqb_spec). congruence.
      * split; [discriminate | reflexivity].
Qed.

Lemma trackMessage_calls (i : nat) (m : Message) (p : Pending) :
  trackMessage i m p
  = let p1 := if isRole (role m) assistant
              then fold_left (trackCall i) (announcedCalls m) p else p in
    if isRole (role m) tool && truthyStr (toolCallId m)
    then match toolCallId m with
         | Some id => mapDelete String.eqb id p1
         | None => p1
         end
    else p1.
Proof. reflexivity. Qed.

Lemma trackMessage_get (i : nat) (m : Message) (p : Pending) (id : string) :
  (answersB m id = true -> get id (trackMessage i m p) = None)
  /\ (answersB m id = false -> announcesNamedB m id = true ->
      exists n, get id (trackMessage i m p) = Some (n, i))
  /\ (answersB m id = false -> announcesNamedB m id = false ->
      get id (trackMessage i m p) = get id p).
Proof.
  rewrite trackMessage_calls. unfold answersB, announcesNamedB. cbv zeta.
  destruct (trackCalls_get i id (announcedCalls m) p) as [Ht Hf].
  destruct (role m) as [| | | |r]; cbn [isRole andb].
  - repeat split; try discriminate; reflexivity.
  - repeat split; try discriminate; reflexivity.
  - repeat split; try discriminate; [intros _; exact Ht | intros _; exact Hf].
  - destruct (toolCallId m) as [id'|]; cbn [truthyStr].
    + destruct (negb (id' =? "")); cbn [andb].
      * destruct (String.eqb_spec id' id) as [->|Hne].
        -- repeat split; try discriminate.
           intros _. apply (mapGet_delete_same String.eqb).
        -- repeat split; try discriminate.
           intros _ _. apply (mapGet_delete_other String.eqb string_eqb_spec). congruence.
      * repeat split; try discriminate; reflexivity.
    + repeat split; try discriminate; reflexivity.
  - repeat split; try discriminate; reflexivity.
Qed.

Lemma trackMessage_some (i : nat) (m : Message) (p : Pending) (id : string) :
  isSome (get id (trackMessage i m p)) = stepPending id (isSome (get id p)) m.
Proof.
  destruct (trackMessage_get i m p id) as [H1 [H2 H3]]. unfold stepPending.
  destruct (answersB m id); [now rewrite H1|].
  destruct (announcesNamedB m id).
  - destruct (H2 eq_refl eq_refl) as [n ->]. reflexivity.
  - now rewrite H3.
Qed.

Lemma trackMessages_some (messages : list Message) (id : string) :
  forall i p,
    isSome (get id (trackMessages i messages p))
    = fold_left (stepPending id) messages (isSome (get id p)).
Proof.
  induction messages as [|m rest IH]; intros i p; simpl; [reflexivity|].
  now rewrite IH, trackMessage_some.
Qed.

(** A pending entry records the index of a message after which the id is
    quiet. *)
Lemma trackMessages_index (id : string) (messages : list Message) :
  forall i p n k,
    (forall n0 k0, get id p = Some (n0, k0) -> k0 < i) ->
    get id (trackMessages i messages p) = Some (n, k) ->
    (k < i /\ quiet id messages /\ get id p = Some (n, k))
    \/ (i <= k /\ exists before m after,
          messages = (before ++ m :: after)%list /\ length before = k - i
          /\ quiet id after).
Proof.
  induction messages as [|m rest IH]; intros i p n k Hp Hget; simpl in Hget.
  - left. split; [now apply (Hp n)|]. split; [intros b; reflexivity | exact Hget].
  - destruct (trackMessage_get i m p id) as [H1 [H2 H3]].
    assert (Hp' : forall n0 k0, get id (trackMessage i m p) = Some (n0, k0) -> k0 < S i).
    { intros n0 k0 Hg. destruct (answersB m id); [rewrite H1 in Hg by reflexivity; discriminate|].
      destruct (announcesNamedB m id).
      - destruct (H2 eq_refl eq_refl) as [n1 Hn]. rewrite Hn in Hg.
        injection Hg as _ <-. lia.
      - rewrite H3 in Hg by reflexivity. apply Hp in Hg. lia. }
    destruct (IH (S i) _ n k Hp' Hget)
      as [[Hk [Hq Hsame]]|[Hk [before [m' [after [-> [Hlen Hq]]]]]]].
    + destruct (Nat.eq_dec k i) as [->|Hne].
      * right. split; [lia|]. exists [], m, rest. rewrite Nat.sub_diag. auto.
      * left. split; [lia|].
        destruct (answersB m id) eqn:Ha; [rewrite H1 in Hsame by reflexivity; discriminate|].
        destruct (announcesNamedB m id) eqn:Hn.
        -- destruct (H2 eq_refl eq_refl) as [n1 Hn1]. rewrite Hn1 in Hsame.
           injection Hsame as _ <-. lia.
        -- rewrite H3 in Hsame by reflexivity. split; [|exact Hsame].
           intros b. simpl. rewrite Hq. unfold stepPending. now rewrite Ha, Hn.
    + right. split; [lia|]. exists (m :: before), m', after.
      simpl. split; [reflexivity|]. split; [lia | exact Hq].
Qed.

(** ** The invariant of the pending map *)

Lemma trackCalls_wellKeyed (i : nat) (calls : list ToolCall) :
  forall p, wellKeyed (S i) p -> wellKeyed (S i) (fold_left (trackCall i) calls p).
Proof.
  induction calls as [|tc calls IH]; intros p Hp; simpl; [assumption|].
  apply IH. unfold trackCall.
  destruct (negb (tcId tc =? "")) eqn:Hid; cbn [andb]; [|assumption].
  destruct (negb (tcName tc =? "")); [|assumption].
  destruct Hp as [Hnd Hall]. split.
  - now apply (keys_set_NoDup String.eqb string_eqb_spec).
  - intros e He. apply (set_In String.eqb string_eqb_spec) in He as [->|He]; [|auto].
    simpl. split; [|lia]. apply negb_true_iff, String.eqb_neq in Hid. exact Hid.
Qed.

Lemma wellKeyed_weaken (i : nat) (p : Pending) : wellKeyed i p -> wellKeyed (S i) p.
Proof.
  intros [Hnd Hall]. split; [assumption|].
  intros e He. destruct (Hall e He). split; [assumption | lia].
Qed.

Lemma trackMessage_wellKeyed (i : nat) (m : Message) (p : Pending) :
  wellKeyed i p -> wellKeyed (S i) (trackMessage i m p).
Proof.
  intros Hp. apply wellKeyed_weaken in Hp. rewrite trackMessage_calls. cbv zeta.
  set (p1 := if isRole (role m) assistant
             then fold_left (trackCall i) (announcedCalls m) p else p).
  assert (H1 : wellKeyed (S i) p1).
  { subst p1. destruct (isRole (role m) assistant); [now apply trackCalls_wellKeyed | assumption]. }
  destruct (isRole (role m) tool && truthyStr (toolCallId m)); [|assumption].
  destruct (toolCallId m) as [id|]; [|assumption].
  destruct H1 as [Hnd Hall]. split.
  - now apply keys_delete_NoDup.
  - intros e He. apply delete_In in He. auto.
Qed.

Lemma trackMessages_wellKeyed (messages : list Message) :
  forall i p, wellKeyed i p -> wellKeyed (i + length messages) (trackMessages i messages p).
Proof.
  induction messages as [|m rest IH]; intros i p Hp; simpl.
  - now rewrite Nat.add_0_r.
  - rewrite Nat.add_succ_r. apply (IH (S i)). now apply trackMessage_wellKeyed.
Qed.

Lemma wellKeyed_nil (i : nat) : wellKeyed i [].
Proof. split; [constructor | intros e []]. Qed.

(** ** The healed transcript has nothing pending *)

Lemma orphanResponse_step (id id' nm : string) (b : bool) :
  id' <> "" ->
  stepPending id b (orphanResponse (id', nm)) = if String.eqb id' id then false else b.
Proof.
  intros Hne. apply String.eqb_neq in Hne.
  unfold stepPending, answersB, announcesNamedB, orphanResponse, toolResponse.
  cbn [role toolCallId isRole truthyStr fst snd andb]. rewrite Hne. cbn [negb andb].
  destruct (id' =? id); reflexivity.
Qed.

Lemma orphanBlock_fold (id : string) (k : nat) (p : Pending) :
  (forall e, In e p -> fst e <> "") ->
  forall b, fold_left (stepPending id) (orphanBlock p k) b
            = if blockHas id k p then false else b.
Proof.
  unfold orphanBlock, blockHas.
  induction p as [|[id' [nm idx]] p IH]; intros Hkeys b; [reflexivity|].
  cbn [filter existsb fst snd].
  assert (Hkeys' : forall e, In e p -> fst e <> "") by (intros e He; apply Hkeys; now right).
  destruct (Nat.eqb idx k); cbn [map fold_left fst snd].
  - rewrite orphanResponse_step by (apply (Hkeys (id', (nm, idx))); now left).
    rewrite (IH Hkeys'). rewrite andb_true_r.
    destruct (id' =? id); cbn [orb]; [|reflexivity].
    destruct (existsb _ p); reflexivity.
  - rewrite andb_false_r. cbn [orb]. apply (IH Hkeys').
Qed.

Lemma weave_fold_free (id : string) (p : Pending) (messages : list Message) :
  (forall e, In e p -> fst e <> "") ->
  forall i b,
    (forall j, i <= j -> blockHas id j p = false) ->
    fold_left (stepPending id) (weave (orphanBlock p) i messages) b
    = fold_left (stepPending id) messages b.
Proof.
  intros Hkeys. induction messages as [|m rest IH]; intros i b Hfree; [reflexivity|].
  cbn [weave fold_left]. rewrite fold_left_app, orphanBlock_fold by assumption.
  rewrite (Hfree i) by lia. apply IH. intros j Hj. apply Hfree. lia.
Qed.

Lemma blockHas_In (id : string) (k : nat) (p : Pending) :
  blockHas id k p = true <-> exists n, In (id, (n, k)) p.
Proof.
  unfold blockHas. rewrite existsb_exists. split.
  - intros [[id' [n k']] [Hin He]]. simpl in He.
    apply andb_true_iff in He as [Hid Hk].
    apply String.eqb_eq in Hid. apply Nat.eqb_eq in Hk. subst. eauto.
  - intros [n Hin]. exists (id, (n, k)). split; [assumption|]. simpl.
    now rewrite String.eqb_refl, Nat.eqb_refl.
Qed.

Lemma all_none_nil (p : Pending) : (forall id, get id p = None) -> p = [].
Proof.
  destruct p as [|[id v] p]; [reflexivity|].
  intros H. specialize (H id). simpl in H. rewrite String.eqb_refl in H. discriminate.
Qed.

Lemma isSome_false {A : Type} (o : option A) : isSome o = false -> o = None.
Proof. destruct o; [discriminate | reflexivity]. Qed.

(** After the orphan responses are woven in, the first loop of a second
    pass ends with an empty map. *)
Lemma weave_nothing_pending (messages : list Message) :
  let p := trackMessages 0 messages [] in
  trackMessages 0 (weave (orphanBlock p) 0 messages) [] = [].
Proof.
  intros p. apply all_none_nil. intros id. apply isSome_false.
  rewrite trackMessages_some. cbn [mapGet isSome].
  destruct (trackMessages_wellKeyed messages 0 [] (wellKeyed_nil 0)) as [Hnd Hall].
  fold p in Hnd, Hall.
  assert (Hkeys : forall e, In e p -> fst e <> "") by (intros e He; now apply Hall).
  destruct (get id p) as [[n k]|] eqn:Hget.
  - destruct (trackMessages_index id messages 0 [] n k) as [[Hk _]|[_ Hsplit]];
      [intros ? ? H; discriminate H | exact Hget | lia |].
    destruct Hsplit as [before [m [after [Hm [Hlen Hq]]]]].
    rewrite Nat.sub_0_r in Hlen. rewrite Hm, weave_app. cbn [weave].
    rewrite fold_left_app. cbn [fold_left]. rewrite fold_left_app.
    rewrite orphanBlock_fold by assumption. simpl. rewrite Hlen.
    assert (Hhas : blockHas id k p = true).
    { apply blockHas_In. exists n. now apply (mapGet_In String.eqb string_eqb_spec). }
    rewrite Hhas. rewrite weave_fold_free; [apply Hq | assumption |].
    intros j Hj. destruct (blockHas id j p) eqn:E; [|reflexivity].
    apply blockHas_In in E as [n' Hin].
    apply (In_mapGet String.eqb string_eqb_spec _ _ _ Hnd) in Hin.
    rewrite Hget in Hin. injection Hin as _ ->. lia.
  - rewrite weave_fold_free; [| assumption |].
    + assert (Hs := trackMessages_some messages id 0 []). fold p in Hs.
      rewrite Hget in Hs. simpl in Hs. now rewrite <- Hs.
    + intros j _. destruct (blockHas id j p) eqn:E; [|reflexivity].
      apply blockHas_In in E as [n' Hin].
      apply (In_mapGet String.eqb string_eqb_spec _ _ _ Hnd) in Hin. congruence.
Qed.

Lemma heal_is_weave (messages : list Message) :
  healOrphanedToolCalls messages
  = weave (orphanBlock (trackMessages 0 messages [])) 0 messages.
Proof.
  apply heal_weave. intros e He.
  destruct (trackMessages_wellKeyed messages 0 [] (wellKeyed_nil 0)) as [_ Hall].
  now apply Hall.
Qed.

Lemma heal_nothing_pending (messages : list Message) :
  trackMessages 0 (healOrphanedToolCalls messages) [] = [].
Proof. rewrite heal_is_weave. apply weave_nothing_pending. Qed.

Lemma heal_idempotent (messages : list Message) :
  healOrphanedToolCalls (healOrphanedToolCalls messages) = healOrphanedToolCalls messages.
Proof.
  unfold healOrphanedToolCalls at 1. now rewrite heal_nothing_pending.
Qed.

Lemma announcesNamed_B (m : Message) (id : string) :
  announcesNamed m id -> announcesNamedB m id = true /\ answersB m id = false.
Proof.
  intros [Hrole [tc [Hin [Hid [Hne Hname]]]]].
  unfold announcesNamedB, answersB. rewrite Hrole. cbn [isRole andb]. split; [|reflexivity].
  apply existsb_exists. exists tc. split; [assumption|]. unfold tracksCall.
  subst id. apply String.eqb_neq in Hne, Hname. now rewrite Hne, Hname, String.eqb_refl.
Qed.

Lemma answersB_answers (m : Message) (id : string) :
  answersB m id = true -> answers m id.
Proof.
  unfold answersB, answers. intros H.
  apply andb_true_iff in H as [H Hid]. apply andb_true_iff in H as [Hrole _].
  split.
  - destruct (role m); try discriminate. reflexivity.
  - destruct (toolCallId m) as [id'|]; [|discriminate].
    apply String.eqb_eq in Hid. now subst.
Qed.

Lemma fold_no_answer (id : string) (messages : list Message) :
  existsb (fun m => answersB m id) messages = false ->
  fold_left (stepPending id) messages true = true.
Proof.
  induction messages as [|m rest IH]; simpl; [reflexivity|].
  intros H. apply orb_false_iff in H as [Hm Hrest].
  unfold stepPending at 2. rewrite Hm.
  destruct (announcesNamedB m id); now apply IH.
Qed.

(** With nothing pending at the end, every announcement of a named call is
    followed by an answer. *)
Lemma nothing_pending_answered (messages : list Message) :
  trackMessages 0 messages [] = [] ->
  forall before m after id,
    messages = (before ++ m :: after)%list -> announcesNamed m id ->
    exists m', In m' after /\ answers m' id.
Proof.
  intros Hempty before m after id Hm Ha.
  assert (Hs := trackMessages_some messages id 0 []).
  rewrite Hempty in Hs. cbn [mapGet isSome] in Hs.
  rewrite Hm, fold_left_app in Hs. cbn [fold_left] in Hs.
  destruct (announcesNamed_B m id Ha) as [Hn Hans].
  unfold stepPending at 2 in Hs. rewrite Hans, Hn in Hs.
  destruct (existsb (fun m' => answersB m' id) after) eqn:E.
  - apply existsb_exists in E as [m' [Hin Hm']]. exists m'.
    split; [assumption | now apply answersB_answers].
  - rewrite fold_no_answer in Hs by assumption. discriminate.
Qed.

End HealFacts.

(** C3 (counterexample).  A call with an id and no function name is not
    tracked by the healer: the transcript is returned as it is, and the
    announced id is still without a tool message. *)
Lemma heal_leaves_unnamed_call_unanswered :
  let transcript := [userText "list the files";
                     assistantCalls "" [mkToolCall "call-1" "" "{}"]] in
  MessageValidation.healOrphanedToolCalls transcript = transcript
  /\ Unanswered (MessageValidation.healOrphanedToolCalls transcript) "call-1".
Proof.
  split; [reflexivity|].
  exists [userText "list the files"], (assistantCalls "" [mkToolCall "call-1" "" "{}"]), [].
  split; [reflexivity|]. split.
  - split; [reflexivity|]. split; [discriminate|].
    exists (mkToolCall "call-1" "" "{}"). split; [now left | reflexivity].
  - intros m' [].
Qed.

(** C3 (amended).  [healOrphanedToolCalls] is idempotent.  After one pass
    the map of pending calls of a second pass is empty, so the second pass
    returns its argument; and every id announced in a call that has a
    function name has a later tool message with that toolCallId.  (A call
    without a function name is not tracked and stays as it is.) *)
Theorem healOrphanedToolCalls_idempotent :
  forall messages : list Message,
    let healed := MessageValidation.healOrphanedToolCalls messages in
    MessageValidation.healOrphanedToolCalls healed = healed
    /\ MessageValidation.trackMessages 0 healed [] = []
    /\ (forall before m after id,
          healed = (before ++ m :: after)%list -> announcesNamed m id ->
          exists m', In m' after /\ answers m' id).
Proof.
  intros messages healed. subst healed.
  split; [apply HealFacts.heal_idempotent|].
  split; [apply HealFacts.heal_nothing_pending|].
  apply HealFacts.nothing_pending_answered, HealFacts.heal_nothing_pending.
Qed.

(** Healing on a transcript with two orphans and an unnamed call. *)
Example heal_inserts_after_announcing_message :
  map toolCallId
    (MessageValidation.healOrphanedToolCalls
       [userText "go";
        assistantCalls "" [mkToolCall "a" "list_files" "{}"; mkToolCall "b" "grep" "{}"];
        toolResponse "grep" "{}" "b" (JS.JObj []);
        assistantCalls "" [mkToolCall "c" "read_file" "{}"; mkToolCall "d" "" "{}"];
        userText "and then"])
  = [None; None; Some "a"; Some "b"; None; Some "c"; None].
Proof. vm_compute. reflexivity. Qed.

(* ===================================================================== *)
(** * Paths *)
(* ===================================================================== *)

Module PathFacts.

Import ProofNotions.

Import JS Path.

Lemma split_nonempty (sep : ascii) (s : string) : split sep s <> [].
Proof.
  destruct s as [|c s]; simpl; [discriminate|].
  destruct (Ascii.eqb c sep); [discriminate|]. destruct (split sep s); discriminate.
Qed.

Lemma split_app_sep (sep : ascii) (a b : string) :
  split sep (a ++ String sep b) = (split sep a ++ split sep b)%list.
Proof.
  induction a as [|c a IH]; simpl.
  - now rewrite Ascii.eqb_refl.
  - destruct (Ascii.eqb c sep); [now rewrite IH|].
    rewrite IH. destruct (split sep a) as [|x xs] eqn:E; [|reflexivity].
    now apply split_nonempty in E.
Qed.

Lemma split_noSlash (s : string) : noSlash s = true -> split "/" s = [s].
Proof.
  induction s as [|c s IH]; simpl; [reflexivity|].
  unfold noSlash. cbn [allUnits]. intros H. apply andb_true_iff in H as [Hc Hs].
  apply negb_true_iff in Hc. rewrite Hc, (IH Hs). reflexivity.
Qed.

Lemma split_components_noSlash (s : string) :
  Forall (fun x => noSlash x = true) (split "/" s).
Proof.
  induction s as [|c s IH]; simpl; [repeat constructor|].
  destruct (Ascii.eqb c "/") eqn:E; [constructor; [reflexivity | assumption]|].
  destruct (split "/" s) as [|x xs].
  - constructor; [|constructor]. unfold noSlash. cbn [allUnits]. now rewrite E.
  - inversion IH; subst. constructor; [|assumption].
    unfold noSlash in *. cbn [allUnits]. rewrite E. assumption.
Qed.

Lemma plainSegment_noSlash (s : string) : plainSegment s = true -> noSlash s = true.
Proof. unfold plainSegment. intros H. now apply andb_true_iff in H as [_ H]. Qed.

Lemma join_slashed (seg : string) (segs : list string) :
  join "/" (seg :: segs) = seg ++ slashed segs.
Proof.
  revert seg. induction segs as [|s rest IH]; intros seg.
  - simpl. now rewrite append_nil_r.
  - change (join "/" (seg :: s :: rest)) with (seg ++ "/" ++ join "/" (s :: rest)).
    now rewrite IH.
Qed.

Lemma render_slashed (segs : list string) :
  segs <> [] -> render segs = slashed segs.
Proof.
  destruct segs as [|s rest]; [congruence|]. intros _.
  unfold render. now rewrite join_slashed.
Qed.

Lemma slashed_app (a b : list string) : slashed (a ++ b) = slashed a ++ slashed b.
Proof.
  induction a as [|s a IH]; simpl; [reflexivity|].
  now rewrite IH, append_assoc.
Qed.

Lemma split_segment_slashed (rest : list string) :
  plainSegments rest = true ->
  forall s, noSlash s = true -> split "/" (s ++ slashed rest) = s :: rest.
Proof.
  induction rest as [|s2 rest IH]; intros Hgood s Hs.
  - simpl. rewrite append_nil_r. now apply split_noSlash.
  - simpl in Hgood. apply andb_true_iff in Hgood as [Hs2 Hrest].
    change (slashed (s2 :: rest)) with (String "/" (s2 ++ slashed rest)).
    rewrite split_app_sep, (split_noSlash _ Hs).
    now rewrite (IH Hrest _ (plainSegment_noSlash _ Hs2)).
Qed.

Lemma split_join (segs : list string) :
  plainSegments segs = true -> segs <> [] -> split "/" (join "/" segs) = segs.
Proof.
  destruct segs as [|s rest]; [congruence|]. intros Hgood _.
  simpl in Hgood. apply andb_true_iff in Hgood as [Hs Hrest].
  rewrite join_slashed. now apply split_segment_slashed; [|apply plainSegment_noSlash].
Qed.

(** ** Normalization *)

Lemma normalizeStep_plain (stack : list string) (seg : string) :
  plainSegment seg = true -> normalizeStep false stack seg = seg :: stack.
Proof.
  unfold plainSegment, normalizeStep. intros H.
  apply andb_true_iff in H as [H _]. apply andb_true_iff in H as [H H3].
  apply andb_true_iff in H as [H1 H2].
  apply negb_true_iff in H1, H2, H3. now rewrite H1, H2, H3.
Qed.

Lemma normalize_plain (segs : list string) :
  plainSegments segs = true ->
  forall stack, fold_left (normalizeStep false) segs stack = (rev segs ++ stack)%list.
Proof.
  induction segs as [|s rest IH]; intros Hgood stack; [reflexivity|].
  simpl in Hgood. apply andb_true_iff in Hgood as [Hs Hrest].
  cbn [fold_left rev]. rewrite (normalizeStep_plain _ _ Hs), (IH Hrest).
  now rewrite <- app_assoc.
Qed.

Lemma normalize_render (segs : list string) :
  plainSegments segs = true ->
  fold_left (normalizeStep false) (split "/" (render segs)) [] = rev segs.
Proof.
  intros Hgood. unfold render. change ("/" ++ join "/" segs) with (String "/" (join "/" segs)).
  cbn [split]. rewrite Ascii.eqb_refl. cbn [fold_left].
  change (normalizeStep false [] "") with (@nil string).
  destruct segs as [|s rest]; [reflexivity|].
  rewrite split_join by (assumption || discriminate).
  rewrite normalize_plain by assumption. now rewrite app_nil_r.
Qed.

Lemma normalizeSegments_render (segs : list string) :
  plainSegments segs = true -> normalizeSegments false (render segs) = segs.
Proof.
  intros Hgood. unfold normalizeSegments. rewrite normalize_render by assumption.
  apply rev_involutive.
Qed.

(** The components of a path resolved against the root: those of the
    root, on which the components of the relative path act. *)
Lemma resolveSegments_relative (segs : list string) (p : string) :
  plainSegments segs = true ->
  p <> "" -> isAbsolute p = false ->
  resolveSegments (render segs) p
  = rev (fold_left (normalizeStep false) (split "/" (p ++ "/")) (rev segs)).
Proof.
  intros Hgood Hne Habs. unfold resolveSegments, normalizeSegments.
  apply String.eqb_neq in Hne. rewrite Hne, Habs.
  change (render segs ++ "/" ++ p ++ "/") with (render segs ++ String "/" (p ++ "/")).
  rewrite split_app_sep, fold_left_app, normalize_render by assumption. reflexivity.
Qed.

(** Normalization keeps plain components only. *)
Lemma normalizeStep_keeps_plain (stack : list string) (seg : string) :
  noSlash seg = true -> plainSegments stack = true ->
  plainSegments (normalizeStep false stack seg) = true.
Proof.
  intros Hseg Hstack. unfold normalizeStep.
  destruct (seg =? "") eqn:E1; [assumption|].
  destruct (seg =? ".") eqn:E2; [assumption|]. cbn [orb].
  destruct (seg =? "..") eqn:E3.
  - destruct stack as [|top below]; [reflexivity|].
    destruct (top =? ".."); [assumption|].
    simpl in Hstack. now apply andb_true_iff in Hstack as [_ H].
  - simpl. rewrite Hstack, andb_true_r. unfold plainSegment.
    rewrite E1, E2, E3. exact Hseg.
Qed.

Lemma normalize_keeps_plain (segs : list string) :
  Forall (fun x => noSlash x = true) segs ->
  forall stack, plainSegments stack = true ->
  plainSegments (fold_left (normalizeStep false) segs stack) = true.
Proof.
  induction 1 as [|s rest Hs _ IH]; intros stack Hstack; [assumption|].
  cbn [fold_left]. apply IH. now apply normalizeStep_keeps_plain.
Qed.

Lemma plainSegments_rev (segs : list string) :
  plainSegments (rev segs) = plainSegments segs.
Proof.
  unfold plainSegments. induction segs as [|s rest IH]; [reflexivity|].
  simpl. rewrite forallb_app, IH. simpl. rewrite andb_true_r. apply andb_comm.
Qed.

Lemma normalizeSegments_plain (p : string) :
  plainSegments (normalizeSegments false p) = true.
Proof.
  unfold normalizeSegments. rewrite plainSegments_rev.
  apply normalize_keeps_plain; [apply split_components_noSlash | reflexivity].
Qed.

(** ** Prefixes *)

Lemma prefix_app (a b : string) : String.prefix a (a ++ b) = true.
Proof.
  induction a as [|c a IH]; [now destruct b|].
  cbn [append]. rewrite ToolNameFacts.prefix_cons, Ascii.eqb_refl. exact IH.
Qed.

Lemma prefix_app_cancel (a x y : string) :
  String.prefix (a ++ x) (a ++ y) = String.prefix x y.
Proof.
  induction a as [|c a IH]; [reflexivity|].
  cbn [append]. rewrite ToolNameFacts.prefix_cons, Ascii.eqb_refl. exact IH.
Qed.

Lemma render_app (segs more : list string) :
  segs <> [] -> render (segs ++ more) = render segs ++ slashed more.
Proof.
  intros Hne. rewrite !render_slashed; [apply slashed_app | assumption |].
  destruct segs; [congruence | discriminate].
Qed.

Lemma startsWith_inside (segs more : list string) :
  startsWith (render (segs ++ more)) (render segs) = true.
Proof.
  unfold startsWith. destruct segs as [|s rest].
  - unfold render at 1. simpl join. unfold render.
    change ("/" ++ "") with "/". change ("/" ++ join "/" ([] ++ more)) with
      (String "/" (join "/" more)).
    rewrite ToolNameFacts.prefix_cons, Ascii.eqb_refl. now destruct (join "/" more).
  - rewrite render_app by discriminate. apply prefix_app.
Qed.

Lemma stripCommon_app (segs more : list string) :
  stripCommon segs (segs ++ more) = ([], more).
Proof.
  induction segs as [|s rest IH]; simpl; [now destruct more|].
  now rewrite String.eqb_refl.
Qed.

Lemma relative_inside (segs more : list string) :
  plainSegments (segs ++ more) = true ->
  relative (render segs) (render (segs ++ more)) = join "/" more.
Proof.
  intros Hgood. unfold relative.
  assert (Hsegs : plainSegments segs = true).
  { unfold plainSegments in *. rewrite forallb_app in Hgood.
    now apply andb_true_iff in Hgood as [H _]. }
  rewrite !normalizeSegments_render, stripCommon_app by assumption. reflexivity.
Qed.

(** A component without separator that is a prefix of [etc/passwd] is a
    prefix of [etc]. *)
Lemma prefix_etc (last : string) :
  noSlash last = true ->
  String.prefix last "etc" = false -> String.prefix last "etc/passwd" = false.
Proof.
  intros Hslash H.
  destruct last as [|c1 [|c2 [|c3 [|c4 r]]]]; try discriminate H.
  - rewrite ToolNameFacts.prefix_cons in *. simpl String.prefix in *.
    now rewrite andb_true_r in *.
  - rewrite !ToolNameFacts.prefix_cons in *. simpl String.prefix in *.
    now rewrite !andb_true_r in *.
  - rewrite !ToolNameFacts.prefix_cons in *. simpl String.prefix in *.
    now rewrite !andb_true_r in *.
  - rewrite !ToolNameFacts.prefix_cons.
    unfold noSlash in Hslash. cbn [allUnits] in Hslash.
    apply andb_true_iff in Hslash as [_ Hslash]. apply andb_true_iff in Hslash as [_ Hslash].
    apply andb_true_iff in Hslash as [_ Hslash]. apply andb_true_iff in Hslash as [H4 _].
    apply negb_true_iff in H4. rewrite H4.
    now rewrite !andb_false_r.
Qed.

(** ** The three resolutions of the specification *)

Lemma resolve_sub_file (segs : list string) :
  plainSegments segs = true ->
  resolveSegments (render segs) "sub/f.txt" = (segs ++ ["sub"; "f.txt"])%list.
Proof.
  intros Hgood. rewrite resolveSegments_relative by (assumption || discriminate || reflexivity).
  change (split "/" ("sub/f.txt" ++ "/")) with ["sub"; "f.txt"; ""].
  cbn [fold_left].
  change (normalizeStep false (rev segs) "sub") with ("sub" :: rev segs).
  change (normalizeStep false ("sub" :: rev segs) "f.txt") with ("f.txt" :: "sub" :: rev segs).
  change (normalizeStep false ("f.txt" :: "sub" :: rev segs) "")
    with ("f.txt" :: "sub" :: rev segs).
  cbn [rev]. rewrite rev_involutive, <- app_assoc. reflexivity.
Qed.

Lemma resolve_parent_etc (init : list string) (last : string) :
  plainSegments (init ++ [last]) = true ->
  resolveSegments (render (init ++ [last])) "../etc/passwd"
  = (init ++ ["etc"; "passwd"])%list.
Proof.
  intros Hgood. rewrite resolveSegments_relative by (assumption || discriminate || reflexivity).
  change (split "/" ("../etc/passwd" ++ "/")) with [".."; "etc"; "passwd"; ""].
  rewrite rev_app_distr. cbn [rev app fold_left].
  assert (Hlast : (last =? "..") = false).
  { unfold plainSegments in Hgood. rewrite forallb_app in Hgood.
    apply andb_true_iff in Hgood as [_ H]. simpl in H. rewrite andb_true_r in H.
    unfold plainSegment in H. apply andb_true_iff in H as [H _].
    apply andb_true_iff in H as [_ H]. now apply negb_true_iff in H. }
  replace (normalizeStep false (last :: rev init) "..") with (rev init)
    by (unfold normalizeStep; cbn [String.eqb Ascii.eqb Bool.eqb orb]; now rewrite Hlast).
  change (normalizeStep false (rev init) "etc") with ("etc" :: rev init).
  change (normalizeStep false ("etc" :: rev init) "passwd")
    with ("passwd" :: "etc" :: rev init).
  change (normalizeStep false ("passwd" :: "etc" :: rev init) "")
    with ("passwd" :: "etc" :: rev init).
  cbn [rev]. rewrite rev_involutive, <- app_assoc. reflexivity.
Qed.

Lemma parent_etc_outside (init : list string) (last : string) :
  plainSegments (init ++ [last]) = true ->
  String.prefix last "etc" = false ->
  startsWith (render (init ++ ["etc"; "passwd"])) (render (init ++ [last])) = false.
Proof.
  intros Hgood Hlast. unfold startsWith.
  rewrite !render_slashed by (destruct init; discriminate).
  rewrite !slashed_app, prefix_app_cancel.
  change (slashed [last]) with (String "/" (last ++ "")).
  change (slashed ["etc"; "passwd"]) with (String "/" "etc/passwd").
  rewrite ToolNameFacts.prefix_cons, Ascii.eqb_refl, append_nil_r. cbn [andb].
  apply prefix_etc; [|assumption].
  unfold plainSegments in Hgood. rewrite forallb_app in Hgood.
  apply andb_true_iff in Hgood as [_ H]. simpl in H. rewrite andb_true_r in H.
  now apply plainSegment_noSlash.
Qed.

Lemma eugent_relative_blocked (rest : list string) :
  startsWith (join "/" (".eugent" :: rest)) (".eugent" ++ Path.sep)
  || String.eqb (join "/" (".eugent" :: rest)) ".eugent" = true.
Proof.
  destruct rest as [|s rest]; [reflexivity|].
  rewrite join_slashed. change (slashed (s :: rest)) with ("/" ++ s ++ slashed rest).
  rewrite <- append_assoc. unfold startsWith.
  change (".eugent" ++ sep) with (".eugent" ++ "/"). now rewrite prefix_app.
Qed.

End PathFacts.

(** C6.  Under the root [/a/proj] the input [../proj2/f.txt] resolves to
    [/a/proj2/f.txt], which is outside the root (its way from the root
    starts with two dots), and [validatePath] accepts it, because the text
    of the root is a prefix of the text of the path; with a file there,
    [validateFilePath] accepts it as well. *)
Theorem validatePath_accepts_sibling_directory :
  forall (statSync0 : string -> option Stats) (readFileSync0 : string -> option string),
    let w := mkWorld "/a/proj" statSync0 readFileSync0 in
    PathValidator.validatePath w "../proj2/f.txt" "read"
    = PathValidator.mkValidation true (Some "/a/proj2/f.txt") None None
    /\ insideRoot (cwd w) "/a/proj2/f.txt" = false
    /\ Path.relative (cwd w) "/a/proj2/f.txt" = "../proj2/f.txt"
    /\ JS.startsWith "/a/proj2/f.txt" (cwd w) = true
    /\ PathValidator.validateFilePath (fun _ => None)
         (mkWorld "/a/proj"
            (fun p => if String.eqb p "/a/proj2/f.txt" then Some (mkStats true false) else None)
            (fun _ => None))
         "../proj2/f.txt" "read" false
       = Some (PathValidator.mkValidation true (Some "/a/proj2/f.txt")
                 (Some (mkStats true false)) None).
Proof. intros statSync0 readFileSync0 w. repeat split; vm_compute; reflexivity. Qed.

(** C5 (counterexample).  Under the root [/etc] the input [../etc/passwd]
    resolves to [/etc/passwd], inside the root, and is valid. *)
Lemma validateFilePath_parent_inside_root :
  PathValidator.validateFilePath (fun _ => None) etcWorld "../etc/passwd" "read" false
  = Some (PathValidator.mkValidation true (Some "/etc/passwd")
            (Some (mkStats true false)) None)
  /\ insideRoot (cwd etcWorld) "/etc/passwd" = true.
Proof. split; vm_compute; reflexivity. Qed.

(** C5 (amended).  Under a root with the plain components [segs]:
    [sub/f.txt], when it is a file there and the ignore check passes, is
    valid with the absolute path of the root followed by [sub] and [f.txt];
    [../etc/passwd] is invalid with the error of containment whenever the
    last component of the root is not a prefix of [etc]; and any input that
    resolves to the [.eugent] directory of the root or below it is invalid
    with the error of the reserved directory, whatever exists there: the
    file system is not consulted before. *)
Theorem validateFilePath_composed :
  forall (newRegExp : string -> option (string -> bool)) (w : World)
         (segs : list string) (operation : string),
    plainSegments segs = true ->
    cwd w = Path.render segs ->
    (forall st includeGitignored,
       statSync w (Path.render (segs ++ ["sub"; "f.txt"])) = Some st ->
       isFile st = true ->
       (includeGitignored = false ->
        Gitignore.matchesGitignorePattern newRegExp "sub/f.txt"
          (Gitignore.loadGitignorePatterns w (cwd w)) = Some false) ->
       PathValidator.validateFilePath newRegExp w "sub/f.txt" operation includeGitignored
       = Some (PathValidator.mkValidation true
                 (Some (Path.render (segs ++ ["sub"; "f.txt"]))) (Some st) None)
       /\ (segs <> [] -> Path.render (segs ++ ["sub"; "f.txt"]) = cwd w ++ "/sub/f.txt"))
    /\ (forall init last includeGitignored,
          segs = (init ++ [last])%list ->
          String.prefix last "etc" = false ->
          PathValidator.validateFilePath newRegExp w "../etc/passwd" operation
            includeGitignored
          = Some (PathValidator.mkValidation false None None
                    (Some ("Access denied: Cannot " ++ operation
                           ++ " outside the current directory"))))
    /\ (forall inputPath rest includeGitignored,
          Path.resolveSegments (cwd w) inputPath = (segs ++ ".eugent" :: rest)%list ->
          PathValidator.validateFilePath newRegExp w inputPath operation includeGitignored
          = Some (PathValidator.mkValidation false None None
                    (Some ("Access denied: Cannot " ++ operation
                           ++ " .eugent configuration directory")))).
Proof.
  intros newRegExp w segs operation Hgood Hcwd.
  split; [|split].
  - intros st includeGitignored Hstat Hfile Hignore.
    assert (Hplain : plainSegments (segs ++ ["sub"; "f.txt"]) = true).
    { unfold plainSegments in *. rewrite forallb_app, Hgood. reflexivity. }
    split.
    + unfold PathValidator.validateFilePath, PathValidator.validateResourcePath,
        PathValidator.validatePath, Path.resolve.
      rewrite Hcwd, PathFacts.resolve_sub_file, PathFacts.startsWith_inside by assumption.
      cbn [negb PathValidator.valid PathValidator.absolutePath].
      unfold PathValidator.blockEugentDirectory.
      rewrite Hcwd, PathFacts.relative_inside by assumption.
      change (JS.join "/" ["sub"; "f.txt"]) with "sub/f.txt".
      change (JS.startsWith "sub/f.txt" (".eugent" ++ Path.sep) || ("sub/f.txt" =? ".eugent"))
        with false.
      cbn [fst]. unfold PathValidator.validateResourceType. rewrite Hstat, Hfile.
      cbn [negb PathValidator.valid PathValidator.stats].
      unfold PathValidator.checkGitignoreAccess.
      destruct includeGitignored; [reflexivity|].
      rewrite Hcwd, PathFacts.relative_inside by assumption.
      change (JS.join "/" ["sub"; "f.txt"]) with "sub/f.txt".
      rewrite <- Hcwd, (Hignore eq_refl). reflexivity.
    + intros Hne. rewrite Hcwd, PathFacts.render_app by assumption. reflexivity.
  - intros init last includeGitignored Hsegs Hlast. subst segs.
    unfold PathValidator.validateFilePath, PathValidator.validateResourcePath,
      PathValidator.validatePath, Path.resolve.
    rewrite Hcwd, PathFacts.resolve_parent_etc, PathFacts.parent_etc_outside by assumption.
    reflexivity.
  - intros inputPath rest includeGitignored Hres.
    assert (Hplain : plainSegments (segs ++ ".eugent" :: rest) = true).
    { rewrite <- Hres. apply PathFacts.normalizeSegments_plain. }
    unfold PathValidator.validateFilePath, PathValidator.validateResourcePath,
      PathValidator.validatePath, Path.resolve.
    rewrite Hres, Hcwd, PathFacts.startsWith_inside.
    cbn [negb PathValidator.valid PathValidator.absolutePath].
    unfold PathValidator.blockEugentDirectory.
    rewrite Hcwd, PathFacts.relative_inside, PathFacts.eugent_relative_blocked by assumption.
    reflexivity.
Qed.

(** A witness of the amended C5. *)
Lemma validateFilePath_composed_witness :
  PathValidator.validateFilePath (fun _ => None) projectWorld "sub/f.txt" "read" false
  = Some (PathValidator.mkValidation true (Some "/a/proj/sub/f.txt")
            (Some (mkStats true false)) None)
  /\ PathValidator.validateFilePath (fun _ => None) projectWorld "../etc/passwd" "read" false
     = Some (PathValidator.mkValidation false None None
               (Some "Access denied: Cannot read outside the current directory"))
  /\ PathValidator.validateFilePath (fun _ => None) projectWorld ".eugent/missing.json"
       "read" false
     = Some (PathValidator.mkValidation false None None
               (Some "Access denied: Cannot read .eugent configuration directory")).
Proof.
  destruct (validateFilePath_composed (fun _ => None) projectWorld ["a"; "proj"] "read"
              eq_refl eq_refl) as [Hsub [Hparent Heugent]].
  split; [|split].
  - exact (proj1 (Hsub (mkStats true false) false eq_refl eq_refl (fun _ => eq_refl))).
  - exact (Hparent ["a"] "proj" false eq_refl eq_refl).
  - exact (Heugent ".eugent/missing.json" ["missing.json"] false eq_refl).
Defined.

(* ===================================================================== *)
(** * Further properties: sanitizing, healing and validation together *)
(* ===================================================================== *)

Module TranscriptFacts.

Import ProofNotions.

Import JS MessageValidation ValidationFacts MapFacts HealFacts.

(** ** Sanitizing *)

Lemma checkMessage_sanitized (i : nat) (prevMsg : option Message) (msg : Message)
    (st : Scan) :
  checkMessage i
    (option_map (fun m => mkMessage (role m) (content m) (toolCalls m) (name m)
                            (toolCallId m) None) prevMsg)
    (mkMessage (role msg) (content msg) (toolCalls msg) (name msg) (toolCallId msg) None)
    st
  = checkMessage i prevMsg msg st.
Proof. destruct prevMsg; reflexivity. Qed.

Lemma scanMessages_sanitized (messages : list Message) :
  forall i prevMsg st,
    scanMessages i
      (option_map (fun m => mkMessage (role m) (content m) (toolCalls m) (name m)
                              (toolCallId m) None) prevMsg)
      (sanitizeMessagesForAPI messages) st
    = scanMessages i prevMsg messages st.
Proof.
  induction messages as [|m rest IH]; intros i prevMsg st; [reflexivity|].
  cbn [sanitizeMessagesForAPI map scanMessages].
  rewrite checkMessage_sanitized. apply (IH (S i) (Some m)).
Qed.

(** ** Unanswered ids of a concatenation *)

Lemma Unanswered_app (a b : list Message) (id : string) :
  Unanswered (a ++ b) id
  <-> Unanswered b id \/ (Unanswered a id /\ forall m, In m b -> ~ answers m id).
Proof.
  induction a as [|m a IH]; cbn [app].
  - split; [auto | intros [H|[H _]]; [exact H | now apply Unanswered_nil in H]].
  - rewrite !Unanswered_cons, IH. split.
    + intros [[Ha Hn]|[H|[H Hb]]].
      * right. split; [left; split; [exact Ha|] |].
        -- intros m' Hin. apply Hn, in_or_app. now left.
        -- intros m' Hin. apply Hn, in_or_app. now right.
      * now left.
      * right. split; [now right | exact Hb].
    + intros [H|[[[Ha Hn]|H] Hb]].
      * right. now left.
      * left. split; [exact Ha|]. intros m' Hin.
        apply in_app_or in Hin as [Hin|Hin]; auto.
      * right. right. split; assumption.
Qed.

Lemma Unanswered_no_announce (messages : list Message) (id : string) :
  (forall m, In m messages -> ~ announces m id) -> ~ Unanswered messages id.
Proof.
  intros H [before [m [after [-> [Ha _]]]]].
  apply (H m); [apply in_or_app; right; now left | exact Ha].
Qed.

(** ** The pending map of the healer and the pending set of the validator *)

Lemma announcesNamedB_announces (m : Message) (id : string) :
  announcesNamedB m id = true -> announces m id.
Proof.
  unfold announcesNamedB, announces. intros H.
  apply andb_true_iff in H as [Hrole Hex].
  apply existsb_exists in Hex as [tc [Hin Htc]]. unfold tracksCall in Htc.
  apply andb_true_iff in Htc as [Htc He]. apply andb_true_iff in Htc as [Hid _].
  apply String.eqb_eq in He. apply negb_true_iff, String.eqb_neq in Hid.
  split; [destruct (role m); try discriminate; reflexivity|].
  split; [congruence | eauto].
Qed.

Lemma answers_answersB (m : Message) (id : string) :
  id <> "" -> answers m id -> answersB m id = true.
Proof.
  intros Hne [Hrole Hid]. unfold answersB. rewrite Hrole, Hid.
  cbn [isRole truthyStr andb]. apply String.eqb_neq in Hne.
  now rewrite Hne, String.eqb_refl.
Qed.

Lemma fold_stepPending_unanswered (id : string) (messages : list Message) :
  forall b,
    fold_left (stepPending id) messages b = true ->
    Unanswered messages id
    \/ (b = true /\ forall m, In m messages -> answersB m id = false).
Proof.
  induction messages as [|m rest IH]; intros b H; cbn [fold_left] in H.
  - right. split; [exact H | intros ? []].
  - apply IH in H as [H|[Hstep Hrest]].
    + left. apply Unanswered_cons. now right.
    + unfold stepPending in Hstep.
      destruct (answersB m id) eqn:Ha; [discriminate|].
      destruct (announcesNamedB m id) eqn:Hn.
      * left. apply Unanswered_cons. left.
        apply announcesNamedB_announces in Hn. split; [exact Hn|].
        intros m' Hin Hans. destruct Hn as [_ [Hne _]].
        apply (answers_answersB _ _ Hne) in Hans. rewrite Hrest in Hans by assumption.
        discriminate.
      * right. split; [exact Hstep|]. intros m' [<-|Hin]; auto.
Qed.

(** Nothing is pending for the healer when nothing is for the validator. *)
Lemma no_unanswered_nothing_pending (messages : list Message) :
  unansweredIds messages = [] -> trackMessages 0 messages [] = [].
Proof.
  intros H. apply all_none_nil. intros id. apply isSome_false.
  rewrite trackMessages_some. cbn [mapGet isSome].
  destruct (fold_left (stepPending id) messages false) eqn:E; [|reflexivity].
  apply fold_stepPending_unanswered in E as [E|[E _]]; [|discriminate].
  apply unansweredIds_spec in E. rewrite H in E. destruct E.
Qed.

(** ** The length of a woven transcript *)

Lemma orphanBlock_length (p : Pending) (k : nat) :
  length (orphanBlock p k) = length (filter (fun e => Nat.eqb (snd (snd e)) k) p).
Proof. unfold orphanBlock. apply length_map. Qed.

Lemma filter_window_length (p : Pending) (i n : nat) :
  length (filter (fun e => Nat.eqb (snd (snd e)) i) p)
  + length (filter (fun e => (S i <=? snd (snd e))%nat && (snd (snd e) <? S i + n)%nat) p)
  = length (filter (fun e => (i <=? snd (snd e))%nat && (snd (snd e) <? i + S n)%nat) p).
Proof.
  induction p as [|[id [nm k]] p IH]; [reflexivity|].
  cbn [filter snd].
  destruct (Nat.eqb_spec k i) as [->|Hne].
  - replace (S i <=? i)%nat with false by (symmetry; apply Nat.leb_gt; lia).
    replace (i <=? i)%nat with true by (symmetry; apply Nat.leb_le; lia).
    replace (i <? i + S n)%nat with true by (symmetry; apply Nat.ltb_lt; lia).
    cbn [andb length]. rewrite <- IH. lia.
  - destruct (Nat.leb_spec (S i) k) as [Hle|Hgt].
    + replace (i <=? k)%nat with true by (symmetry; apply Nat.leb_le; lia).
      replace (k <? i + S n)%nat with (k <? S i + n)%nat
        by (destruct (Nat.ltb_spec k (S i + n)), (Nat.ltb_spec k (i + S n)); lia || reflexivity).
      cbn [andb]. destruct (k <? S i + n)%nat; cbn [length]; rewrite <- IH; lia.
    + replace (i <=? k)%nat with false by (symmetry; apply Nat.leb_gt; lia).
      cbn [andb]. exact IH.
Qed.

Lemma weave_length (p : Pending) (messages : list Message) :
  forall i,
    length (weave (orphanBlock p) i messages)
    = length messages
      + length (filter (fun e => (i <=? snd (snd e))%nat
                                 && (snd (snd e) <? i + length messages)%nat) p).
Proof.
  induction messages as [|m rest IH]; intros i; cbn [weave length].
  - rewrite Nat.add_0_r.
    replace (filter _ p) with (@nil (string * (string * nat))); [reflexivity|].
    symmetry. induction p as [|e p IHp]; [reflexivity|]. cbn [filter].
    destruct (Nat.leb_spec i (snd (snd e))), (Nat.ltb_spec (snd (snd e)) i);
      cbn [andb]; try lia; exact IHp.
  - rewrite length_app, IH, orphanBlock_length, <- filter_window_length. lia.
Qed.

Lemma filter_all {A : Type} (f : A -> bool) (l : list A) :
  (forall x, In x l -> f x = true) -> filter f l = l.
Proof.
  induction l as [|x l IH]; intros H; [reflexivity|]. cbn [filter].
  rewrite (H x) by now left. f_equal. apply IH. intros y Hy. apply H. now right.
Qed.

Lemma heal_length (messages : list Message) :
  length (healOrphanedToolCalls messages)
  = length messages + length (trackMessages 0 messages []).
Proof.
  rewrite heal_is_weave, weave_length. f_equal. f_equal.
  apply filter_all. intros e He.
  destruct (trackMessages_wellKeyed messages 0 [] (wellKeyed_nil 0)) as [_ Hall].
  destruct (Hall e He) as [_ Hlt]. cbn [Nat.add] in *.
  apply andb_true_iff. split; [apply Nat.leb_le; lia | apply Nat.ltb_lt; exact Hlt].
Qed.

(** ** What the healed transcript consists of *)

Lemma weave_In (blocks : nat -> list Message) (messages : list Message) (m : Message) :
  forall i, In m (weave blocks i messages) ->
            In m messages \/ exists j, In m (blocks j).
Proof.
  induction messages as [|m0 rest IH]; intros i H; cbn [weave] in H; [destruct H|].
  destruct H as [<-|H]; [left; now left|].
  apply in_app_or in H as [H|H]; [right; eauto|].
  apply IH in H as [H|H]; [left; now right | now right].
Qed.

Lemma orphanBlock_tool (p : Pending) (k : nat) (m : Message) :
  In m (orphanBlock p k) -> role m = tool.
Proof.
  unfold orphanBlock. intros H. apply in_map_iff in H as [e [<- _]]. reflexivity.
Qed.

Lemma heal_assistant_original (messages : list Message) (m : Message) :
  In m (healOrphanedToolCalls messages) -> role m = assistant -> In m messages.
Proof.
  rewrite heal_is_weave. intros H Hrole.
  apply weave_In in H as [H|[j H]]; [exact H|].
  apply orphanBlock_tool in H. congruence.
Qed.

(** ** Validity as the absence of errors and of unanswered ids *)

Lemma valid_iff (messages : list Message) :
  valid (validateMessages messages) = true
  <-> transcriptErrors 0 None messages = [] /\ unansweredIds messages = [].
Proof.
  unfold validateMessages. destruct messages as [|m rest]; [simpl; tauto|].
  cbn [valid]. fold (unansweredIds (m :: rest)).
  rewrite scanMessages_errs. cbn [errs app]. rewrite Nat.eqb_eq.
  destruct (unansweredIds (m :: rest)) as [|id ids]; cbn [length Nat.ltb Nat.leb].
  - rewrite length_zero_iff_nil. tauto.
  - rewrite length_app. cbn [length]. split; [lia | intros [_ H]; discriminate].
Qed.

(** ** Errors of single messages, whatever the index *)

Lemma last_cons_default {A : Type} (l : list A) :
  forall x d, last (x :: l) d = last l x.
Proof.
  induction l as [|y l IH]; intros x d; [reflexivity|].
  change (last (x :: y :: l) d) with (last (y :: l) d). now rewrite !IH.
Qed.

Lemma transcriptErrors_app (a b : list Message) :
  forall i prevMsg,
    transcriptErrors i prevMsg (a ++ b)
    = (transcriptErrors i prevMsg a
       ++ transcriptErrors (i + length a) (last (map Some a) prevMsg) b)%list.
Proof.
  induction a as [|m a IH]; intros i prevMsg.
  - cbn [app transcriptErrors length map last]. now rewrite Nat.add_0_r.
  - cbn [app transcriptErrors length]. rewrite IH, <- app_assoc.
    rewrite Nat.add_succ_r. cbn [Nat.add map]. now rewrite last_cons_default.
Qed.

Lemma callErrors_nil_shift (i j : nat) (tc : ToolCall) :
  callErrors i tc = [] <-> callErrors j tc = [].
Proof.
  unfold callErrors, checkToolCall, pushError.
  destruct (tcId tc =? ""), (tcName tc =? ""); cbn [errs app];
    split; intros H; try reflexivity; discriminate H.
Qed.

Lemma flat_map_nil {A B : Type} (f : A -> list B) (l : list A) :
  flat_map f l = [] <-> forall x, In x l -> f x = [].
Proof.
  induction l as [|x l IH]; cbn [flat_map].
  - split; [intros _ ? [] | reflexivity].
  - split.
    + intros H. apply app_eq_nil in H as [H1 H2]. intros y [<-|Hy]; [exact H1|].
      now apply IH.
    + intros H. rewrite (H x) by now left. apply IH. intros y Hy. apply H. now right.
Qed.

Lemma messageErrors_nil_shift (i j : nat) (p q : option Message) (m : Message) :
  prevRoleIs p user = prevRoleIs q user ->
  (messageErrors i p m = [] <-> messageErrors j q m = []).
Proof.
  intros Hprev. unfold messageErrors, checkMessage.
  destruct (role m) as [| | | |r].
  - destruct ((0 <? i)%nat && negb (prevRoleIs p system)),
             ((0 <? j)%nat && negb (prevRoleIs q system)),
             (negb (truthyStr (content m)));
      cbn [errs pushError pushWarning app]; split; intros H; try reflexivity; discriminate H.
  - rewrite Hprev.
    destruct (negb (truthyStr (content m)) || _), (prevRoleIs q user);
      cbn [errs pushError app]; split; intros H; try reflexivity; discriminate H.
  - rewrite !fold_checkToolCall_errs. cbn [errs app]. rewrite !flat_map_nil.
    split; intros H tc Htc; [apply (callErrors_nil_shift i j) | apply (callErrors_nil_shift i j)];
      now apply H.
  - destruct (negb (truthyStr (name m))), (toolCallId m) as [id|];
      cbn [errs pushError pushWarning app pending];
      try (destruct (id =? ""); cbn [errs pushError pushWarning app pending setHas existsb negb]);
      split; intros H; try reflexivity; discriminate H.
  - destruct r; cbn [errs pushError app]; split; intros H; discriminate H.
Qed.

Lemma transcriptErrors_nil_shift (messages : list Message) :
  forall i j p q,
    prevRoleIs p user = prevRoleIs q user ->
    (transcriptErrors i p messages = [] <-> transcriptErrors j q messages = []).
Proof.
  induction messages as [|m rest IH]; intros i j p q Hprev; cbn [transcriptErrors].
  - tauto.
  - split; intros H; apply app_eq_nil in H as [H1 H2].
    + rewrite (proj1 (messageErrors_nil_shift i j p q m Hprev) H1).
      apply (IH (S i) (S j) (Some m) (Some m) eq_refl). exact H2.
    + rewrite (proj2 (messageErrors_nil_shift i j p q m Hprev) H1).
      apply (IH (S i) (S j) (Some m) (Some m) eq_refl). exact H2.
Qed.

End TranscriptFacts.

(** X1.  The verdict of [validateMessages] does not depend on the display
    fields that [sanitizeMessagesForAPI] removes: the sanitized transcript
    gets the same result, errors and warnings included. *)
Theorem validateMessages_sanitized :
  forall messages : list Message,
    MessageValidation.validateMessages (MessageValidation.sanitizeMessagesForAPI messages)
    = MessageValidation.validateMessages messages.
Proof.
  intros [|m rest]; [reflexivity|].
  unfold MessageValidation.validateMessages.
  change (MessageValidation.sanitizeMessagesForAPI (m :: rest))
    with (mkMessage (role m) (content m) (toolCalls m) (name m) (toolCallId m) None
          :: MessageValidation.sanitizeMessagesForAPI rest) at 1.
  cbv iota beta.
  now rewrite (TranscriptFacts.scanMessages_sanitized (m :: rest) 0 None).
Qed.

(** X2.  A sanitized transcript yields no tool-call history: without
    [toolArgs] no tool message counts as a successful call, so
    [extractToolCallHistory] must read the transcript before
    [sanitizeMessagesForAPI] is applied. *)
Theorem extractToolCallHistory_sanitized :
  forall messages : list Message,
    ToolCallValidator.extractToolCallHistory
      (MessageValidation.sanitizeMessagesForAPI messages)
    = ToolCallValidator.mkHistory [] None.
Proof.
  intros messages. unfold ToolCallValidator.extractToolCallHistory.
  generalize (ToolCallValidator.mkHistory [] None).
  induction messages as [|m rest IH]; intros acc; [reflexivity|].
  cbn [MessageValidation.sanitizeMessagesForAPI map ToolCallValidator.extractLoop].
  replace (ToolCallValidator.successfulCall _) with (@None ToolCallValidator.HistoryEntry)
    by (unfold ToolCallValidator.successfulCall; cbn [role toolArgs];
        destruct (role m); reflexivity).
  apply IH.
Qed.

(** X3.  [healOrphanedToolCalls] inserts exactly one message per pending
    call, so the result is longer by the size of the map of pending calls;
    hence the test [healedMessages.length !== messages.length] of
    [runAgenticLoop] detects every change that healing makes. *)
Theorem healOrphanedToolCalls_length :
  forall messages : list Message,
    let healed := MessageValidation.healOrphanedToolCalls messages in
    length healed
    = length messages + length (MessageValidation.trackMessages 0 messages [])
    /\ (length healed = length messages <-> healed = messages).
Proof.
  intros messages healed. subst healed.
  split; [apply TranscriptFacts.heal_length|].
  split.
  - intros H. rewrite TranscriptFacts.heal_length in H.
    unfold MessageValidation.healOrphanedToolCalls.
    replace (length (MessageValidation.trackMessages 0 messages [])) with 0 by lia.
    reflexivity.
  - intros ->. reflexivity.
Qed.

(** X4.  A transcript in which [validateMessages] finds no unanswered
    tool call (in particular a valid one) is returned by
    [healOrphanedToolCalls] as it is. *)
Theorem healOrphanedToolCalls_fixes_answered :
  forall messages : list Message,
    unansweredIds messages = [] ->
    MessageValidation.healOrphanedToolCalls messages = messages.
Proof.
  intros messages H. unfold MessageValidation.healOrphanedToolCalls.
  now rewrite (TranscriptFacts.no_unanswered_nothing_pending messages H).
Qed.

Lemma healOrphanedToolCalls_fixes_answered_witness :
  unansweredIds [userText "list"; assistantCalls "" [mkToolCall "call-1" "list_files" "{}"];
                 toolResponse "list_files" "{}" "call-1" (JS.JObj [])] = []
  /\ MessageValidation.healOrphanedToolCalls
       [userText "list"; assistantCalls "" [mkToolCall "call-1" "list_files" "{}"];
        toolResponse "list_files" "{}" "call-1" (JS.JObj [])]
     = [userText "list"; assistantCalls "" [mkToolCall "call-1" "list_files" "{}"];
        toolResponse "list_files" "{}" "call-1" (JS.JObj [])].
Proof.
  split; [reflexivity|].
  apply (healOrphanedToolCalls_fixes_answered
           [userText "list"; assistantCalls "" [mkToolCall "call-1" "list_files" "{}"];
            toolResponse "list_files" "{}" "call-1" (JS.JObj [])]).
  reflexivity.
Defined.

(** X5.  When every tool call of the assistant messages has a function
    name, the healed transcript has no unanswered tool call for
    [validateMessages]: the error about tool calls without a response is
    not raised on it. *)
Theorem healed_transcript_has_no_unanswered_call :
  forall messages : list Message,
    (forall m tc, In m messages -> role m = assistant ->
                  In tc (announcedCalls m) -> tcName tc <> "") ->
    unansweredIds (MessageValidation.healOrphanedToolCalls messages) = [].
Proof.
  intros messages Hnamed.
  destruct (unansweredIds (MessageValidation.healOrphanedToolCalls messages))
    as [|id ids] eqn:E; [reflexivity|]. exfalso.
  assert (Hin : In id (unansweredIds (MessageValidation.healOrphanedToolCalls messages)))
    by (rewrite E; now left).
  apply ValidationFacts.unansweredIds_spec in Hin.
  destruct Hin as [before [m [after [Heq [[Hrole [Hne [tc [Htc Hid]]]] Hno]]]]].
  assert (Hm : In m messages).
  { apply TranscriptFacts.heal_assistant_original; [|exact Hrole].
    rewrite Heq. apply in_or_app. right. now left. }
  destruct (HealFacts.nothing_pending_answered _
              (HealFacts.heal_nothing_pending messages) before m after id Heq)
    as [m' [Hin' Hans]].
  - split; [exact Hrole|]. exists tc. repeat split; try assumption.
    exact (Hnamed m tc Hm Hrole Htc).
  - exact (Hno m' Hin' Hans).
Qed.

Lemma healed_transcript_has_no_unanswered_call_witness :
  unansweredIds
    (MessageValidation.healOrphanedToolCalls
       [userText "go";
        assistantCalls "" [mkToolCall "a" "list_files" "{}"; mkToolCall "b" "grep" "{}"];
        userText "and then"]) = [].
Proof.
  apply (healed_transcript_has_no_unanswered_call
           [userText "go";
            assistantCalls "" [mkToolCall "a" "list_files" "{}"; mkToolCall "b" "grep" "{}"];
            userText "and then"]).
  intros m tc Hm _ Htc.
  destruct Hm as [<-|[<-|[<-|[]]]]; cbn [announcedCalls toolCalls userText assistantCalls] in Htc.
  - destruct Htc.
  - destruct Htc as [<-|[<-|[]]]; discriminate.
  - destruct Htc.
Defined.

(* ===================================================================== *)
(** * Further properties: a turn of tool calls and the request after it *)
(* ===================================================================== *)

Module TurnFacts.

Import ProofNotions.

Import JS MessageValidation ValidationFacts TranscriptFacts.

(** ** [handleAbortError] *)

Lemma handleAbortError_shape (before : list Message) (lastMessage : Message) :
  exists calls,
    ErrorHandlers.handleAbortError (before ++ [lastMessage])
    = (before ++ lastMessage :: map ErrorHandlers.abortedResponse calls
              ++ [ErrorHandlers.interruptedMessage])%list
    /\ (role lastMessage = assistant -> calls = announcedCalls lastMessage).
Proof.
  unfold ErrorHandlers.handleAbortError. rewrite map_app. cbn [map]. rewrite last_last.
  destruct (isRole (role lastMessage) assistant
            && (0 <? length (announcedCalls lastMessage))%nat) eqn:E.
  - exists (announcedCalls lastMessage). rewrite <- app_assoc. split; reflexivity.
  - exists []. rewrite <- app_assoc. split; [reflexivity|].
    intros Hrole. rewrite Hrole in E. cbn [isRole andb] in E.
    destruct (announcedCalls lastMessage); [reflexivity | discriminate E].
Qed.

Lemma abortedResponse_no_announce (calls : list ToolCall) (id : string) (m : Message) :
  In m (map ErrorHandlers.abortedResponse calls ++ [ErrorHandlers.interruptedMessage]) ->
  ~ announces m id.
Proof.
  intros Hin [Hrole [_ [tc [Htc _]]]].
  apply in_app_or in Hin as [Hin|[<-|[]]].
  - apply in_map_iff in Hin as [c [<- _]]. discriminate Hrole.
  - destruct Htc.
Qed.

(** ** [executeToolCall] *)

Section Executor.

Variable syntaxErrorMessage : string -> string.
Variable allowedTools : list string.
Variable requestPermission : string -> JSON -> bool.
Variable executeTool : string -> JSON -> ToolExecutor.ToolContext -> string.

(** The message that the loop of [runAgenticLoop] pushes for a result. *)
Lemma executeToolCall_message (toolCall : ToolCall) (conversationHistory : list Message)
    (aborted : bool) (todos : JSON) (r : ToolExecutor.ToolExecutionResult) (todos1 : JSON) :
  ToolExecutor.executeToolCall syntaxErrorMessage allowedTools requestPermission executeTool
    toolCall conversationHistory aborted todos = Some (r, todos1) ->
  exists m,
    (if ToolExecutor.validationFailed r
     then ToolExecutor.validationErrorMessage r = Some m
          /\ ToolExecutor.permissionDenied r = false
     else ToolExecutor.toolMessage r = m)
    /\ role m = tool
    /\ name m = Some (tcName toolCall)
    /\ toolCallId m = Some (tcId toolCall).
Proof.
  unfold ToolExecutor.executeToolCall, ToolCallValidator.validateToolName,
    ToolCallValidator.parseToolArguments.
  destruct (negb (Regex.test ToolCallValidator.toolNamePattern (tcName toolCall))
            || includes (tcName toolCall) "..").
  - cbn. intros H. injection H as <- _. cbn. eexists. repeat split.
  - cbn [ToolCallValidator.valid negb ToolCallValidator.toolName].
    destruct (parse (tcArguments toolCall)) as [args|].
    + cbn [ToolCallValidator.valid negb ToolCallValidator.toolName
             ToolCallValidator.parsedArgs].
      destruct (ToolExecutor.formatToolStatusThrows (tcName toolCall) args); [discriminate|].
      destruct (ToolExecutor.requiresPermission (tcName toolCall) allowedTools);
        [destruct (negb (requestPermission (tcName toolCall) args))|];
        intros H; injection H as <- _; cbn; eexists; repeat split.
    + cbn. intros H. injection H as <- _. cbn. eexists. repeat split.
Qed.

(** ** The loop over the proposed calls *)

Variable signalAt : nat -> bool.
Variable signalAtDispatch : nat -> bool.

(** The loop leaves with one tool message for each call it went through,
    in their order. *)
Lemma runToolCalls_responses (calls : list ToolCall) :
  forall executed history todos history1 denied deniedName executed1 todos1,
    AgenticLoop.runToolCalls
      (ToolExecutor.executeToolCall syntaxErrorMessage allowedTools requestPermission
         executeTool)
      signalAt signalAtDispatch calls executed history todos
    = AgenticLoop.Left history1 denied deniedName executed1 todos1 ->
    exists responses,
      history1 = (history ++ responses)%list
      /\ map toolCallId responses
         = map (fun c => Some (tcId c)) (firstn (executed1 - executed) calls)
      /\ map name responses
         = map (fun c => Some (tcName c)) (firstn (executed1 - executed) calls)
      /\ (forall m, In m responses -> role m = tool)
      /\ executed <= executed1 <= executed + length calls
      /\ (denied = false -> executed1 = executed + length calls).
Proof.
  induction calls as [|c calls IH];
    intros executed history todos history1 denied deniedName executed1 todos1 H;
    cbn [AgenticLoop.runToolCalls] in H.
  - injection H as <- <- _ <- _. exists []. rewrite app_nil_r, Nat.sub_diag.
    cbn [length]. repeat split; try reflexivity; try lia. intros m [].
  - destruct (signalAt executed); [discriminate|].
    destruct (ToolExecutor.executeToolCall _ _ _ _ c history _ todos)
      as [[r t]|] eqn:E; [|discriminate].
    destruct (executeToolCall_message _ _ _ _ _ _ E) as [m [Hm [Hrole [Hname Hid]]]].
    destruct (ToolExecutor.validationFailed r).
    + destruct Hm as [Hm _]. rewrite Hm in H.
      apply IH in H as [responses [-> [Hids [Hnames [Hroles [Hle Hall]]]]]].
      exists (m :: responses). rewrite <- app_assoc.
      replace (executed1 - executed) with (S (executed1 - S executed)) by lia.
      cbn [firstn map length]. rewrite Hids, Hnames, Hid, Hname.
      repeat split; try reflexivity; try lia.
      * intros m' [<-|Hin]; auto.
      * intros Hd. specialize (Hall Hd). lia.
    + subst m. destruct (ToolExecutor.permissionDenied r).
      * injection H as <- <- _ <- _. exists [ToolExecutor.toolMessage r].
        replace (S executed - executed) with 1 by lia.
        cbn [firstn map length]. rewrite Hid, Hname.
        repeat split; try reflexivity; try lia; try discriminate.
        intros m' [<-|[]]. exact Hrole.
      * apply IH in H as [responses [-> [Hids [Hnames [Hroles [Hle Hall]]]]]].
        exists (ToolExecutor.toolMessage r :: responses). rewrite <- app_assoc.
        replace (executed1 - executed) with (S (executed1 - S executed)) by lia.
        cbn [firstn map length]. rewrite Hids, Hnames, Hid, Hname.
        repeat split; try reflexivity; try lia.
        -- intros m' [<-|Hin]; auto.
        -- intros Hd. specialize (Hall Hd). lia.
Qed.

End Executor.

(** ** Unanswered calls of a turn *)

Lemma tool_no_announce (responses : list Message) (id : string) (m : Message) :
  (forall m', In m' responses -> role m' = tool) -> In m responses -> ~ announces m id.
Proof.
  intros Hroles Hin [Hrole _]. rewrite (Hroles m Hin) in Hrole. discriminate.
Qed.

(** ** The system messages at the head of a request *)

Lemma systemText_errors (i : nat) (prevMsg : option Message) (cont : string) :
  messageErrors i prevMsg (Conversation.systemText cont) = []
  <-> cont <> "".
Proof.
  unfold messageErrors, checkMessage, Conversation.systemText.
  cbn [role content truthyStr]. rewrite negb_involutive.
  destruct (String.eqb_spec cont "") as [->|Hne];
    destruct ((0 <? i)%nat && negb (prevRoleIs prevMsg system));
    cbn [errs pushError pushWarning app]; split; intros H;
    try reflexivity; try discriminate H; try (exfalso; now apply H); assumption.
Qed.

Lemma systemText_quiet (cont id : string) :
  ~ announces (Conversation.systemText cont) id
  /\ ~ answers (Conversation.systemText cont) id.
Proof. split; intros [H _]; discriminate H. Qed.

Lemma systemTexts_errors (prefix : list Message) :
  (forall m, In m prefix -> exists cont, cont <> "" /\ m = Conversation.systemText cont) ->
  forall i prevMsg, transcriptErrors i prevMsg prefix = [].
Proof.
  induction prefix as [|m prefix IH]; intros H i prevMsg; cbn [transcriptErrors];
    [reflexivity|].
  destruct (H m (or_introl eq_refl)) as [cont [Hne ->]].
  rewrite (proj2 (systemText_errors i prevMsg cont) Hne). cbn [app].
  apply IH. intros m' Hin. apply H. now right.
Qed.

Lemma systemTexts_last (prefix : list Message) :
  (forall m, In m prefix -> exists cont, cont <> "" /\ m = Conversation.systemText cont) ->
  forall prevMsg, prevRoleIs prevMsg user = false ->
                  prevRoleIs (last (map Some prefix) prevMsg) user = false.
Proof.
  induction prefix as [|m prefix IH]; intros H prevMsg Hprev; [exact Hprev|].
  cbn [map]. rewrite last_cons_default. apply IH.
  - intros m' Hin. apply H. now right.
  - destruct (H m (or_introl eq_refl)) as [cont [_ ->]]. reflexivity.
Qed.

Lemma systemTexts_unanswered (prefix history : list Message) (id : string) :
  (forall m, In m prefix -> exists cont, m = Conversation.systemText cont) ->
  Unanswered (prefix ++ history) id <-> Unanswered history id.
Proof.
  intros H. rewrite Unanswered_app. split; [|auto].
  intros [Hu|[Hu _]]; [exact Hu|]. exfalso. revert Hu.
  apply Unanswered_no_announce. intros m Hin.
  destruct (H m Hin) as [cont ->]. apply systemText_quiet.
Qed.

Lemma assembleMessages_prefix (prompt : string) (memories context : option string)
    (history : list Message) (todos : option (list Conversation.Todo)) :
  exists prefix,
    Conversation.assembleMessages prompt memories context history todos
    = (Conversation.systemText prompt :: prefix ++ history)%list
    /\ forall m, In m prefix -> exists cont, cont <> "" /\ m = Conversation.systemText cont.
Proof.
  unfold Conversation.assembleMessages. cbn [app].
  set (a := match memories with
            | Some m => if negb (m =? "") then [_] else []
            | None => []
            end).
  set (b := match context with
            | Some c => if negb (c =? "") then [_] else []
            | None => []
            end).
  set (c := match todos with
            | Some (_ :: _ as l) => [_]
            | _ => []
            end).
  exists (a ++ b ++ c)%list. split; [now rewrite <- !app_assoc|].
  intros m Hin. apply in_app_or in Hin as [Hin|Hin]; [|apply in_app_or in Hin as [Hin|Hin]].
  - subst a. destruct memories as [x|]; [|destruct Hin].
    destruct (negb (x =? "")); [|destruct Hin]. destruct Hin as [<-|[]].
    eexists. split; [|reflexivity]. discriminate.
  - subst b. destruct context as [x|]; [|destruct Hin].
    destruct (negb (x =? "")); [|destruct Hin]. destruct Hin as [<-|[]].
    eexists. split; [|reflexivity]. discriminate.
  - subst c. destruct todos as [[|t l]|]; [destruct Hin| |destruct Hin].
    destruct Hin as [<-|[]]. eexists. split; [|reflexivity]. discriminate.
Qed.

(** The request is valid when the prompt is not empty and the history is
    valid. *)
Lemma assembleMessages_valid (prompt : string) (memories context : option string)
    (history : list Message) (todos : option (list Conversation.Todo)) :
  valid (validateMessages
           (Conversation.assembleMessages prompt memories context history todos)) = true
  <-> prompt <> "" /\ valid (validateMessages history) = true.
Proof.
  destruct (assembleMessages_prefix prompt memories context history todos)
    as [prefix [-> Hprefix]].
  rewrite !valid_iff.
  change (Conversation.systemText prompt :: prefix ++ history)%list
    with ((Conversation.systemText prompt :: prefix) ++ history)%list.
  assert (Hsys : forall m, In m (Conversation.systemText prompt :: prefix) ->
                           exists cont, m = Conversation.systemText cont).
  { intros m [<-|Hin]; [eauto|]. destruct (Hprefix m Hin) as [cont [_ ->]]. eauto. }
  assert (Hids : unansweredIds ((Conversation.systemText prompt :: prefix) ++ history) = []
                 <-> unansweredIds history = []).
  { split; intros H.
    - destruct (unansweredIds history) as [|id ids] eqn:E; [reflexivity|]. exfalso.
      assert (Hin : In id (unansweredIds history)) by (rewrite E; now left).
      apply (proj1 (unansweredIds_spec _ _)) in Hin.
      apply (proj2 (systemTexts_unanswered _ _ _ Hsys)) in Hin.
      apply (proj2 (unansweredIds_spec _ _)) in Hin.
      rewrite H in Hin. destruct Hin.
    - destruct (unansweredIds (_ ++ history)) as [|id ids] eqn:E; [reflexivity|]. exfalso.
      assert (Hin : In id (unansweredIds ((Conversation.systemText prompt :: prefix)
                                          ++ history))) by (rewrite E; now left).
      apply (proj1 (unansweredIds_spec _ _)) in Hin.
      apply (proj1 (systemTexts_unanswered _ _ _ Hsys)) in Hin.
      apply (proj2 (unansweredIds_spec _ _)) in Hin.
      rewrite H in Hin. destruct Hin. }
  rewrite Hids, transcriptErrors_app. cbn [transcriptErrors].
  rewrite (systemTexts_errors prefix Hprefix), app_nil_r.
  assert (Hshift : transcriptErrors
                     (0 + length (Conversation.systemText prompt :: prefix))
                     (last (map Some (Conversation.systemText prompt :: prefix)) None)
                     history = []
                   <-> transcriptErrors 0 None history = []).
  { apply transcriptErrors_nil_shift. cbn [map]. rewrite last_cons_default.
    now apply systemTexts_last. }
  split.
  - intros [H Hu]. apply app_eq_nil in H as [H1 H2].
    split; [now apply (systemText_errors 0 None) | split; [now apply Hshift | exact Hu]].
  - intros [Hp [H Hu]]. split; [|exact Hu].
    rewrite (proj2 (systemText_errors 0 None prompt) Hp). cbn [app]. now apply Hshift.
Qed.

End TurnFacts.

(** X6.  After [handleAbortError], no tool call announced by the last
    message of the transcript is left unanswered: an id that
    [validateMessages] still holds as unanswered was announced, and left
    unanswered, before the last message. *)
Theorem handleAbortError_answers_last_message :
  forall (messages : list Message) (id : string),
    In id (unansweredIds (ErrorHandlers.handleAbortError messages)) ->
    In id (unansweredIds (removelast messages)).
Proof.
  intros messages id H.
  apply ValidationFacts.unansweredIds_spec in H.
  apply ValidationFacts.unansweredIds_spec.
  destruct messages as [|m0 rest].
  - exfalso. revert H. apply TranscriptFacts.Unanswered_no_announce.
    intros m [<-|[]] [_ [_ [tc [[] _]]]].
  - destruct (@exists_last _ (m0 :: rest)) as [before [lastMessage Heq]]; [discriminate|].
    rewrite Heq in *. rewrite removelast_last.
    destruct (TurnFacts.handleAbortError_shape before lastMessage) as [calls [Hshape Hcalls]].
    rewrite Hshape in H.
    apply TranscriptFacts.Unanswered_app in H as [H|[H _]]; [|exact H].
    exfalso. apply ValidationFacts.Unanswered_cons in H as [[Ha Hn]|H].
    + destruct Ha as [Hrole [Hne [tc [Htc Hid]]]]. rewrite (Hcalls Hrole) in Hn.
      apply (Hn (ErrorHandlers.abortedResponse tc)).
      * apply in_or_app. left. now apply in_map.
      * split; [reflexivity|]. cbn. now rewrite Hid.
    + revert H. apply TranscriptFacts.Unanswered_no_announce.
      intros m Hin. now apply TurnFacts.abortedResponse_no_announce with calls.
Qed.

Lemma handleAbortError_answers_last_message_witness :
  In "call-1"
     (unansweredIds
        (removelast [assistantCalls "" [mkToolCall "call-1" "list_files" "{}"];
                     userText "stop";
                     assistantCalls "" [mkToolCall "call-2" "grep" "{}"]])).
Proof.
  apply (handleAbortError_answers_last_message
           [assistantCalls "" [mkToolCall "call-1" "list_files" "{}"];
            userText "stop";
            assistantCalls "" [mkToolCall "call-2" "grep" "{}"]] "call-1").
  vm_compute. now left.
Defined.

(** X7.  Whenever [executeToolCall] returns, the message that the loop of
    [runAgenticLoop] pushes for it (the validation error message after a
    failed validation, the tool message otherwise) is a tool message that
    carries the id and the function name of the call; and a failed
    validation is never reported as a denial. *)
Theorem executeToolCall_answers_the_call :
  forall (syntaxErrorMessage : string -> string) (allowedTools : list string)
         (requestPermission : string -> JS.JSON -> bool)
         (executeTool : string -> JS.JSON -> ToolExecutor.ToolContext -> string)
         (toolCall : ToolCall) (conversationHistory : list Message) (aborted : bool)
         (todos : JS.JSON) (r : ToolExecutor.ToolExecutionResult) (todos1 : JS.JSON),
    ToolExecutor.executeToolCall syntaxErrorMessage allowedTools requestPermission
      executeTool toolCall conversationHistory aborted todos = Some (r, todos1) ->
    exists m,
      (if ToolExecutor.validationFailed r
       then ToolExecutor.validationErrorMessage r = Some m
            /\ ToolExecutor.permissionDenied r = false
       else ToolExecutor.toolMessage r = m)
      /\ role m = tool
      /\ name m = Some (tcName toolCall)
      /\ toolCallId m = Some (tcId toolCall).
Proof.
  intros. eapply TurnFacts.executeToolCall_message. eassumption.
Qed.

Lemma executeToolCall_answers_the_call_witness :
  exists m,
    Some m = Some (toolResponse "list_files()"
                     (JS.stringifyObject
                        [("error",
                          JS.LStr (ToolCallValidator.invalidNameText "list_files()"))])
                     "call-1" (JS.JObj []))
    /\ role m = tool /\ name m = Some "list_files()" /\ toolCallId m = Some "call-1".
Proof.
  destruct (executeToolCall_answers_the_call
              (fun _ => "Unexpected token") [] (fun _ _ => true) (fun _ _ _ => "{}")
              (mkToolCall "call-1" "list_files()" "{}") [] false (JS.JArr [])
              (ToolExecutor.validationFailure
                 (Some (toolResponse "list_files()"
                          (JS.stringifyObject
                             [("error",
                               JS.LStr (ToolCallValidator.invalidNameText "list_files()"))])
                          "call-1" (JS.JObj []))))
              (JS.JArr []) eq_refl) as [m [[Hm _] H]].
  exists m. split; [symmetry; exact Hm | exact H].
Defined.

(** X8.  When the loop over the proposed tool calls of a turn runs to its
    end (no denial, no abort, nothing thrown), the history has gained
    exactly one tool message per call, in the order of the calls, each with
    the id and the function name of its call. *)
Theorem runToolCalls_one_response_per_call :
  forall (syntaxErrorMessage : string -> string) (allowedTools : list string)
         (requestPermission : string -> JS.JSON -> bool)
         (executeTool : string -> JS.JSON -> ToolExecutor.ToolContext -> string)
         (signalAt signalAtDispatch : nat -> bool)
         (calls : list ToolCall) (executed : nat) (history : list Message)
         (todos : JS.JSON) (history1 : list Message) (deniedName : string)
         (executed1 : nat) (todos1 : JS.JSON),
    AgenticLoop.runToolCalls
      (ToolExecutor.executeToolCall syntaxErrorMessage allowedTools requestPermission
         executeTool)
      signalAt signalAtDispatch calls executed history todos
    = AgenticLoop.Left history1 false deniedName executed1 todos1 ->
    exists responses,
      history1 = (history ++ responses)%list
      /\ map toolCallId responses = map (fun c => Some (tcId c)) calls
      /\ map name responses = map (fun c => Some (tcName c)) calls
      /\ (forall m, In m responses -> role m = tool)
      /\ executed1 = executed + length calls.
Proof.
  intros until todos1. intros H.
  apply TurnFacts.runToolCalls_responses in H
    as [responses [-> [Hids [Hnames [Hroles [_ Hall]]]]]].
  specialize (Hall eq_refl). exists responses.
  replace (executed1 - executed) with (length calls) in Hids, Hnames by lia.
  rewrite firstn_all in Hids, Hnames. repeat split; assumption.
Qed.

Lemma runToolCalls_one_response_per_call_witness :
  exists responses,
    [assistantCalls "" [mkToolCall "a" "list_files" "{}"; mkToolCall "b" "grep(" "{}"];
     toolResponse "list_files" "{}" "a" (JS.JObj []);
     toolResponse "grep("
       (JS.stringifyObject [("error", JS.LStr (ToolCallValidator.invalidNameText "grep("))])
       "b" (JS.JObj [])]
    = ([assistantCalls "" [mkToolCall "a" "list_files" "{}"; mkToolCall "b" "grep(" "{}"]]
       ++ responses)%list
    /\ map toolCallId responses = [Some "a"; Some "b"].
Proof.
  destruct (runToolCalls_one_response_per_call
              (fun _ => "Unexpected token") ["list_files"] (fun _ _ => true)
              (fun _ _ _ => "{}") (fun _ => false) (fun _ => false)
              [mkToolCall "a" "list_files" "{}"; mkToolCall "b" "grep(" "{}"] 0
              [assistantCalls "" [mkToolCall "a" "list_files" "{}";
                                  mkToolCall "b" "grep(" "{}"]]
              (JS.JArr [])
              [assistantCalls "" [mkToolCall "a" "list_files" "{}";
                                  mkToolCall "b" "grep(" "{}"];
               toolResponse "list_files" "{}" "a" (JS.JObj []);
               toolResponse "grep("
                 (JS.stringifyObject
                    [("error", JS.LStr (ToolCallValidator.invalidNameText "grep("))])
                 "b" (JS.JObj [])]
              "" 2 (JS.JArr []) eq_refl)
    as [responses [H1 [H2 _]]].
  exists responses. split; [exact H1 | exact H2].
Defined.

(** X9.  A turn of tool calls that runs to its end leaves no new
    unanswered call: every id that [validateMessages] holds as unanswered
    in the transcript committed after the turn was unanswered in the history
    before the assistant message of the turn. *)
Theorem completed_turn_leaves_no_unanswered_call :
  forall (syntaxErrorMessage : string -> string) (allowedTools : list string)
         (requestPermission : string -> JS.JSON -> bool)
         (executeTool : string -> JS.JSON -> ToolExecutor.ToolContext -> string)
         (signalAt signalAtDispatch : nat -> bool)
         (history : list Message) (content0 : string) (calls : list ToolCall)
         (todos : JS.JSON) (committed history1 : list Message) (deniedName : string)
         (todos1 : JS.JSON) (id : string),
    AgenticLoop.executeProposedCalls
      (ToolExecutor.executeToolCall syntaxErrorMessage allowedTools requestPermission
         executeTool)
      signalAt signalAtDispatch history content0 calls todos
    = AgenticLoop.Executed committed history1 false deniedName todos1 ->
    In id (unansweredIds committed) -> In id (unansweredIds history).
Proof.
  intros until id. intros H Hid.
  unfold AgenticLoop.executeProposedCalls in H.
  destruct (AgenticLoop.runToolCalls _ _ _ calls 0 _ todos)
    as [isAbort t|h denied dn executed t] eqn:E; [destruct isAbort; discriminate|].
  destruct (signalAt executed); [discriminate|].
  injection H as <- _ -> _ _.
  apply TurnFacts.runToolCalls_responses in E
    as [responses [-> [Hids [_ [Hroles [_ Hall]]]]]].
  specialize (Hall eq_refl). cbn [Nat.add] in Hall. subst executed.
  rewrite Nat.sub_0_r, firstn_all in Hids.
  apply ValidationFacts.unansweredIds_spec in Hid.
  apply ValidationFacts.unansweredIds_spec.
  rewrite <- app_assoc in Hid.
  apply TranscriptFacts.Unanswered_app in Hid as [Hid|[Hid _]]; [|exact Hid].
  exfalso. cbn [app] in Hid.
  apply ValidationFacts.Unanswered_cons in Hid as [[Ha Hn]|Hid].
  - destruct Ha as [_ [_ [tc [Htc Htcid]]]].
    cbn [announcedCalls toolCalls assistantCalls] in Htc.
    assert (Hin : In (Some id) (map toolCallId responses)).
    { rewrite Hids. apply in_map_iff. exists tc. split; [now rewrite Htcid | exact Htc]. }
    apply in_map_iff in Hin as [m [Hm Hin]].
    apply (Hn m Hin). split; [now apply Hroles | exact Hm].
  - revert Hid. apply TranscriptFacts.Unanswered_no_announce.
    intros m Hin. now apply TurnFacts.tool_no_announce with responses.
Qed.

Lemma completed_turn_leaves_no_unanswered_call_witness :
  In "old" (unansweredIds [assistantCalls "" [mkToolCall "old" "grep" "{}"]]).
Proof.
  apply (completed_turn_leaves_no_unanswered_call
           (fun _ => "Unexpected token") ["list_files"] (fun _ _ => true)
           (fun _ _ _ => "{}") (fun _ => false) (fun _ => false)
           [assistantCalls "" [mkToolCall "old" "grep" "{}"]] ""
           [mkToolCall "a" "list_files" "{}"] (JS.JArr [])
           [assistantCalls "" [mkToolCall "old" "grep" "{}"];
            assistantCalls "" [mkToolCall "a" "list_files" "{}"];
            toolResponse "list_files" "{}" "a" (JS.JObj [])]
           [assistantCalls "" [mkToolCall "old" "grep" "{}"];
            assistantCalls "" [mkToolCall "a" "list_files" "{}"];
            toolResponse "list_files" "{}" "a" (JS.JObj [])]
           "" (JS.JArr []) "old" eq_refl).
  vm_compute. now left.
Defined.

(** X10.  [buildMessagesForAPI] returns the messages exactly when the
    system prompt is not empty and the conversation history is valid for
    [validateMessages] by itself; otherwise it throws.  The system messages
    that it puts in front (memories, project context, tasks) never cause a
    rejection. *)
Theorem buildMessagesForAPI_accepts_valid_history :
  forall (getSystemPrompt : string) (loadMemories loadContext : option string)
         (conversationHistory : list Message) (todos : option (list Conversation.Todo)),
    (exists messages,
       Conversation.buildMessagesForAPI getSystemPrompt loadMemories loadContext
         conversationHistory todos
       = Conversation.Accepted messages)
    <-> getSystemPrompt <> ""
        /\ MessageValidation.valid (MessageValidation.validateMessages conversationHistory)
           = true.
Proof.
  intros. rewrite <- TurnFacts.assembleMessages_valid
    with (memories := loadMemories) (context := loadContext) (todos := todos).
  unfold Conversation.buildMessagesForAPI.
  destruct (MessageValidation.valid _); cbn [negb].
  - split; [reflexivity | eauto].
  - split; [intros [messages H]; discriminate H | discriminate].
Qed.

(** X11.  When the user denies a tool call that is not the last one of
    the turn, the calls after it get no tool message, and the request that
    [runAgenticLoop] builds next, to let the model react to the denial, is
    rejected by [buildMessagesForAPI]: with distinct non-empty ids the
    transcript has an unanswered call. *)
Theorem denial_before_last_call_rejects_request :
  forall (syntaxErrorMessage : string -> string) (allowedTools : list string)
         (requestPermission : string -> JS.JSON -> bool)
         (executeTool : string -> JS.JSON -> ToolExecutor.ToolContext -> string)
         (signalAt signalAtDispatch : nat -> bool)
         (getSystemPrompt : string) (loadMemories loadContext : option string)
         (history : list Message) (content0 : string) (calls : list ToolCall)
         (todos : JS.JSON) (history1 : list Message) (deniedName : string)
         (executed : nat) (todos1 : JS.JSON) (shownTodos : option (list Conversation.Todo)),
    AgenticLoop.runToolCalls
      (ToolExecutor.executeToolCall syntaxErrorMessage allowedTools requestPermission
         executeTool)
      signalAt signalAtDispatch calls 0 (history ++ [assistantCalls content0 calls]) todos
    = AgenticLoop.Left history1 true deniedName executed todos1 ->
    executed < length calls ->
    NoDup (map tcId calls) ->
    (forall c, In c calls -> tcId c <> "") ->
    exists message,
      Conversation.buildMessagesForAPI getSystemPrompt loadMemories loadContext
        history1 shownTodos
      = Conversation.Rejected message.
Proof.
  intros until shownTodos. intros H Hlt Hnodup Hids.
  apply TurnFacts.runToolCalls_responses in H
    as [responses [-> [Hresp [_ [Hroles _]]]]].
  rewrite Nat.sub_0_r in Hresp.
  assert (Hsplit : calls = (firstn executed calls ++ skipn executed calls)%list)
    by (symmetry; apply firstn_skipn).
  destruct (skipn executed calls) as [|c rest] eqn:Hskip.
  { exfalso. assert (Hl := length_skipn executed calls). rewrite Hskip in Hl.
    cbn [length] in Hl. lia. }
  assert (Hc : In c calls) by (rewrite Hsplit; apply in_or_app; right; now left).
  assert (Hfresh : ~ In (tcId c) (map tcId (firstn executed calls))).
  { rewrite Hsplit, map_app in Hnodup. cbn [map] in Hnodup.
    apply NoDup_remove_2 in Hnodup. intros Hin. apply Hnodup, in_or_app. now left. }
  assert (Hu : Unanswered ((history ++ [assistantCalls content0 calls]) ++ responses)
                          (tcId c)).
  { exists history, (assistantCalls content0 calls), responses.
    split; [now rewrite <- app_assoc|]. split.
    - split; [reflexivity|]. split; [now apply Hids|]. exists c. split; [exact Hc | reflexivity].
    - intros m Hin [_ Hm]. apply Hfresh.
      assert (Hin' : In (Some (tcId c)) (map toolCallId responses))
        by (apply in_map_iff; eauto).
      rewrite Hresp in Hin'. apply in_map_iff in Hin' as [c' [Heq Hc']].
      injection Heq as Heq. apply in_map_iff. eauto. }
  unfold Conversation.buildMessagesForAPI.
  destruct (MessageValidation.valid _) eqn:Hvalid; cbn [negb]; [|eauto].
  exfalso. apply TurnFacts.assembleMessages_valid in Hvalid as [_ Hvalid].
  apply TranscriptFacts.valid_iff in Hvalid as [_ Hvalid].
  apply ValidationFacts.unansweredIds_spec in Hu. rewrite Hvalid in Hu. destruct Hu.
Qed.

Lemma denial_before_last_call_rejects_request_witness :
  exists message,
    Conversation.buildMessagesForAPI "You are a coding assistant." None None
      [userText "replace the file";
       assistantCalls "" [mkToolCall "call-1" "delete_file" "{}";
                          mkToolCall "call-2" "write_file" "{}"];
       toolResponse "delete_file"
         (JS.stringifyObject [("error", JS.LStr "Permission denied by user. STOP IMMEDIATELY.")])
         "call-1" (JS.JObj [])]
      None
    = Conversation.Rejected message.
Proof.
  apply (denial_before_last_call_rejects_request
           (fun _ => "Unexpected token") [] (fun _ _ => false) (fun _ _ _ => "{}")
           (fun _ => false) (fun _ => false)
           "You are a coding assistant." None None
           [userText "replace the file"] ""
           [mkToolCall "call-1" "delete_file" "{}"; mkToolCall "call-2" "write_file" "{}"]
           (JS.JArr [])
           [userText "replace the file";
            assistantCalls "" [mkToolCall "call-1" "delete_file" "{}";
                               mkToolCall "call-2" "write_file" "{}"];
            toolResponse "delete_file"
              (JS.stringifyObject
                 [("error", JS.LStr "Permission denied by user. STOP IMMEDIATELY.")])
              "call-1" (JS.JObj [])]
           "delete_file" 1 (JS.JArr []) None eq_refl).
  - cbn [length]. lia.
  - cbn [map tcId]. constructor; [intros [H|[]]; discriminate H|].
    constructor; [intros []|constructor].
  - intros c [<-|[<-|[]]]; discriminate.
Defined.

(* ===================================================================== *)
(** * Further properties: the life of a spawned command *)
(* ===================================================================== *)

Module InvocationFacts.

Import JS ExecuteCommand CommandFacts.

(** ** The promise is resolved exactly when it holds a value *)

Lemma settle_resolved (v : string) (s : Invocation) :
  resolved (settle v s) = true /\ settled (settle v s) <> None.
Proof. unfold settle. cbn [resolved settled]. split; [reflexivity|]. now destruct (settled s). Qed.

Lemma clearTimer_same (s : Invocation) :
  resolved (clearTimer s) = resolved s /\ settled (clearTimer s) = settled s
  /\ killed (clearTimer s) = killed s /\ stdout (clearTimer s) = stdout s
  /\ stderr (clearTimer s) = stderr s.
Proof. unfold clearTimer. destruct (timeoutHandle s); repeat split. Qed.

Lemma handle_resolved_iff (cmd : string) (s : Invocation) (e : Event) :
  (resolved s = true <-> settled s <> None) ->
  (resolved (handle cmd s e) = true <-> settled (handle cmd s e) <> None).
Proof.
  intros H. destruct e; cbn [handle].
  - unfold abortHandler. destruct (childPid (setKilled s)); exact H.
  - destruct (killed s && negb (resolved s)); [|exact H].
    destruct (settle_resolved (abortedPayload abortedForcedText cmd (trim (stdout s))
                                 (trim (stderr s))) s). tauto.
  - destruct (childPid (setKilled s)); exact H.
  - match goal with |- context [if ?c then _ else _] => destruct c end; exact H.
  - match goal with |- context [if ?c then _ else _] => destruct c end; exact H.
  - destruct (clearTimer_same s) as [Hr [Hs _]].
    destruct (resolved (clearTimer s)) eqn:E;
      [cbv iota; split; [intros _; rewrite Hs; apply H; congruence | intros _; exact E]|].
    destruct (killed (clearTimer s));
      match goal with |- context [settle ?v ?t] => destruct (settle_resolved v t) end; tauto.
  - destruct (clearTimer_same s) as [Hr [Hs _]].
    destruct (resolved (clearTimer s)) eqn:E;
      [cbv iota; split; [intros _; rewrite Hs; apply H; congruence | intros _; exact E]|].
    match goal with |- context [settle ?v ?t] => destruct (settle_resolved v t) end; tauto.
Qed.

Lemma start_resolved_iff (args : ExecuteCommandArgs) (signal : option bool)
    (pid : option nat) :
  let s := executeExecuteCommand args signal pid in
  resolved s = true <-> settled s <> None.
Proof.
  unfold executeExecuteCommand.
  destruct signal as [[|]|]; [cbn; split; [discriminate | reflexivity] | |];
    destruct (0 <? _)%Z; cbn; split; (discriminate || congruence).
Qed.

Lemma fold_resolved_iff (cmd : string) (events : list Event) :
  forall s, (resolved s = true <-> settled s <> None) ->
            (resolved (fold_left (handle cmd) events s) = true
             <-> settled (fold_left (handle cmd) events s) <> None).
Proof.
  induction events as [|e events IH]; intros s H; [exact H|].
  cbn [fold_left]. apply IH. now apply handle_resolved_iff.
Qed.

Lemma run_resolved_iff (args : ExecuteCommandArgs) (signal : option bool)
    (pid : option nat) (events : list Event) :
  resolved (run args signal pid events) = true
  <-> settled (run args signal pid events) <> None.
Proof. unfold run. apply fold_resolved_iff, start_resolved_iff. Qed.

(** ** Closing *)

Lemma handle_close_settles (cmd : string) (s : Invocation) (e : Event) :
  (resolved s = true <-> settled s <> None) ->
  (exists code, e = Close code) \/ (exists message, e = Error message) ->
  settled (handle cmd s e) <> None.
Proof.
  intros H [[code ->]|[message ->]]; cbn [handle];
    destruct (clearTimer_same s) as [Hr [Hs _]];
    (destruct (resolved (clearTimer s)) eqn:E; [rewrite Hs; apply H; congruence|]).
  - destruct (killed (clearTimer s)); apply settle_resolved.
  - apply settle_resolved.
Qed.

Lemma fold_keeps_settled (cmd : string) (events : list Event) (s : Invocation) :
  settled s <> None -> settled (fold_left (handle cmd) events s) <> None.
Proof.
  destruct (settled s) as [v|] eqn:E; [intros _ | congruence].
  now rewrite (run_settled cmd events s v E).
Qed.

(** ** Output *)

Lemma length_append (a b : string) :
  String.length (a ++ b) = String.length a + String.length b.
Proof. induction a as [|c a IH]; cbn [append String.length]; [reflexivity | now rewrite IH]. Qed.



End InvocationFacts.

(** X12.  Once the child process closes or fails to start, the promise of
    [executeExecuteCommand] is resolved, whatever happened before and
    whatever happens afterwards. *)
Theorem close_resolves_the_command :
  forall (args : ExecuteCommand.ExecuteCommandArgs) (signal : option bool)
         (pid : option nat) (events : list ExecuteCommand.Event)
         (e : ExecuteCommand.Event),
    In e events ->
    (exists code, e = ExecuteCommand.Close code)
    \/ (exists message, e = ExecuteCommand.Error message) ->
    ExecuteCommand.resolved (ExecuteCommand.run args signal pid events) = true
    /\ exists payload,
         ExecuteCommand.settled (ExecuteCommand.run args signal pid events) = Some payload.
Proof.
  intros args signal pid events e Hin He.
  assert (H : ExecuteCommand.settled (ExecuteCommand.run args signal pid events) <> None).
  { apply in_split in Hin as [before [after ->]].
    unfold ExecuteCommand.run. rewrite fold_left_app. cbn [fold_left].
    apply InvocationFacts.fold_keeps_settled.
    apply InvocationFacts.handle_close_settles; [|exact He].
    apply InvocationFacts.fold_resolved_iff, InvocationFacts.start_resolved_iff. }
  split; [now apply InvocationFacts.run_resolved_iff|].
  destruct (ExecuteCommand.settled _) as [v|]; [eauto | congruence].
Qed.

Lemma close_resolves_the_command_witness :
  ExecuteCommand.resolved
    (ExecuteCommand.run (ExecuteCommand.mkArgs "ls" None) None (Some 7)
       [ExecuteCommand.StdoutData "a.txt"; ExecuteCommand.Close (Some 0%Z)]) = true.
Proof.
  apply (close_resolves_the_command (ExecuteCommand.mkArgs "ls" None) None (Some 7)
           [ExecuteCommand.StdoutData "a.txt"; ExecuteCommand.Close (Some 0%Z)]
           (ExecuteCommand.Close (Some 0%Z))).
  - right. now left.
  - left. now exists (Some 0%Z).
Defined.





(** X15.  [extractToolCallHistory] goes through the transcript message
    by message: the calls of a concatenation are those of its parts, in
    their order, and [lastToolCall] is the last entry of [allToolCalls]
    (absent exactly when there is none). *)
Theorem extractToolCallHistory_in_order :
  forall a b : list Message,
    ToolCallValidator.allToolCalls (ToolCallValidator.extractToolCallHistory (a ++ b))
    = (ToolCallValidator.allToolCalls (ToolCallValidator.extractToolCallHistory a)
       ++ ToolCallValidator.allToolCalls (ToolCallValidator.extractToolCallHistory b))%list
    /\ ToolCallValidator.lastToolCall (ToolCallValidator.extractToolCallHistory a)
       = last (map Some
                 (ToolCallValidator.allToolCalls
                    (ToolCallValidator.extractToolCallHistory a)))
              None.
Proof.
  assert (Hloop : forall (l : list Message) (acc : ToolCallValidator.ToolCallHistory),
            ToolCallValidator.allToolCalls (ToolCallValidator.extractLoop l acc)
            = (ToolCallValidator.allToolCalls acc
               ++ ToolCallValidator.allToolCalls
                    (ToolCallValidator.extractLoop l (ToolCallValidator.mkHistory [] None)))%list
            /\ ToolCallValidator.lastToolCall (ToolCallValidator.extractLoop l acc)
               = last (map Some
                         (ToolCallValidator.allToolCalls
                            (ToolCallValidator.extractLoop l
                               (ToolCallValidator.mkHistory [] None))))
                      (ToolCallValidator.lastToolCall acc)).
  { induction l as [|m l IH]; intros acc; cbn [ToolCallValidator.extractLoop].
    - cbn. now rewrite app_nil_r.
    - destruct (ToolCallValidator.successfulCall m) as [e|]; [|apply IH].
      destruct (IH (ToolCallValidator.mkHistory
                      (ToolCallValidator.allToolCalls acc ++ [e]) (Some e))) as [H1 H2].
      destruct (IH (ToolCallValidator.mkHistory ([] ++ [e]) (Some e))) as [H3 H4].
      cbn [ToolCallValidator.allToolCalls ToolCallValidator.lastToolCall app] in *.
      rewrite H1, H2, H3, <- app_assoc. split; [reflexivity|].
      cbn [app map]. now rewrite TranscriptFacts.last_cons_default. }
  intros a b. unfold ToolCallValidator.extractToolCallHistory. split.
  - rewrite ErrorKeyFacts.extractLoop_app. apply Hloop.
  - apply Hloop.
Qed.

(* ===================================================================== *)
(** * Further properties: which paths the validators let through *)
(* ===================================================================== *)

Module ContainmentFacts.

Import ProofNotions.

Import JS Path PathFacts.

Lemma noSlash_cons (c : ascii) (s : string) :
  noSlash (String c s) = negb (Ascii.eqb c "/") && noSlash s.
Proof. reflexivity. Qed.

Lemma noSlash_app (a b : string) : noSlash (a ++ b) = noSlash a && noSlash b.
Proof.
  induction a as [|c a IH]; [reflexivity|].
  cbn [append]. rewrite !noSlash_cons, IH. apply andb_assoc.
Qed.

Lemma slashed_boundary (segs : list string) : atBoundary (slashed segs).
Proof. destruct segs as [|s rest]; [now left | right; eexists; reflexivity]. Qed.

(** A component is a prefix of a component followed by a boundary only
    within that component. *)
Lemma prefix_component_cut (l : string) :
  noSlash l = true ->
  forall x t, atBoundary t -> String.prefix l (x ++ t) = String.prefix l x.
Proof.
  induction l as [|c l IH]; intros Hl x t Ht; [now destruct (x ++ t), x|].
  rewrite noSlash_cons in Hl. apply andb_true_iff in Hl as [Hc Hl].
  apply negb_true_iff in Hc.
  destruct x as [|d x]; cbn [append].
  - destruct Ht as [->|[t' ->]]; [reflexivity|].
    rewrite ToolNameFacts.prefix_cons, Hc. reflexivity.
  - rewrite !ToolNameFacts.prefix_cons. now rewrite (IH Hl).
Qed.

(** Two components followed by boundaries: the first text is a prefix of
    the second exactly when the components are equal and the rests are
    in the prefix relation. *)
Lemma prefix_component_eq (a : string) :
  noSlash a = true ->
  forall x r t,
    noSlash x = true -> atBoundary t ->
    (String.prefix (a ++ String "/" r) (x ++ t) = true
     <-> a = x /\ String.prefix (String "/" r) t = true).
Proof.
  induction a as [|c a IH]; intros Ha x r t Hx Ht.
  - destruct x as [|d x]; cbn [append].
    + split; [auto | now intros [_ H]].
    + rewrite noSlash_cons in Hx. apply andb_true_iff in Hx as [Hd _].
      apply negb_true_iff in Hd. rewrite ToolNameFacts.prefix_cons.
      rewrite Ascii.eqb_sym, Hd. split; [discriminate | intros [H _]; discriminate H].
  - rewrite noSlash_cons in Ha. apply andb_true_iff in Ha as [Hc Ha].
    apply negb_true_iff in Hc.
    destruct x as [|d x]; cbn [append].
    + destruct Ht as [->|[t' ->]].
      * split; [discriminate | intros [H _]; discriminate H].
      * rewrite ToolNameFacts.prefix_cons, Hc.
        split; [discriminate | intros [H _]; discriminate H].
    + rewrite noSlash_cons in Hx. apply andb_true_iff in Hx as [_ Hx].
      rewrite ToolNameFacts.prefix_cons, andb_true_iff, (IH Ha x r t Hx Ht), Ascii.eqb_eq.
      split.
      * intros [-> [-> H]]. auto.
      * intros [Heq H]. injection Heq as -> ->. auto.
Qed.

Lemma plainSegments_noSlash (segs : list string) (s : string) :
  plainSegments segs = true -> In s segs -> noSlash s = true.
Proof.
  unfold plainSegments. rewrite forallb_forall. intros H Hin.
  apply plainSegment_noSlash. now apply H.
Qed.

(** The text of a root is a prefix of the text of a path exactly when the
    path has the components of the root, the last one possibly longer. *)
Lemma prefix_slashed (l : string) (init : list string) :
  noSlash l = true ->
  plainSegments init = true ->
  forall p,
    plainSegments p = true ->
    (String.prefix (slashed init ++ String "/" l) (slashed p) = true
     <-> exists x more, p = (init ++ x :: more)%list /\ String.prefix l x = true).
Proof.
  intros Hl. induction init as [|a init IH]; intros Hinit p Hp.
  - cbn [slashed append app]. destruct p as [|x more].
    + cbn [slashed]. split; [discriminate | intros [x [more [H _]]]; discriminate H].
    + cbn [slashed]. change ("/" ++ x ++ slashed more) with (String "/" (x ++ slashed more)).
      rewrite ToolNameFacts.prefix_cons, Ascii.eqb_refl. cbn [andb].
      rewrite (prefix_component_cut l Hl x _ (slashed_boundary more)).
      split; [eauto | intros [x' [more' [Heq H]]]; now injection Heq as -> ->].
  - cbn [plainSegments forallb] in Hinit. apply andb_true_iff in Hinit as [Ha Hinit].
    apply plainSegment_noSlash in Ha.
    destruct p as [|x more].
    + cbn [slashed]. split.
      * change (slashed (a :: init) ++ String "/" l)
          with (String "/" ((a ++ slashed init) ++ String "/" l)). discriminate.
      * intros [x [more [H _]]]. discriminate H.
    + cbn [plainSegments forallb] in Hp. apply andb_true_iff in Hp as [Hx Hp].
      apply plainSegment_noSlash in Hx.
      change (slashed (a :: init) ++ String "/" l)
        with (String "/" ((a ++ slashed init) ++ String "/" l)).
      change (slashed (x :: more)) with (String "/" (x ++ slashed more)).
      rewrite ToolNameFacts.prefix_cons, Ascii.eqb_refl. cbn [andb].
      rewrite append_assoc.
      assert (Hr : exists r, slashed init ++ String "/" l = String "/" r).
      { destruct init as [|b init]; eexists; reflexivity. }
      destruct Hr as [r Hr]. rewrite Hr.
      rewrite (prefix_component_eq a Ha x r _ Hx (slashed_boundary more)).
      rewrite <- Hr, (IH Hinit more Hp). split.
      * intros [-> [x' [more' [-> H]]]]. exists x', more'. auto.
      * intros [x' [more' [Heq H]]]. injection Heq as -> ->. eauto.
Qed.

End ContainmentFacts.

(** X16.  Under a root with the plain components [init] and then [l],
    [validatePath] accepts an input exactly when the resolved path has the
    components [init] and then a component of which [l] is a prefix: the
    paths in the root (that component is [l]) and the paths in a sibling
    whose name begins with the name of the root; nothing else passes, and
    nothing in the root is refused. *)
Theorem validatePath_accepts_exactly :
  forall (w : World) (init : list string) (l inputPath operation : string),
    plainSegments (init ++ [l]) = true ->
    cwd w = Path.render (init ++ [l]) ->
    (PathValidator.valid (PathValidator.validatePath w inputPath operation) = true
     <-> exists x more,
           Path.resolveSegments (cwd w) inputPath = (init ++ x :: more)%list
           /\ String.prefix l x = true).
Proof.
  intros w init l inputPath operation Hgood Hcwd.
  unfold PathValidator.validatePath, Path.resolve.
  set (p := Path.resolveSegments (cwd w) inputPath).
  assert (Hp : plainSegments p = true) by apply PathFacts.normalizeSegments_plain.
  assert (Hsplit : plainSegments init = true /\ ProofNotions.noSlash l = true).
  { unfold plainSegments in Hgood. rewrite forallb_app in Hgood.
    apply andb_true_iff in Hgood as [H1 H2]. split; [exact H1|].
    cbn [forallb] in H2. rewrite andb_true_r in H2.
    now apply PathFacts.plainSegment_noSlash. }
  destruct Hsplit as [Hinit Hl].
  assert (Hroot : cwd w = ProofNotions.slashed init ++ String "/" l).
  { rewrite Hcwd, PathFacts.render_slashed by (destruct init; discriminate).
    rewrite PathFacts.slashed_app. cbn [ProofNotions.slashed]. now rewrite append_nil_r. }
  rewrite <- (ContainmentFacts.prefix_slashed l init Hl Hinit p Hp), <- Hroot.
  destruct p as [|x more] eqn:Ep.
  - (* the resolved path is the file-system root *)
    change (Path.render []) with "/". cbn [ProofNotions.slashed].
    unfold JS.startsWith. rewrite Hroot.
    destruct init as [|a init]; cbn [ProofNotions.slashed append].
    + rewrite ToolNameFacts.prefix_cons.
      destruct l as [|c l]; [vm_compute in Hgood; discriminate Hgood|].
      cbn. tauto.
    + cbn. destruct ((a ++ ProofNotions.slashed init) ++ String "/" l) eqn:E.
      * apply append_eq_nil in E as [_ E]. discriminate E.
      * cbn. tauto.
  - rewrite PathFacts.render_slashed by discriminate.
    unfold JS.startsWith.
    destruct (String.prefix (cwd w) (ProofNotions.slashed (x :: more)));
      cbn [negb PathValidator.valid]; tauto.
Qed.

Lemma validatePath_accepts_exactly_witness :
  PathValidator.valid (PathValidator.validatePath projectWorld "../proj2/f.txt" "read")
  = true
  /\ PathValidator.valid (PathValidator.validatePath projectWorld "sub/f.txt" "read")
     = true.
Proof.
  split.
  - apply (proj2 (validatePath_accepts_exactly projectWorld ["a"] "proj" "../proj2/f.txt"
                    "read" eq_refl eq_refl)).
    exists "proj2", ["f.txt"]. split; reflexivity.
  - apply (proj2 (validatePath_accepts_exactly projectWorld ["a"] "proj" "sub/f.txt"
                    "read" eq_refl eq_refl)).
    exists "proj", ["sub"; "f.txt"]. split; reflexivity.
Defined.

(** X17.  For a path in the root, [blockEugentDirectory] blocks exactly
    when the first component below the root is [.eugent]: the directory
    itself and everything in it, and no other name (such as
    [.eugent-backup], or a directory [.eugent] further down). *)
Theorem blockEugentDirectory_blocks_exactly :
  forall (w : World) (segs more : list string) (operation : string),
    plainSegments (segs ++ more) = true ->
    cwd w = Path.render segs ->
    (fst (PathValidator.blockEugentDirectory w (Path.render (segs ++ more)) operation)
     = true
     <-> exists rest, more = ".eugent" :: rest).
Proof.
  intros w segs more operation Hgood Hcwd.
  unfold PathValidator.blockEugentDirectory.
  rewrite Hcwd, PathFacts.relative_inside by assumption.
  assert (Hfst : forall (c : bool) (e : option string),
            fst (if c then (true, e) else (false, None)) = c) by (intros [|] e; reflexivity).
  rewrite Hfst. split.
  - destruct more as [|s rest]; [discriminate|].
    assert (Hs : ProofNotions.noSlash s = true).
    { apply (ContainmentFacts.plainSegments_noSlash _ _ Hgood).
      apply in_or_app. right. now left. }
    rewrite PathFacts.join_slashed. intros H. apply orb_true_iff in H as [H|H].
    + unfold JS.startsWith in H.
      change (".eugent" ++ Path.sep) with (".eugent" ++ String "/" "") in H.
      apply (ContainmentFacts.prefix_component_eq ".eugent" eq_refl s "" _ Hs
               (ContainmentFacts.slashed_boundary rest)) in H as [<- _]. eauto.
    + apply String.eqb_eq in H. destruct rest as [|s2 rest].
      * cbn [ProofNotions.slashed] in H. rewrite append_nil_r in H. subst s. eauto.
      * exfalso. assert (Hn : ProofNotions.noSlash (s ++ ProofNotions.slashed (s2 :: rest))
                              = true) by (rewrite H; reflexivity).
        rewrite ContainmentFacts.noSlash_app in Hn.
        apply andb_true_iff in Hn as [_ Hn]. discriminate Hn.
  - intros [rest ->]. apply PathFacts.eugent_relative_blocked.
Qed.

Lemma blockEugentDirectory_blocks_exactly_witness :
  fst (PathValidator.blockEugentDirectory projectWorld "/a/proj/.eugent/config.json"
         "read") = true.
Proof.
  apply (proj2 (blockEugentDirectory_blocks_exactly projectWorld ["a"; "proj"]
                  [".eugent"; "config.json"] "read" eq_refl eq_refl)).
  now exists ["config.json"].
Defined.

(* ===================================================================== *)
(** * Further properties: what the agent serializes, it reads back *)
(* ===================================================================== *)

Module StringifyFacts.

Import ProofNotions.

Import JS.

(** ** Quoted strings *)

(** One unit of a quoted string is read back as that unit. *)
Lemma readStringBody_unit (c : ascii) (fuel : nat) (rest acc : string) :
  readStringBody (S fuel) (escapeUnit c ++ rest) acc
  = readStringBody fuel rest (acc ++ String c EmptyString).
Proof.
  destruct c as [b0 b1 b2 b3 b4 b5 b6 b7];
    destruct b0, b1, b2, b3, b4, b5, b6, b7; reflexivity.
Qed.

Lemma readStringBody_escape (s : string) :
  forall fuel acc rest,
    String.length s < fuel ->
    readStringBody fuel (escape s ++ String dquote rest) acc = Some (acc ++ s, rest).
Proof.
  induction s as [|c s IH]; intros fuel acc rest Hfuel.
  - destruct fuel as [|fuel]; [cbn in Hfuel; lia|]. cbn. now rewrite append_nil_r.
  - destruct fuel as [|fuel]; [cbn in Hfuel; lia|].
    cbn [escape]. rewrite append_assoc, readStringBody_unit.
    rewrite IH by (cbn [String.length] in Hfuel; lia).
    now rewrite append_assoc.
Qed.

Lemma escapeUnit_cons (c : ascii) : exists d t, escapeUnit c = String d t.
Proof.
  unfold escapeUnit.
  repeat match goal with |- context [if ?b then _ else _] => destruct b end;
    eexists; eexists; reflexivity.
Qed.

Lemma escape_length (s rest : string) :
  String.length s <= String.length (escape s ++ rest).
Proof.
  induction s as [|c s IH]; [cbn; lia|].
  cbn [escape String.length]. destruct (escapeUnit_cons c) as [d [t ->]].
  rewrite append_assoc. cbn [append String.length].
  rewrite InvocationFacts.length_append. lia.
Qed.

Lemma readString_quoted (s rest : string) :
  readString (escape s ++ String dquote rest) = Some (s, rest).
Proof.
  unfold readString. rewrite readStringBody_escape; [reflexivity|].
  pose proof (escape_length s (String dquote rest)). lia.
Qed.

(** ** Integers *)

Lemma readDigits_uint (d : Decimal.uint) :
  forall (acc cnt : nat) (rest : string),
    (forall c r, rest = String c r -> digitVal c = None) ->
    readDigits (NilEmpty.string_of_uint d ++ rest) (Z.of_nat acc) cnt
    = (Z.of_nat (Nat.of_uint_acc d acc), cnt + Decimal.nb_digits d, rest).
Proof.
  induction d as [|d IH|d IH|d IH|d IH|d IH|d IH|d IH|d IH|d IH|d IH];
    intros acc cnt rest Hrest;
    cbn [NilEmpty.string_of_uint append Nat.of_uint_acc Decimal.nb_digits].
  - rewrite Nat.add_0_r. destruct rest as [|c r]; [reflexivity|].
    cbn [readDigits]. now rewrite (Hrest c r eq_refl).
  - cbn [readDigits]. change (digitVal "0") with (Some 0%Z). cbv iota beta.
    replace (Z.of_nat acc * 10 + 0)%Z with (Z.of_nat (Nat.tail_mul 10 acc))
      by (rewrite Nat.tail_mul_spec; lia).
    rewrite IH by assumption. now rewrite Nat.add_succ_r.
  - cbn [readDigits]. change (digitVal "1") with (Some 1%Z). cbv iota beta.
    replace (Z.of_nat acc * 10 + 1)%Z with (Z.of_nat (1 + Nat.tail_mul 10 acc))
      by (rewrite Nat.tail_mul_spec; lia).
    rewrite IH by assumption. now rewrite Nat.add_succ_r.
  - cbn [readDigits]. change (digitVal "2") with (Some 2%Z). cbv iota beta.
    replace (Z.of_nat acc * 10 + 2)%Z with (Z.of_nat (2 + Nat.tail_mul 10 acc))
      by (rewrite Nat.tail_mul_spec; lia).
    rewrite IH by assumption. now rewrite Nat.add_succ_r.
  - cbn [readDigits]. change (digitVal "3") with (Some 3%Z). cbv iota beta.
    replace (Z.of_nat acc * 10 + 3)%Z with (Z.of_nat (3 + Nat.tail_mul 10 acc))
      by (rewrite Nat.tail_mul_spec; lia).
    rewrite IH by assumption. now rewrite Nat.add_succ_r.
  - cbn [readDigits]. change (digitVal "4") with (Some 4%Z). cbv iota beta.
    replace (Z.of_nat acc * 10 + 4)%Z with (Z.of_nat (4 + Nat.tail_mul 10 acc))
      by (rewrite Nat.tail_mul_spec; lia).
    rewrite IH by assumption. now rewrite Nat.add_succ_r.
  - cbn [readDigits]. change (digitVal "5") with (Some 5%Z). cbv iota beta.
    replace (Z.of_nat acc * 10 + 5)%Z with (Z.of_nat (5 + Nat.tail_mul 10 acc))
      by (rewrite Nat.tail_mul_spec; lia).
    rewrite IH by assumption. now rewrite Nat.add_succ_r.
  - cbn [readDigits]. change (digitVal "6") with (Some 6%Z). cbv iota beta.
    replace (Z.of_nat acc * 10 + 6)%Z with (Z.of_nat (6 + Nat.tail_mul 10 acc))
      by (rewrite Nat.tail_mul_spec; lia).
    rewrite IH by assumption. now rewrite Nat.add_succ_r.
  - cbn [readDigits]. change (digitVal "7") with (Some 7%Z). cbv iota beta.
    replace (Z.of_nat acc * 10 + 7)%Z with (Z.of_nat (7 + Nat.tail_mul 10 acc))
      by (rewrite Nat.tail_mul_spec; lia).
    rewrite IH by assumption. now rewrite Nat.add_succ_r.
  - cbn [readDigits]. change (digitVal "8") with (Some 8%Z). cbv iota beta.
    replace (Z.of_nat acc * 10 + 8)%Z with (Z.of_nat (8 + Nat.tail_mul 10 acc))
      by (rewrite Nat.tail_mul_spec; lia).
    rewrite IH by assumption. now rewrite Nat.add_succ_r.
  - cbn [readDigits]. change (digitVal "9") with (Some 9%Z). cbv iota beta.
    replace (Z.of_nat acc * 10 + 9)%Z with (Z.of_nat (9 + Nat.tail_mul 10 acc))
      by (rewrite Nat.tail_mul_spec; lia).
    rewrite IH by assumption. now rewrite Nat.add_succ_r.
Qed.

(** The decimal text of a number has no leading zero. *)
Lemma to_uint_zero_head (n : nat) (d : Decimal.uint) :
  Nat.to_uint n = Decimal.D0 d -> d = Decimal.Nil.
Proof.
  intros H.
  assert (Hnorm : Decimal.unorm (Decimal.D0 d) = Decimal.D0 d).
  { rewrite <- H, <- DecimalNat.Unsigned.to_of, DecimalNat.Unsigned.of_to. reflexivity. }
  destruct d as [|d|d|d|d|d|d|d|d|d|d]; [reflexivity| | | | | | | | | |];
    exfalso;
    match type of Hnorm with
    | Decimal.unorm (Decimal.D0 ?u) = _ =>
        assert (Hne : u <> Decimal.Nil) by discriminate;
        pose proof (DecimalFacts.nb_digits_unorm u Hne) as Hlen;
        change (Decimal.unorm (Decimal.D0 u)) with (Decimal.unorm u) in Hnorm;
        rewrite Hnorm in Hlen; cbn [Decimal.nb_digits] in Hlen; lia
    end.
Qed.

Lemma readInt_nat (n : nat) (rest : string) :
  (forall c r, rest = String c r -> digitVal c = None) ->
  readInt (natToString n ++ rest) = Some (Z.of_nat n, rest).
Proof.
  intros Hrest. unfold natToString.
  pose proof (DecimalNat.Unsigned.of_to n) as Hval. unfold Nat.of_uint in Hval.
  destruct (Nat.to_uint n) as [|d|d|d|d|d|d|d|d|d|d] eqn:E;
    cbn [NilEmpty.string_of_uint append readInt].
  - exfalso. assert (H : Nat.to_uint (Nat.of_uint (Nat.to_uint n)) = Nat.to_uint n)
      by now rewrite DecimalNat.Unsigned.of_to.
    rewrite DecimalNat.Unsigned.to_of, E in H. discriminate H.
  - apply to_uint_zero_head in E. subst d. cbn in Hval. subst n. reflexivity.
  - change (digitVal "1") with (Some 1%Z). cbv iota beta.
    change 1%Z with (Z.of_nat 1).
    rewrite (readDigits_uint d 1 0 rest Hrest). cbn [Nat.of_uint_acc] in Hval.
    change (Nat.tail_mul 10 0) with 0 in Hval. now rewrite Hval.
  - change (digitVal "2") with (Some 2%Z). cbv iota beta.
    change 2%Z with (Z.of_nat 2).
    rewrite (readDigits_uint d 2 0 rest Hrest). cbn [Nat.of_uint_acc] in Hval.
    change (Nat.tail_mul 10 0) with 0 in Hval. now rewrite Hval.
  - change (digitVal "3") with (Some 3%Z). cbv iota beta.
    change 3%Z with (Z.of_nat 3).
    rewrite (readDigits_uint d 3 0 rest Hrest). cbn [Nat.of_uint_acc] in Hval.
    change (Nat.tail_mul 10 0) with 0 in Hval. now rewrite Hval.
  - change (digitVal "4") with (Some 4%Z). cbv iota beta.
    change 4%Z with (Z.of_nat 4).
    rewrite (readDigits_uint d 4 0 rest Hrest). cbn [Nat.of_uint_acc] in Hval.
    change (Nat.tail_mul 10 0) with 0 in Hval. now rewrite Hval.
  - change (digitVal "5") with (Some 5%Z). cbv iota beta.
    change 5%Z with (Z.of_nat 5).
    rewrite (readDigits_uint d 5 0 rest Hrest). cbn [Nat.of_uint_acc] in Hval.
    change (Nat.tail_mul 10 0) with 0 in Hval. now rewrite Hval.
  - change (digitVal "6") with (Some 6%Z). cbv iota beta.
    change 6%Z with (Z.of_nat 6).
    rewrite (readDigits_uint d 6 0 rest Hrest). cbn [Nat.of_uint_acc] in Hval.
    change (Nat.tail_mul 10 0) with 0 in Hval. now rewrite Hval.
  - change (digitVal "7") with (Some 7%Z). cbv iota beta.
    change 7%Z with (Z.of_nat 7).
    rewrite (readDigits_uint d 7 0 rest Hrest). cbn [Nat.of_uint_acc] in Hval.
    change (Nat.tail_mul 10 0) with 0 in Hval. now rewrite Hval.
  - change (digitVal "8") with (Some 8%Z). cbv iota beta.
    change 8%Z with (Z.of_nat 8).
    rewrite (readDigits_uint d 8 0 rest Hrest). cbn [Nat.of_uint_acc] in Hval.
    change (Nat.tail_mul 10 0) with 0 in Hval. now rewrite Hval.
  - change (digitVal "9") with (Some 9%Z). cbv iota beta.
    change 9%Z with (Z.of_nat 9).
    rewrite (readDigits_uint d 9 0 rest Hrest). cbn [Nat.of_uint_acc] in Hval.
    change (Nat.tail_mul 10 0) with 0 in Hval. now rewrite Hval.
Qed.

Lemma endsValue_no_digit (rest : string) :
  endsValue rest -> forall c r, rest = String c r -> digitVal c = None.
Proof. intros [r0 [->| ->]] c r H; injection H as <- _; reflexivity. Qed.

(** The first unit of the decimal text of a natural number is a digit. *)
Lemma natToString_head (n : nat) :
  exists c r, natToString n = String c r /\ digitVal c <> None.
Proof.
  unfold natToString.
  assert (H : Nat.to_uint n <> Decimal.Nil).
  { intros E. assert (H : Nat.to_uint (Nat.of_uint (Nat.to_uint n)) = Nat.to_uint n)
      by now rewrite DecimalNat.Unsigned.of_to.
    rewrite DecimalNat.Unsigned.to_of, E in H. discriminate H. }
  destruct (Nat.to_uint n); [congruence| | | | | | | | | |];
    cbn [NilEmpty.string_of_uint]; eexists; eexists; (split; [reflexivity | discriminate]).
Qed.

(** On a text that begins with a digit, a value is a number without sign. *)
Lemma parseValue_digit (c : ascii) (r : string) (fuel : nat) :
  digitVal c <> None ->
  parseValue (S fuel) (String c r)
  = match readInt (String c r) with
    | None => None
    | Some (i, s2) =>
        match readFrac i s2 with
        | None => None
        | Some (m, k, s3) =>
            match readExp s3 with
            | None => None
            | Some (e, s4) => Some (JNum m (e - Z.of_nat k), s4)
            end
        end
    end.
Proof.
  destruct c as [b0 b1 b2 b3 b4 b5 b6 b7];
    destruct b0, b1, b2, b3, b4, b5, b6, b7; intros H;
    try (exfalso; apply H; reflexivity); reflexivity.
Qed.

Lemma parseValue_minus (r : string) (fuel : nat) :
  parseValue (S fuel) (String "-" r)
  = match readInt r with
    | None => None
    | Some (i, s2) =>
        match readFrac i s2 with
        | None => None
        | Some (m, k, s3) =>
            match readExp s3 with
            | None => None
            | Some (e, s4) => Some (JNum (- m) (e - Z.of_nat k), s4)
            end
        end
    end.
Proof. reflexivity. Qed.

Lemma readFrac_end (m : Z) (rest : string) :
  endsValue rest -> readFrac m rest = Some (m, 0, rest).
Proof. intros [r [->| ->]]; reflexivity. Qed.

Lemma readExp_end (rest : string) :
  endsValue rest -> readExp rest = Some (0%Z, rest).
Proof. intros [r [->| ->]]; reflexivity. Qed.

Lemma parseValue_nat (n : nat) (rest : string) (fuel : nat) :
  endsValue rest ->
  parseValue (S fuel) (natToString n ++ rest) = Some (JNum (Z.of_nat n) 0, rest).
Proof.
  intros Hrest. destruct (natToString_head n) as [c [r [Hn Hc]]].
  pose proof (readInt_nat n rest (endsValue_no_digit rest Hrest)) as Hint.
  rewrite Hn in *. cbn [append] in *.
  rewrite parseValue_digit by assumption.
  rewrite Hint, readFrac_end, readExp_end by assumption. reflexivity.
Qed.

Lemma parseValue_int (z : Z) (rest : string) (fuel : nat) :
  endsValue rest ->
  parseValue (S fuel) (intToString z ++ rest) = Some (JNum z 0, rest).
Proof.
  intros Hrest. destruct z as [|p|p]; cbn [intToString].
  - apply (parseValue_nat 0 rest fuel Hrest).
  - rewrite parseValue_nat by assumption. now rewrite positive_nat_Z.
  - cbn [append]. rewrite parseValue_minus.
    rewrite (readInt_nat _ rest (endsValue_no_digit rest Hrest)).
    rewrite readFrac_end, readExp_end by assumption.
    now rewrite positive_nat_Z.
Qed.

(** ** Values and members of a flat object *)

Lemma substring_all (s : string) : forall m, String.length s <= m -> substring 0 m s = s.
Proof.
  induction s as [|c s IH]; intros m H; [now destruct m|].
  destruct m as [|m]; [cbn in H; lia|]. cbn [substring]. rewrite IH; [reflexivity|].
  cbn [String.length] in H. lia.
Qed.

Lemma parseValue_lit (v : Lit) (rest : string) (fuel : nat) :
  endsValue rest ->
  parseValue (S fuel) (stringifyLit v ++ rest) = Some (litJSON v, rest).
Proof.
  intros Hrest. destruct v as [s|[|]|z]; cbn [stringifyLit litJSON].
  - unfold quote. cbn [append]. rewrite append_assoc. cbn [append].
    cbn [parseValue skipSpace isJsonSpace].
    change (isJsonSpace dquote) with false. cbv iota.
    change (Ascii.eqb dquote "{") with false. change (Ascii.eqb dquote "[") with false.
    rewrite Ascii.eqb_refl. cbv iota. now rewrite readString_quoted.
  - cbn [append parseValue skipSpace]. change (isJsonSpace "t") with false. cbv iota.
    change (Ascii.eqb "t" "{") with false. change (Ascii.eqb "t" "[") with false.
    change (Ascii.eqb "t" dquote) with false. cbv iota.
    change (String "t" (String "r" (String "u" (String "e" rest)))) with ("true" ++ rest).
    rewrite PathFacts.prefix_app. cbn [append substring String.length].
    rewrite substring_all by lia. reflexivity.
  - cbn [append parseValue skipSpace]. change (isJsonSpace "f") with false. cbv iota.
    change (Ascii.eqb "f" "{") with false. change (Ascii.eqb "f" "[") with false.
    change (Ascii.eqb "f" dquote) with false. cbv iota.
    rewrite (ToolNameFacts.prefix_cons "t" "f"). change (Ascii.eqb "t" "f") with false.
    cbn [andb].
    change (String "f" (String "a" (String "l" (String "s" (String "e" rest)))))
      with ("false" ++ rest).
    rewrite PathFacts.prefix_app. cbn [append substring String.length].
    rewrite substring_all by lia. reflexivity.
  - now apply parseValue_int.
Qed.

Lemma tailText_ends (fields : list (string * Lit)) (rest : string) :
  endsValue (tailText fields ++ rest).
Proof. destruct fields; eexists; [right | left]; reflexivity. Qed.

Lemma parseMember (kv : string * Lit) (more : list (string * Lit)) (rest : string)
    (fuel : nat) :
  match skipSpace (memberText kv ++ tailText more ++ rest) with
  | String "034"%char r0 =>
      match readString r0 with
      | Some (k, r1) =>
          match skipSpace r1 with
          | String ":" r2 =>
              match parseValue (S fuel) r2 with
              | Some (v, rest1) => Some (k, v, rest1)
              | None => None
              end
          | _ => None
          end
      | None => None
      end
  | _ => None
  end
  = Some (fst kv, litJSON (snd kv), tailText more ++ rest).
Proof.
  unfold memberText, quote. cbn [append]. rewrite !append_assoc. cbn [append].
  cbn [skipSpace]. change (isJsonSpace dquote) with false. cbv iota.
  rewrite readString_quoted. cbn [skipSpace].
  change (isJsonSpace ":") with false. cbv iota.
  now rewrite parseValue_lit by apply tailText_ends.
Qed.

Lemma parseMembers_tail (fields : list (string * Lit)) :
  forall fuel rest,
    length fields < fuel ->
    parseMembers fuel false (tailText fields ++ rest)
    = Some (map (fun kv => (fst kv, litJSON (snd kv))) fields, rest).
Proof.
  induction fields as [|kv more IH]; intros fuel rest Hfuel.
  - destruct fuel as [|fuel]; [cbn in Hfuel; lia|]. reflexivity.
  - destruct fuel as [|fuel1]; [cbn in Hfuel; lia|].
    cbn [tailText append]. rewrite append_assoc.
    cbn [parseMembers skipSpace]. change (isJsonSpace ",") with false. cbv iota.
    change (Ascii.eqb "," "}") with false. rewrite Ascii.eqb_refl. cbv iota.
    destruct fuel1 as [|fuel]; [cbn in Hfuel; lia|].
    pose proof (parseMember kv more rest fuel) as Hm.
    destruct (skipSpace (memberText kv ++ tailText more ++ rest)) as [|c r0];
      [discriminate Hm|].
    destruct c as [b0 b1 b2 b3 b4 b5 b6 b7];
      destruct b0, b1, b2, b3, b4, b5, b6, b7; try discriminate Hm.
    destruct (readString r0) as [[k r1]|]; [|discriminate Hm].
    destruct (skipSpace r1) as [|c1 r2]; [discriminate Hm|].
    destruct c1 as [b0 b1 b2 b3 b4 b5 b6 b7];
      destruct b0, b1, b2, b3, b4, b5, b6, b7; try discriminate Hm.
    destruct (parseValue (S fuel) r2) as [[v rest1]|]; [|discriminate Hm].
    injection Hm as -> -> ->.
    rewrite IH by (cbn [length] in Hfuel; lia). reflexivity.
Qed.

Lemma stringifyObject_text (kv : string * Lit) (more : list (string * Lit)) :
  stringifyObject (kv :: more) = String "{" (memberText kv ++ tailText more).
Proof.
  unfold stringifyObject. cbn [append]. f_equal.
  revert kv. induction more as [|kv2 more IH]; intros kv.
  - reflexivity.
  - change (join "," (map _ (kv :: kv2 :: more)))
      with (memberText kv ++ "," ++ join "," (map (fun kv0 => quote (fst kv0) ++ ":"
                                                     ++ stringifyLit (snd kv0))
                                                  (kv2 :: more))).
    rewrite !append_assoc. rewrite IH. reflexivity.
Qed.

(** [JSON.parse(JSON.stringify(o))] for a flat object literal [o]. *)
Lemma parse_stringifyObject (fields : list (string * Lit)) :
  parse (stringifyObject fields)
  = Some (JObj (map (fun kv => (fst kv, litJSON (snd kv))) fields)).
Proof.
  destruct fields as [|kv more]; [reflexivity|].
  rewrite stringifyObject_text. unfold parse.
  set (text := String "{" (memberText kv ++ tailText more)).
  assert (Hlen : length more + 2 <= String.length text).
  { subst text. cbn [String.length]. unfold memberText, quote. cbn [append String.length].
    rewrite !InvocationFacts.length_append.
    assert (H : length more <= String.length (tailText more)).
    { clear. induction more as [|kv more IH]; [cbn; lia|].
      cbn [tailText length append String.length].
      rewrite InvocationFacts.length_append. lia. }
    lia. }
  destruct (2 * String.length text + 2) as [|fuel2] eqn:Efuel; [lia|].
  subst text. cbn [parseValue skipSpace]. change (isJsonSpace "{") with false. cbv iota.
  rewrite Ascii.eqb_refl. cbv iota.
  destruct fuel2 as [|fuel1]; [lia|]. cbn [parseMembers].
  destruct fuel1 as [|fuel]; [lia|].
  pose proof (parseMember kv more "" fuel) as Hm. rewrite append_nil_r in Hm.
  destruct (skipSpace (memberText kv ++ tailText more)) as [|c r0] eqn:Eskip;
    [discriminate Hm|].
  assert (Hc : c = dquote).
  { destruct c as [b0 b1 b2 b3 b4 b5 b6 b7];
      destruct b0, b1, b2, b3, b4, b5, b6, b7; try discriminate Hm; reflexivity. }
  subst c. change (Ascii.eqb dquote "}") with false. cbv iota.
  cbn [skipSpace]. change (isJsonSpace dquote) with false. cbv iota.
  destruct (readString r0) as [[k r1]|]; [|discriminate Hm].
  destruct (skipSpace r1) as [|c1 r2]; [discriminate Hm|].
  destruct c1 as [b0 b1 b2 b3 b4 b5 b6 b7];
    destruct b0, b1, b2, b3, b4, b5, b6, b7; try discriminate Hm.
  destruct (parseValue (S fuel) r2) as [[v rest1]|]; [|discriminate Hm].
  injection Hm as -> -> ->.
  pose proof (parseMembers_tail more (S fuel) "") as Ht. rewrite append_nil_r in Ht.
  rewrite Ht by lia. reflexivity.
Qed.

End StringifyFacts.

Module ResultFacts.

Import ProofNotions.

Import JS StringifyFacts.

(** The decoded form of an error payload. *)
Lemma parse_error_payload (text : string) :
  parse (stringifyObject [("error", LStr text)]) = Some (JObj [("error", JStr text)]).
Proof. apply (parse_stringifyObject [("error", LStr text)]). Qed.

(** A tool message with an error payload pushes no entry to the history. *)
Lemma successfulCall_error_payload (nm text id : string) (args : JSON) :
  ToolCallValidator.successfulCall
    (toolResponse nm (stringifyObject [("error", LStr text)]) id args) = None.
Proof.
  apply (ErrorKeyFacts.successfulCall_error_key _
           (stringifyObject [("error", LStr text)]) [("error", JStr text)]).
  - reflexivity.
  - apply parse_error_payload.
  - now left.
Qed.

Lemma handleManageTodos_error (text : string) (args todos : JSON) :
  text <> "" ->
  ToolExecutor.handleManageTodos "manage_todos" false
    (stringifyObject [("error", LStr text)]) args todos = todos.
Proof.
  intros Hne. unfold ToolExecutor.handleManageTodos.
  change ("manage_todos" =? "manage_todos") with true. cbn [andb negb].
  rewrite parse_error_payload. cbn [getProp lookupMember].
  change ("error" =? "error") with true. cbv iota.
  cbn [truthyOpt truthy]. apply String.eqb_neq in Hne. now rewrite Hne.
Qed.

Lemma checkTodos_wellFormed (items : list JSON) :
  ManageTodos.checkTodos items = Some true <-> forallb wellFormedTodo items = true.
Proof.
  induction items as [|todo items IH]; cbn [ManageTodos.checkTodos forallb]; [tauto|].
  destruct todo as [|b|m e|s|l|members]; cbn [getProp wellFormedTodo andb ManageTodos.isString negb];
    try (split; discriminate).
  destruct (ManageTodos.isString (lookupMember "task" members)); cbn [negb andb];
    [|split; discriminate].
  destruct (ManageTodos.isBoolean (lookupMember "completed" members)); cbn [negb andb];
    [exact IH | split; discriminate].
Qed.

End ResultFacts.

(** X18.  A [manage_todos] call that ran (permission granted or not
    needed) replaces the todo list of the session by the array [todos] of
    its arguments exactly when that is an array whose elements all are
    objects with a string [task] and a boolean [completed]; in every other
    case (no array, a malformed or [null] element, arguments [null]) the
    list stays as it was. *)
Theorem manage_todos_replaces_well_formed_list :
  forall (typeErrorMessage : string -> string) (args todos : JS.JSON),
    ToolExecutor.handleManageTodos "manage_todos" false
      (ManageTodos.executeManageTodos typeErrorMessage args) args todos
    = match JS.getProp args "todos" with
      | Some (Some (JS.JArr items)) =>
          if forallb wellFormedTodo items then JS.JArr items else todos
      | _ => todos
      end.
Proof.
  intros typeErrorMessage args todos. unfold ManageTodos.executeManageTodos.
  destruct (JS.getProp args "todos") as [[v|]|] eqn:Eargs.
  - destruct v as [|b|m e|s|items|members];
      try (apply ResultFacts.handleManageTodos_error; discriminate).
    destruct (ManageTodos.checkTodos items) as [[|]|] eqn:Echeck.
    + rewrite (proj1 (ResultFacts.checkTodos_wellFormed items) Echeck).
      unfold ToolExecutor.handleManageTodos.
      change ("manage_todos" =? "manage_todos") with true. cbn [andb negb].
      rewrite StringifyFacts.parse_stringifyObject.
      cbn [map fst snd ProofNotions.litJSON JS.getProp JS.lookupMember].
      change ("count" =? "error") with false. change ("success" =? "error") with false.
      cbv iota. cbn [JS.truthyOpt negb]. rewrite Eargs. reflexivity.
    + destruct (forallb wellFormedTodo items) eqn:Ew.
      * apply ResultFacts.checkTodos_wellFormed in Ew. congruence.
      * apply ResultFacts.handleManageTodos_error. discriminate.
    + destruct (forallb wellFormedTodo items) eqn:Ew.
      * apply ResultFacts.checkTodos_wellFormed in Ew. congruence.
      * apply ResultFacts.handleManageTodos_error. discriminate.
  - apply ResultFacts.handleManageTodos_error. discriminate.
  - apply ResultFacts.handleManageTodos_error. discriminate.
Qed.

(** X19.  The tool messages that the agent fabricates itself (for an
    invalid tool name, for arguments that are no JSON, for a denied
    permission, for an aborted call and for an orphaned call) never count
    as successful calls for [extractToolCallHistory], whatever the tool
    name, the raw arguments and the text of the syntax error contain:
    their content is decoded to an object with the key [error]. *)
Theorem fabricated_messages_are_not_history :
  (forall (toolName callId : string) (m : Message),
     ToolCallValidator.errorMessage (ToolCallValidator.validateToolName toolName callId)
     = Some m ->
     ToolCallValidator.successfulCall m = None)
  /\ (forall (syntaxErrorMessage : string -> string) (toolName raw callId : string)
             (m : Message),
        ToolCallValidator.errorMessage
          (ToolCallValidator.parseToolArguments syntaxErrorMessage toolName raw callId)
        = Some m ->
        ToolCallValidator.successfulCall m = None)
  /\ (forall (syntaxErrorMessage : string -> string) (allowedTools : list string)
             (requestPermission : string -> JS.JSON -> bool)
             (executeTool : string -> JS.JSON -> ToolExecutor.ToolContext -> string)
             (toolCall : ToolCall) (history : list Message) (aborted : bool)
             (todos : JS.JSON) (r : ToolExecutor.ToolExecutionResult) (todos1 : JS.JSON),
        ToolExecutor.executeToolCall syntaxErrorMessage allowedTools requestPermission
          executeTool toolCall history aborted todos = Some (r, todos1) ->
        ToolExecutor.permissionDenied r = true ->
        ToolCallValidator.successfulCall (ToolExecutor.toolMessage r) = None)
  /\ (forall toolCall : ToolCall,
        ToolCallValidator.successfulCall (ErrorHandlers.abortedResponse toolCall) = None)
  /\ (forall orphan : string * string,
        ToolCallValidator.successfulCall (MessageValidation.orphanResponse orphan) = None).
Proof.
  split; [|split; [|split; [|split]]].
  - intros toolName callId m. unfold ToolCallValidator.validateToolName.
    destruct (negb _ || _); cbn [ToolCallValidator.errorMessage]; [|discriminate].
    intros H. injection H as <-. apply ResultFacts.successfulCall_error_payload.
  - intros sem toolName raw callId m. unfold ToolCallValidator.parseToolArguments.
    destruct (JS.parse raw); cbn [ToolCallValidator.errorMessage]; [discriminate|].
    intros H. injection H as <-. apply ResultFacts.successfulCall_error_payload.
  - intros sem allowed request exec toolCall history aborted todos r todos1.
    unfold ToolExecutor.executeToolCall, ToolCallValidator.validateToolName,
      ToolCallValidator.parseToolArguments.
    destruct (negb _ || _).
    + cbn. intros H. injection H as <- _. discriminate.
    + cbn [ToolCallValidator.valid negb ToolCallValidator.toolName].
      destruct (JS.parse (tcArguments toolCall)) as [args|].
      * cbn [ToolCallValidator.valid negb ToolCallValidator.toolName
               ToolCallValidator.parsedArgs].
        destruct (ToolExecutor.formatToolStatusThrows (tcName toolCall) args);
          [discriminate|].
        destruct (ToolExecutor.requiresPermission (tcName toolCall) allowed);
          [destruct (negb (request (tcName toolCall) args))|];
          intros H; injection H as <- _; cbn [ToolExecutor.permissionDenied
                                               ToolExecutor.toolMessage];
          try discriminate.
        intros _. apply ResultFacts.successfulCall_error_payload.
      * cbn. intros H. injection H as <- _. discriminate.
  - intros toolCall. apply ResultFacts.successfulCall_error_payload.
  - intros orphan. apply ResultFacts.successfulCall_error_payload.
Qed.

(* ===================================================================== *)
(** * Further properties: ignored paths and the composed validators *)
(* ===================================================================== *)

Module IgnoreFacts.

Import JS.

Section Patterns.

Variable newRegExp : string -> option (string -> bool).

Lemma matches_app (filePath : string) (ps qs : list string) :
  Gitignore.matchesGitignorePattern newRegExp filePath (ps ++ qs)
  = match Gitignore.matchesGitignorePattern newRegExp filePath ps with
    | Some false => Gitignore.matchesGitignorePattern newRegExp filePath qs
    | r => r
    end.
Proof.
  induction ps as [|p ps IH]; [reflexivity|].
  cbn [app Gitignore.matchesGitignorePattern].
  destruct (String.eqb p "" || startsWith p "#"); [exact IH|].
  destruct (endsWith p "/").
  - destruct (includes filePath (Gitignore.dropLast p)); [reflexivity | exact IH].
  - destruct (includes p "*").
    + destruct (newRegExp _) as [regexTest|]; [|reflexivity].
      destruct (regexTest (Path.basename filePath) || regexTest filePath);
        [reflexivity | exact IH].
    + destruct (String.eqb (Path.basename filePath) p || includes filePath p);
        [reflexivity | exact IH].
Qed.

Lemma matches_filter (filePath : string) (lines : list string) :
  Gitignore.matchesGitignorePattern newRegExp filePath
    (filter (fun line => negb (String.eqb line "") && negb (startsWith line "#")) lines)
  = Gitignore.matchesGitignorePattern newRegExp filePath lines.
Proof.
  induction lines as [|p lines IH]; [reflexivity|].
  cbn [filter]. destruct (String.eqb p "") eqn:E1; cbn [negb andb].
  - cbn [Gitignore.matchesGitignorePattern]. rewrite E1. exact IH.
  - destruct (startsWith p "#") eqn:E2; cbn [negb].
    + cbn [Gitignore.matchesGitignorePattern]. rewrite E1, E2. exact IH.
    + cbn [Gitignore.matchesGitignorePattern]. rewrite E1, E2, IH. reflexivity.
Qed.

End Patterns.

End IgnoreFacts.

(** X20.  [matchesGitignorePattern] goes through the patterns in order
    and stops at the first that matches (or whose regular expression cannot
    be built): on a concatenation the result is the one of the first list,
    unless that finds no match, and then it is the one of the second.  So a
    later pattern never takes a match back: there is no negation. *)
Theorem matchesGitignorePattern_app :
  forall (newRegExp : string -> option (string -> bool)) (filePath : string)
         (ps qs : list string),
    Gitignore.matchesGitignorePattern newRegExp filePath (ps ++ qs)
    = match Gitignore.matchesGitignorePattern newRegExp filePath ps with
      | Some false => Gitignore.matchesGitignorePattern newRegExp filePath qs
      | r => r
      end.
Proof. exact IgnoreFacts.matches_app. Qed.

(** X21.  Blank lines and comment lines of [.gitignore] have no effect:
    matching a path against the patterns that [loadGitignorePatterns]
    returns gives the same result as matching it against all the trimmed
    lines of the file. *)
Theorem loadGitignorePatterns_keeps_matching :
  forall (newRegExp : string -> option (string -> bool)) (w : World)
         (dirPath text filePath : string),
    existsSync w (Path.join2 dirPath ".gitignore") = true ->
    readFileSync w (Path.join2 dirPath ".gitignore") = Some text ->
    Gitignore.matchesGitignorePattern newRegExp filePath
      (Gitignore.loadGitignorePatterns w dirPath)
    = Gitignore.matchesGitignorePattern newRegExp filePath
        (map JS.trim (JS.split "010"%char text)).
Proof.
  intros newRegExp w dirPath text filePath Hexists Hread.
  unfold Gitignore.loadGitignorePatterns. rewrite Hexists, Hread. cbn [negb].
  apply IgnoreFacts.matches_filter.
Qed.

Lemma loadGitignorePatterns_keeps_matching_witness :
  Gitignore.matchesGitignorePattern (fun _ => None) "dist/app.js"
    (Gitignore.loadGitignorePatterns
       (mkWorld "/a/proj"
          (fun p => if String.eqb p "/a/proj/.gitignore"
                    then Some (mkStats true false) else None)
          (fun p => if String.eqb p "/a/proj/.gitignore"
                    then Some ("# build" ++ String "010"%char ("" ++ String "010"%char
                               "dist/"))
                    else None))
       "/a/proj")
  = Gitignore.matchesGitignorePattern (fun _ => None) "dist/app.js"
      (map JS.trim (JS.split "010"%char
                      ("# build" ++ String "010"%char ("" ++ String "010"%char "dist/")))).
Proof.
  apply (loadGitignorePatterns_keeps_matching (fun _ => None)
           (mkWorld "/a/proj"
              (fun p => if String.eqb p "/a/proj/.gitignore"
                        then Some (mkStats true false) else None)
              (fun p => if String.eqb p "/a/proj/.gitignore"
                        then Some ("# build" ++ String "010"%char ("" ++ String "010"%char
                                   "dist/"))
                        else None))
           "/a/proj"); reflexivity.
Defined.

Module ComposedFacts.

Lemma validated :
  forall (newRegExp : string -> option (string -> bool))
         (expectedType : PathValidator.ResourceType) (w : World)
         (inputPath operation : string) (includeGitignored : bool)
         (v : PathValidator.Validation),
    PathValidator.validateResourcePath newRegExp expectedType w inputPath operation
      includeGitignored = Some v ->
    let absolute := Path.resolve (cwd w) inputPath in
    if PathValidator.valid v then
      PathValidator.absolutePath v = Some absolute
      /\ PathValidator.error v = None
      /\ JS.startsWith absolute (cwd w) = true
      /\ fst (PathValidator.blockEugentDirectory w absolute operation) = false
      /\ (exists st,
            statSync w absolute = Some st /\ PathValidator.stats v = Some st
            /\ match expectedType with
               | PathValidator.file => isFile st
               | PathValidator.directory => isDirectory st
               end = true)
      /\ (includeGitignored = false ->
          Gitignore.matchesGitignorePattern newRegExp (Path.relative (cwd w) absolute)
            (Gitignore.loadGitignorePatterns w (cwd w)) = Some false)
    else exists e, PathValidator.error v = Some e.
Proof.
  intros newRegExp expectedType w inputPath operation includeGitignored v.
  unfold PathValidator.validateResourcePath, PathValidator.validatePath.
  cbv zeta.
  destruct (JS.startsWith (Path.resolve (cwd w) inputPath) (cwd w)) eqn:Hstart;
    cbn [negb PathValidator.valid PathValidator.absolutePath].
  2:{ intros H. injection H as <-. cbn. eauto. }
  destruct (fst (PathValidator.blockEugentDirectory w (Path.resolve (cwd w) inputPath)
                   operation)) eqn:Hblock.
  { intros H. injection H as <-. cbn [PathValidator.valid PathValidator.error].
    unfold PathValidator.blockEugentDirectory in *.
    destruct (JS.startsWith _ _ || _); cbn [fst snd] in *; [eauto | discriminate]. }
  unfold PathValidator.validateResourceType.
  destruct (statSync w (Path.resolve (cwd w) inputPath)) as [st|] eqn:Hstat.
  2:{ cbn. intros H. injection H as <-. cbn. eauto. }
  destruct (match expectedType with
            | PathValidator.file => isFile st
            | PathValidator.directory => isDirectory st
            end) eqn:Hkind; cbn [negb PathValidator.valid PathValidator.stats].
  2:{ intros H. injection H as <-. cbn. eauto. }
  unfold PathValidator.checkGitignoreAccess.
  destruct includeGitignored.
  - intros H. injection H as <-. cbn. repeat split; eauto. discriminate.
  - destruct (Gitignore.matchesGitignorePattern _ _ _) as [[|]|] eqn:Hmatch;
      [| |discriminate]; intros H; injection H as <-; cbn; [eauto|].
    repeat split; eauto.
Qed.

End ComposedFacts.

(** X22.  What the composed validators guarantee to their callers, which
    read [absolutePath], [stats] and [error] without a test: a valid result
    carries the resolved path and the stats of an existing resource of the
    expected kind, whose path begins with the working directory, is not
    blocked as [.eugent] and, unless ignored paths were asked for, matches
    no gitignore pattern; a result that is not valid carries an error. *)
Theorem validateResourcePath_result :
  forall (newRegExp : string -> option (string -> bool))
         (expectedType : PathValidator.ResourceType) (w : World)
         (inputPath operation : string) (includeGitignored : bool)
         (v : PathValidator.Validation),
    PathValidator.validateResourcePath newRegExp expectedType w inputPath operation
      includeGitignored = Some v ->
    let absolute := Path.resolve (cwd w) inputPath in
    if PathValidator.valid v then
      PathValidator.absolutePath v = Some absolute
      /\ PathValidator.error v = None
      /\ JS.startsWith absolute (cwd w) = true
      /\ fst (PathValidator.blockEugentDirectory w absolute operation) = false
      /\ (exists st,
            statSync w absolute = Some st /\ PathValidator.stats v = Some st
            /\ match expectedType with
               | PathValidator.file => isFile st
               | PathValidator.directory => isDirectory st
               end = true)
      /\ (includeGitignored = false ->
          Gitignore.matchesGitignorePattern newRegExp (Path.relative (cwd w) absolute)
            (Gitignore.loadGitignorePatterns w (cwd w)) = Some false)
    else exists e, PathValidator.error v = Some e.
Proof. exact ComposedFacts.validated. Qed.

Lemma validateResourcePath_result_witness :
  PathValidator.absolutePath
    (PathValidator.mkValidation true (Some "/a/proj/sub/f.txt")
       (Some (mkStats true false)) None)
  = Some (Path.resolve (cwd projectWorld) "sub/f.txt").
Proof.
  exact (proj1 (validateResourcePath_result (fun _ => None) PathValidator.file projectWorld
                  "sub/f.txt" "read" false
                  (PathValidator.mkValidation true (Some "/a/proj/sub/f.txt")
                     (Some (mkStats true false)) None)
                  eq_refl)).
Defined.

(* ===================================================================== *)
(** * Further properties: the page that [read_file] returns *)
(* ===================================================================== *)

Module PageFacts.

Import JS ReadFile.

Lemma firstn_enough {A : Type} (l : list A) (n m : nat) :
  length l <= n -> length l <= m -> firstn n l = firstn m l.
Proof. intros Hn Hm. now rewrite !firstn_all2. Qed.

(** For an offset from [-1] on, the selected lines are the page of at most
    300 lines that begins at the start line, and their number is the
    difference of the two line numbers. *)
Lemma slice_page (lines : list string) (offset0 : Z) :
  (-1 <= offset0)%Z ->
  let startLine := startLineOf offset0 (length lines) in
  let endLine := endLineOf startLine (length lines) in
  let page := firstn 300 (skipn (Z.to_nat startLine) lines) in
  slice lines startLine endLine = page
  /\ (endLine - startLine)%Z = Z.of_nat (length page)
  /\ (0 <= startLine <= Z.of_nat (length lines))%Z.
Proof.
  intros Hoff startLine endLine page.
  assert (Hstart : (0 <= startLine <= Z.of_nat (length lines))%Z).
  { subst startLine. unfold startLineOf, DEFAULT_LINE_LIMIT.
    destruct (Z.eqb_spec offset0 (-1)); cbn [orb]; [lia|].
    destruct (Z.leb_spec (Z.of_nat (length lines)) offset0); lia. }
  assert (Hend : (startLine <= endLine <= Z.of_nat (length lines)
                  /\ endLine <= startLine + 300)%Z
                 /\ (endLine = startLine + 300 \/ endLine = Z.of_nat (length lines))%Z).
  { subst endLine. unfold endLineOf, DEFAULT_LINE_LIMIT. lia. }
  destruct Hend as [Hend Hcases].
  assert (Hk : sliceIndex (length lines) startLine = Z.to_nat startLine).
  { unfold sliceIndex. destruct (Z.ltb_spec startLine 0); lia. }
  assert (Hf : sliceIndex (length lines) endLine = Z.to_nat endLine).
  { unfold sliceIndex. destruct (Z.ltb_spec endLine 0); lia. }
  assert (Hlen : length (skipn (Z.to_nat startLine) lines)
                 = length lines - Z.to_nat startLine) by apply length_skipn.
  split; [|split; [|exact Hstart]].
  - unfold slice. rewrite Hk, Hf. subst page. clearbody startLine endLine.
    destruct Hcases as [H|H].
    + replace (Z.to_nat endLine - Z.to_nat startLine) with 300 by lia. reflexivity.
    + apply firstn_enough; lia.
  - subst page. rewrite length_firstn, Hlen. clearbody startLine endLine. lia.
Qed.

End PageFacts.

(** X23.  The page that [read_file] returns.  For a file that passes
    [validateFilePath] and can be read, without [read_for_write] and with
    an offset from [-1] on, the payload has, as content, the lines of the
    page joined by line feeds, where the page is the at most 300 lines from
    the start line on; the start line is the offset itself, or, when the
    offset is [-1] or not below the number of lines, the number of lines
    minus 300 (at least 0); [lines_returned] is the number of lines of the
    page, and [size] the length of the content, which must be below 256
    KiB. *)
Theorem executeReadFile_page :
  forall (newRegExp : string -> option (string -> bool)) (size : string -> Z)
         (caughtMessage : ReadFile.Caught -> string) (w : World)
         (path absolute content : string) (offset0 : Z)
         (v : PathValidator.Validation),
    PathValidator.validateFilePath newRegExp w path "read files" false = Some v ->
    PathValidator.valid v = true ->
    PathValidator.absolutePath v = Some absolute ->
    readFileSync w absolute = Some content ->
    (-1 <= offset0)%Z ->
    let lines := ReadFile.allLines content in
    let startLine := ReadFile.startLineOf offset0 (length lines) in
    let page := firstn 300 (skipn (Z.to_nat startLine) lines) in
    let text := JS.join (String "010"%char EmptyString) page in
    (Z.of_nat (String.length text) < ReadFile.MAX_FILE_SIZE)%Z ->
    ReadFile.executeReadFile newRegExp size caughtMessage w
      (ReadFile.mkArgs path (Some offset0) None)
    = JS.stringifyObject
        [("file_path", JS.LStr path);
         ("content", JS.LStr text);
         ("offset", JS.LInt startLine);
         ("lines_returned", JS.LInt (Z.of_nat (length page)));
         ("total_lines", JS.LInt (Z.of_nat (length lines)));
         ("size", JS.LInt (Z.of_nat (String.length text)))].
Proof.
  intros newRegExp size caughtMessage w path absolute content offset0 v
    Hv Hvalid Habs Hread Hoff lines startLine page text Hsize.
  unfold ReadFile.executeReadFile.
  cbn [ReadFile.file_path ReadFile.offset ReadFile.read_for_write].
  rewrite Hv, Hvalid, Habs, Hread. cbn [negb]. fold lines.
  destruct (PageFacts.slice_page lines offset0 Hoff) as [Hslice [Hcount _]].
  fold startLine in Hslice, Hcount. fold page in Hslice, Hcount.
  cbv zeta. fold startLine. rewrite Hslice, Hcount. fold text.
  destruct (Z.leb_spec ReadFile.MAX_FILE_SIZE (Z.of_nat (String.length text))); [lia|].
  reflexivity.
Qed.

Lemma executeReadFile_page_witness :
  ReadFile.executeReadFile (fun _ => None) (fun _ => 5%Z) (fun _ => "")
    (mkWorld "/a/proj"
       (fun p => if String.eqb p "/a/proj/sub/f.txt" then Some (mkStats true false)
                 else None)
       (fun p => if String.eqb p "/a/proj/sub/f.txt"
                 then Some ("a" ++ String "010"%char "b") else None))
    (ReadFile.mkArgs "sub/f.txt" (Some 1%Z) None)
  = JS.stringifyObject
      [("file_path", JS.LStr "sub/f.txt"); ("content", JS.LStr "b");
       ("offset", JS.LInt 1%Z); ("lines_returned", JS.LInt 1%Z);
       ("total_lines", JS.LInt 2%Z); ("size", JS.LInt 1%Z)].
Proof.
  apply (executeReadFile_page (fun _ => None) (fun _ => 5%Z) (fun _ => "")
           (mkWorld "/a/proj"
              (fun p => if String.eqb p "/a/proj/sub/f.txt" then Some (mkStats true false)
                        else None)
              (fun p => if String.eqb p "/a/proj/sub/f.txt"
                        then Some ("a" ++ String "010"%char "b") else None))
           "sub/f.txt" "/a/proj/sub/f.txt" ("a" ++ String "010"%char "b") 1%Z
           (PathValidator.mkValidation true (Some "/a/proj/sub/f.txt")
              (Some (mkStats true false)) None)
           eq_refl eq_refl eq_refl eq_refl).
  - lia.
  - vm_compute. reflexivity.
Defined.

(* ===================================================================== *)
(** * Further properties: what [write_file] and [delete_file] touch *)
(* ===================================================================== *)

(** X24.  [write_file] writes nothing but the new file it was asked for:
    whenever [executeWriteFile] writes a file, it is the resolved path of
    the arguments with their content, the path begins with the working
    directory, nothing existed at it (an existing file is never
    overwritten), it is not blocked as [.eugent], and it matches no
    gitignore pattern. *)
Theorem executeWriteFile_writes_only_new_files :
  forall (newRegExp : string -> option (string -> bool)) (throws : FsEffect -> bool)
         (caughtMessage : CaughtError -> string) (w : World)
         (args : WriteFile.WriteFileArgs) (p c : string),
    In (WriteFile p c)
       (snd (WriteFile.executeWriteFile newRegExp throws caughtMessage w args)) ->
    p = Path.resolve (cwd w) (WriteFile.file_path args)
    /\ c = WriteFile.content args
    /\ JS.startsWith p (cwd w) = true
    /\ existsSync w p = false
    /\ fst (PathValidator.blockEugentDirectory w p "write to") = false
    /\ Gitignore.matchesGitignorePattern newRegExp (Path.relative (cwd w) p)
         (Gitignore.loadGitignorePatterns w (cwd w)) = Some false.
Proof.
  intros newRegExp throws caughtMessage w args p c.
  unfold WriteFile.executeWriteFile, PathValidator.validatePath. cbv zeta.
  destruct (JS.startsWith (Path.resolve (cwd w) (WriteFile.file_path args)) (cwd w))
    eqn:Hstart; cbn [negb PathValidator.valid PathValidator.absolutePath snd];
    [|intros []].
  destruct (existsSync w (Path.resolve (cwd w) (WriteFile.file_path args))) eqn:Hnew;
    [intros []|].
  destruct (fst (PathValidator.blockEugentDirectory w _ "write to")) eqn:Hblock;
    [intros []|].
  unfold PathValidator.checkGitignoreAccess.
  destruct (Gitignore.matchesGitignorePattern newRegExp _ _) as [[|]|] eqn:Hmatch;
    try (intros []).
  destruct (negb (existsSync w (WriteFile.dirname _)) && throws _); [intros []|].
  destruct (throws (WriteFile _ _)).
  - cbn [snd]. destruct (negb (existsSync w _)); [intros [H|[]]; discriminate H | intros []].
  - cbn [snd]. intros H. apply in_app_or in H as [H|[H|[]]].
    + destruct (negb (existsSync w _)); [destruct H as [H|[]]; discriminate H | destruct H].
    + injection H as <- <-. repeat split; assumption.
Qed.

Lemma executeWriteFile_writes_only_new_files_witness :
  existsSync projectWorld "/a/proj/notes/new.txt" = false.
Proof.
  apply (executeWriteFile_writes_only_new_files (fun _ => None) (fun _ => false)
           (fun _ => "") projectWorld (WriteFile.mkArgs "notes/new.txt" "hello")
           "/a/proj/notes/new.txt" "hello").
  vm_compute. right. now left.
Defined.

(** X25.  [delete_file] never deletes an ignored file, and its
    [was_gitignored] is never true: whenever [executeDeleteFile] unlinks a
    path, it is the resolved path of an existing file that is not blocked as
    [.eugent] and matches no gitignore pattern (the validator has refused
    the others before), and the response is the success payload with
    [was_gitignored: false]. *)
Theorem executeDeleteFile_never_deletes_ignored :
  forall (newRegExp : string -> option (string -> bool)) (throws : FsEffect -> bool)
         (caughtMessage : CaughtError -> string) (w : World)
         (args : DeleteFile.DeleteFileArgs) (p : string),
    In (Unlink p)
       (snd (DeleteFile.executeDeleteFile newRegExp throws caughtMessage w args)) ->
    p = Path.resolve (cwd w) (DeleteFile.file_path args)
    /\ (exists st, statSync w p = Some st /\ isFile st = true /\ isDirectory st = false)
    /\ fst (PathValidator.blockEugentDirectory w p "delete files") = false
    /\ Gitignore.matchesGitignorePattern newRegExp (Path.relative (cwd w) p)
         (Gitignore.loadGitignorePatterns w (cwd w)) = Some false
    /\ fst (DeleteFile.executeDeleteFile newRegExp throws caughtMessage w args)
       = JS.stringifyObject
           [("file_path", JS.LStr (DeleteFile.file_path args));
            ("deleted", JS.LBool true); ("was_gitignored", JS.LBool false)].
Proof.
  intros newRegExp throws caughtMessage w args p.
  unfold DeleteFile.executeDeleteFile.
  destruct (PathValidator.validateFilePath newRegExp w (DeleteFile.file_path args)
              "delete files" false) as [v|] eqn:Hv; [|intros []].
  pose proof (ComposedFacts.validated newRegExp PathValidator.file w
                (DeleteFile.file_path args) "delete files" false v Hv) as Hres.
  cbv zeta in Hres.
  destruct (PathValidator.valid v); cbn [negb]; [|intros []].
  destruct Hres as [Habs [_ [_ [Hblock [[st [Hstat [Hstats Hfile]]] Hmatch]]]]].
  specialize (Hmatch eq_refl). rewrite Habs, Hstats.
  destruct (isDirectory st) eqn:Hdir; [intros []|].
  rewrite Hmatch. destruct (throws _); [intros []|].
  cbn [snd fst]. intros [H|[]]. injection H as <-.
  repeat split; try assumption. exists st. repeat split; assumption.
Qed.

Lemma executeDeleteFile_never_deletes_ignored_witness :
  fst (DeleteFile.executeDeleteFile (fun _ => None) (fun _ => false) (fun _ => "")
         projectWorld (DeleteFile.mkArgs "sub/f.txt"))
  = JS.stringifyObject
      [("file_path", JS.LStr "sub/f.txt"); ("deleted", JS.LBool true);
       ("was_gitignored", JS.LBool false)].
Proof.
  apply (executeDeleteFile_never_deletes_ignored (fun _ => None) (fun _ => false)
           (fun _ => "") projectWorld (DeleteFile.mkArgs "sub/f.txt")
           "/a/proj/sub/f.txt").
  vm_compute. now left.
Defined.

(* ===================================================================== *)
(** * Further properties: what [edit_file] writes *)
(* ===================================================================== *)

Module EditFacts.

Import JS StringSearch.

Lemma prefix_split (a : string) :
  forall s, String.prefix a s = true <-> exists r, s = a ++ r.
Proof.
  induction a as [|c a IH]; intros s.
  - split; [intros _; now exists s | intros _; now destruct s].
  - destruct s as [|d s]; cbn.
    + split; [discriminate | intros [r Hr]; discriminate Hr].
    + destruct (ascii_dec c d) as [->|Hne].
      * rewrite IH. split; intros [r Hr]; exists r; congruence.
      * split; [discriminate | intros [r Hr]; congruence].
Qed.

Lemma indexOf_eq (s sub : string) :
  indexOf s sub
  = if String.prefix sub s then Some 0
    else match s with
         | EmptyString => None
         | String _ r => option_map S (indexOf r sub)
         end.
Proof. now destruct s. Qed.

Lemma skip_units (sep : string) :
  forall x cur r, splitParts sep (String.length x) cur (x ++ r) = splitParts sep 0 cur r.
Proof.
  induction x as [|c x IH]; intros cur r; [reflexivity|].
  cbn [String.length append splitParts]. apply IH.
Qed.

Lemma match_here (sep r : string) :
  sep <> "" ->
  indexOf (sep ++ r) sep = Some 0
  /\ forall cur, splitParts sep 0 cur (sep ++ r) = cur :: splitParts sep 0 "" r.
Proof.
  intros Hsep.
  assert (Hp : String.prefix sep (sep ++ r) = true) by (apply prefix_split; now exists r).
  split; [now rewrite indexOf_eq, Hp|].
  intros cur. destruct sep as [|c sep]; [congruence|].
  change (String c sep ++ r) with (String c (sep ++ r)) in *.
  cbn [splitParts]. rewrite Hp.
  cbn [String.length]. rewrite Nat.sub_succ, Nat.sub_0_r. now rewrite skip_units.
Qed.

(** The first occurrence of a separator that occurs. *)
Lemma first_match (sep : string) :
  sep <> "" ->
  forall a r, exists p s',
    a ++ sep ++ r = p ++ sep ++ s'
    /\ String.length p <= String.length a
    /\ indexOf (a ++ sep ++ r) sep = Some (String.length p)
    /\ forall cur, splitParts sep 0 cur (a ++ sep ++ r)
                   = (cur ++ p) :: splitParts sep 0 "" s'.
Proof.
  intros Hsep. induction a as [|c a IH]; intros r.
  - exists "", r. destruct (match_here sep r Hsep) as [Hi Hs].
    cbn [append String.length]. repeat split; [lia|exact Hi|].
    intros cur. rewrite Hs. now rewrite append_nil_r.
  - destruct (String.prefix sep (String c a ++ sep ++ r)) eqn:Hp.
    + apply prefix_split in Hp as [s' Hs']. rewrite Hs'.
      exists "", s'. destruct (match_here sep s' Hsep) as [Hi Hs].
      cbn [append String.length]. repeat split; [lia|exact Hi|].
      intros cur. rewrite Hs. now rewrite append_nil_r.
    + destruct (IH r) as [p [s' [Heq [Hlen [Hi Hs]]]]].
      exists (String c p), s'.
      change (String c a ++ sep ++ r) with (String c (a ++ sep ++ r)) in *.
      repeat split.
      * cbn [append]. now rewrite Heq.
      * cbn [String.length]. lia.
      * rewrite indexOf_eq, Hp, Hi. reflexivity.
      * intros cur. cbn [splitParts]. rewrite Hp, Hs.
        now rewrite append_assoc.
Qed.

Lemma parts_positive (sep : string) :
  forall s k cur, 1 <= List.length (splitParts sep k cur s).
Proof.
  induction s as [|c s IH]; intros k cur; cbn [splitParts]; [cbn; lia|].
  destruct k; [|apply IH].
  destruct (String.prefix sep (String c s)); [cbn [List.length]; lia | apply IH].
Qed.

Lemma common_prefix :
  forall x u y v : string,
    x ++ u = y ++ v -> String.length x <= String.length y ->
    exists z, y = x ++ z /\ u = z ++ v.
Proof.
  induction x as [|c x IH]; intros u y v Heq Hlen.
  - exists y. now split.
  - destruct y as [|d y]; [cbn in Hlen; lia|].
    cbn [append] in Heq. injection Heq as -> Heq.
    cbn [String.length] in Hlen.
    destruct (IH u y v Heq ltac:(lia)) as [z [-> ->]]. now exists z.
Qed.

(** Two occurrences side by side give three parts at least. *)
Lemma two_matches (sep : string) :
  sep <> "" ->
  forall a b c cur,
    3 <= List.length (splitParts sep 0 cur (a ++ sep ++ b ++ sep ++ c)).
Proof.
  intros Hsep a b c cur.
  destruct (first_match sep Hsep a (b ++ sep ++ c)) as [p [s' [Heq [Hlen [_ Hs]]]]].
  rewrite Hs. cbn [List.length].
  assert (Heq' : (p ++ sep) ++ s' = (a ++ sep) ++ (b ++ sep ++ c))
    by (rewrite !append_assoc; now symmetry).
  destruct (common_prefix (p ++ sep) s' (a ++ sep) (b ++ sep ++ c) Heq') as [z [_ ->]].
  { rewrite !InvocationFacts.length_append. lia. }
  rewrite <- append_assoc.
  destruct (first_match sep Hsep (z ++ b) c) as [p2 [s2 [_ [_ [_ Hs2]]]]].
  rewrite Hs2. cbn [List.length].
  pose proof (parts_positive sep s2 0 ""). lia.
Qed.

Lemma includes_split (sub : string) :
  forall s, includes s sub = true -> exists a r, s = a ++ sub ++ r.
Proof.
  induction s as [|c s IH]; cbn [includes].
  - destruct (String.prefix sub "") eqn:Hp; [|discriminate].
    intros _. apply prefix_split in Hp as [r Hr]. now exists "", r.
  - destruct (String.prefix sub (String c s)) eqn:Hp.
    + intros _. apply prefix_split in Hp as [r Hr]. now exists "", r.
    + intros H. destruct (IH H) as [a [r ->]]. now exists (String c a), r.
Qed.

Lemma substring_head (p r : string) : substring 0 (String.length p) (p ++ r) = p.
Proof.
  induction p as [|c p IH]; [now destruct r|].
  cbn [String.length append substring]. now rewrite IH.
Qed.

Lemma substring_tail (p r : string) :
  substring (String.length p) (String.length r) (p ++ r) = r.
Proof.
  induction p as [|c p IH]; [apply StringifyFacts.substring_all; cbn; lia|].
  cbn [String.length append substring]. exact IH.
Qed.

Lemma replaceFirst_at (before old after template : string) :
  indexOf (before ++ old ++ after) old = Some (String.length before) ->
  replaceFirst (before ++ old ++ after) old template
  = before ++ substitution old before after template ++ after.
Proof.
  intros Hi. unfold replaceFirst. rewrite Hi. cbv zeta.
  rewrite substring_head.
  replace (String.length (before ++ old ++ after)
           - (String.length before + String.length old))
    with (String.length after)
    by (rewrite !InvocationFacts.length_append; lia).
  rewrite <- (InvocationFacts.length_append before old),
    <- (append_assoc before old after).
  now rewrite substring_tail.
Qed.

Lemma substitution_plain (matched before after : string) :
  forall template,
    includes template "$" = false ->
    substitution matched before after template = template.
Proof.
  induction template as [|c r IH]; [reflexivity|].
  cbn [includes String.prefix].
  destruct (ascii_dec "$" c) as [<-|Hne]; [now destruct r|].
  intros H. cbn [substitution].
  replace (Ascii.eqb c "$") with false
    by (symmetry; apply Ascii.eqb_neq; congruence).
  now rewrite (IH H).
Qed.

Lemma fileWasRead_true (cwd0 : string) (absolutePath : option string) :
  forall calls,
    EditFile.fileWasRead cwd0 absolutePath calls = Some true ->
    exists call flag q,
      In call calls
      /\ ToolCallValidator.entryName call = "read_file"
      /\ getProp (ToolCallValidator.entryArgs call) "read_for_write" = Some flag
      /\ truthyOpt flag = true
      /\ getProp (ToolCallValidator.entryArgs call) "file_path" = Some (Some (JStr q))
      /\ absolutePath = Some (Path.resolve cwd0 q).
Proof.
  induction calls as [|call rest IH]; cbn [EditFile.fileWasRead]; [discriminate|].
  assert (Hrest : EditFile.fileWasRead cwd0 absolutePath rest = Some true ->
                  exists call0 flag q,
                    In call0 (call :: rest)
                    /\ ToolCallValidator.entryName call0 = "read_file"
                    /\ getProp (ToolCallValidator.entryArgs call0) "read_for_write" = Some flag
                    /\ truthyOpt flag = true
                    /\ getProp (ToolCallValidator.entryArgs call0) "file_path"
                       = Some (Some (JStr q))
                    /\ absolutePath = Some (Path.resolve cwd0 q)).
  { intros H. destruct (IH H) as [c0 [flag [q [Hin Hrest]]]].
    exists c0, flag, q. split; [now right | exact Hrest]. }
  destruct (String.eqb (ToolCallValidator.entryName call) "read_file") eqn:Hname;
    cbn [negb]; [|exact Hrest].
  destruct (getProp (ToolCallValidator.entryArgs call) "read_for_write") as [flag|] eqn:Hflag;
    [|discriminate].
  destruct (truthyOpt flag) eqn:Htrue; cbn [negb]; [|exact Hrest].
  destruct (getProp (ToolCallValidator.entryArgs call) "file_path") as [[[]|]|] eqn:Hpath;
    try discriminate.
  destruct (EditFile.samePath (Path.resolve cwd0 s) absolutePath) eqn:Hsame; [|exact Hrest].
  intros _. exists call, flag, s.
  unfold EditFile.samePath in Hsame. destruct absolutePath as [a|]; [|discriminate].
  apply String.eqb_eq in Hsame, Hname. subst a.
  repeat split; try assumption. now left.
Qed.

(** What [executeEditFile] has found when it writes. *)
Lemma edit_outcome :
  forall (newRegExp : string -> option (string -> bool)) (throws : FsEffect -> bool)
         (caughtMessage : CaughtError -> string) (w : World)
         (args : EditFile.EditFileArgs) (context : option ToolExecutor.ToolContext),
    snd (EditFile.executeEditFile newRegExp throws caughtMessage w args context) = []
    \/ exists p text v c,
         snd (EditFile.executeEditFile newRegExp throws caughtMessage w args context)
         = [WriteFile p text]
         /\ PathValidator.validateFilePath newRegExp w (EditFile.file_path args)
              "edit files" false = Some v
         /\ PathValidator.valid v = true
         /\ PathValidator.absolutePath v = Some p
         /\ context = Some c
         /\ EditFile.fileWasRead (cwd w) (Some p) (ToolExecutor.ctxAllToolCalls c)
            = Some true
         /\ ((EditFile.replace_full args = Some true
              /\ EditFile.full_content args = Some text
              /\ truthyStr (EditFile.old_content args) = false
              /\ truthyStr (EditFile.new_content args) = false)
             \/ (EditFile.replace_full args <> Some true
                 /\ exists old new current,
                      EditFile.old_content args = Some old
                      /\ EditFile.new_content args = Some new
                      /\ truthyStr (EditFile.full_content args) = false
                      /\ readFileSync w p = Some current
                      /\ includes current old = true
                      /\ List.length (splitBy old current) <= 2
                      /\ text = replaceFirst current old new)).
Proof.
  intros newRegExp throws caughtMessage w args context.
  unfold EditFile.executeEditFile.
  destruct (PathValidator.validateFilePath newRegExp w (EditFile.file_path args)
              "edit files" false) as [v|] eqn:Hv; [|now left].
  destruct (PathValidator.valid v) eqn:Hvalid; cbn [negb]; [|now left].
  cbv zeta.
  destruct context as [c|]; [|now left].
  destruct (List.length (ToolExecutor.ctxAllToolCalls c) =? 0)%nat; [now left|].
  destruct (EditFile.fileWasRead (cwd w) (PathValidator.absolutePath v)
              (ToolExecutor.ctxAllToolCalls c)) as [[|]|] eqn:Hread; try (now left).
  assert (Hwrite : forall mode text,
             snd (EditFile.writeAndReport throws caughtMessage args
                    (PathValidator.absolutePath v) mode text) = []
             \/ exists p,
                  snd (EditFile.writeAndReport throws caughtMessage args
                         (PathValidator.absolutePath v) mode text) = [WriteFile p text]
                  /\ PathValidator.absolutePath v = Some p).
  { intros mode text. unfold EditFile.writeAndReport.
    destruct (PathValidator.absolutePath v) as [p|]; [|now left].
    destruct (throws (WriteFile p text)); [now left|]. right. now exists p. }
  destruct (EditFile.replace_full args) as [[|]|] eqn:Hfull.
  - destruct (EditFile.full_content args) as [fullContent|] eqn:Hcontent; [|now left].
    destruct (truthyStr (EditFile.old_content args) || truthyStr (EditFile.new_content args))
      eqn:Hempty; [now left|].
    apply orb_false_iff in Hempty as [Hold Hnew].
    destruct (Hwrite "full_replace" fullContent) as [->|[p [-> Hp]]]; [now left|].
    right. exists p, fullContent, v, c. rewrite Hp in Hread.
    repeat split; try assumption. left. now repeat split.
  - assert (Hmode : Some false <> Some true) by discriminate.
    revert Hmode. generalize (Some false). intros mode Hmode.
    destruct (EditFile.old_content args) as [old|]; [|now left].
    destruct (EditFile.new_content args) as [new|]; [|now left].
    destruct (truthyStr (EditFile.full_content args)) eqn:Hnone; [now left|].
    unfold EditFile.readCurrent.
    destruct (PathValidator.absolutePath v) as [p|] eqn:Hp; [|now left].
    destruct (readFileSync w p) as [current|] eqn:Hcurrent; [|now left].
    destruct (includes current old) eqn:Hin; cbn [negb]; [|now left].
    destruct (1 <? Z.of_nat (List.length (splitBy old current)) - 1)%Z eqn:Hmany;
      [now left|].
    apply Z.ltb_ge in Hmany.
    destruct (Hwrite "search_replace" (replaceFirst current old new))
      as [->|[p' [-> Hp']]]; [now left|].
    injection Hp' as <-.
    right. exists p, (replaceFirst current old new), v, c.
    repeat split; try assumption. right. split; [exact Hmode|].
    exists old, new, current. repeat split; try assumption. lia.
  - assert (Hmode : @None bool <> Some true) by discriminate.
    revert Hmode. generalize (@None bool). intros mode Hmode.
    destruct (EditFile.old_content args) as [old|]; [|now left].
    destruct (EditFile.new_content args) as [new|]; [|now left].
    destruct (truthyStr (EditFile.full_content args)) eqn:Hnone; [now left|].
    unfold EditFile.readCurrent.
    destruct (PathValidator.absolutePath v) as [p|] eqn:Hp; [|now left].
    destruct (readFileSync w p) as [current|] eqn:Hcurrent; [|now left].
    destruct (includes current old) eqn:Hin; cbn [negb]; [|now left].
    destruct (1 <? Z.of_nat (List.length (splitBy old current)) - 1)%Z eqn:Hmany;
      [now left|].
    apply Z.ltb_ge in Hmany.
    destruct (Hwrite "search_replace" (replaceFirst current old new))
      as [->|[p' [-> Hp']]]; [now left|].
    injection Hp' as <-.
    right. exists p, (replaceFirst current old new), v, c.
    repeat split; try assumption. right. split; [exact Hmode|].
    exists old, new, current. repeat split; try assumption. lia.
Qed.

End EditFacts.

(** X26.  [edit_file] touches the file system only by writing the file it
    was asked to edit, and only after that file was read for writing:
    every operation that [executeEditFile] carries out is a write to the
    resolved path of the arguments, which is an existing file matching no
    gitignore pattern, and the tool calls of the context contain a
    [read_file] call with a truthy [read_for_write] whose [file_path]
    resolves to the same path.  Without a context nothing is written. *)
Theorem executeEditFile_requires_read_for_write :
  forall (newRegExp : string -> option (string -> bool)) (throws : FsEffect -> bool)
         (caughtMessage : CaughtError -> string) (w : World)
         (args : EditFile.EditFileArgs) (context : option ToolExecutor.ToolContext)
         (e : FsEffect),
    In e (snd (EditFile.executeEditFile newRegExp throws caughtMessage w args context)) ->
    let target := Path.resolve (cwd w) (EditFile.file_path args) in
    exists text c call flag q,
      e = WriteFile target text
      /\ (exists st, statSync w target = Some st /\ isFile st = true)
      /\ Gitignore.matchesGitignorePattern newRegExp (Path.relative (cwd w) target)
           (Gitignore.loadGitignorePatterns w (cwd w)) = Some false
      /\ context = Some c
      /\ In call (ToolExecutor.ctxAllToolCalls c)
      /\ ToolCallValidator.entryName call = "read_file"
      /\ JS.getProp (ToolCallValidator.entryArgs call) "read_for_write" = Some flag
      /\ JS.truthyOpt flag = true
      /\ JS.getProp (ToolCallValidator.entryArgs call) "file_path"
         = Some (Some (JS.JStr q))
      /\ Path.resolve (cwd w) q = target.
Proof.
  intros newRegExp throws caughtMessage w args context e Hin target.
  destruct (EditFacts.edit_outcome newRegExp throws caughtMessage w args context)
    as [Hnone|[p [text [v [c [Hsnd [Hv [Hvalid [Habs [Hc [Hread _]]]]]]]]]]].
  { rewrite Hnone in Hin. destruct Hin. }
  rewrite Hsnd in Hin. destruct Hin as [<-|[]].
  pose proof (ComposedFacts.validated newRegExp PathValidator.file w
                (EditFile.file_path args) "edit files" false v Hv) as Hres.
  cbv zeta in Hres. rewrite Hvalid in Hres.
  destruct Hres as [Habs' [_ [_ [_ [[st [Hstat [_ Hfile]]] Hmatch]]]]].
  rewrite Habs in Habs'. injection Habs' as ->.
  destruct (EditFacts.fileWasRead_true _ _ _ Hread)
    as [call [flag [q [Hcall [Hname [Hflag [Htrue [Hpath Hsame]]]]]]]].
  exists text, c, call, flag, q. subst target.
  split; [reflexivity|]. split; [exists st; now split|].
  split; [now apply Hmatch|]. repeat split; try assumption. congruence.
Qed.

Lemma executeEditFile_requires_read_for_write_witness :
  exists text c call flag q,
    WriteFile "/a/proj/notes.txt" "alpha gamma" = WriteFile "/a/proj/notes.txt" text
    /\ (exists st, statSync (notesWorld "alpha beta") "/a/proj/notes.txt" = Some st
                   /\ isFile st = true)
    /\ Gitignore.matchesGitignorePattern (fun _ => None) "notes.txt" [] = Some false
    /\ Some notesRead = Some c
    /\ In call (ToolExecutor.ctxAllToolCalls c)
    /\ ToolCallValidator.entryName call = "read_file"
    /\ JS.getProp (ToolCallValidator.entryArgs call) "read_for_write" = Some flag
    /\ JS.truthyOpt flag = true
    /\ JS.getProp (ToolCallValidator.entryArgs call) "file_path" = Some (Some (JS.JStr q))
    /\ Path.resolve "/a/proj" q = "/a/proj/notes.txt".
Proof.
  apply (executeEditFile_requires_read_for_write (fun _ => None) (fun _ => false)
           (fun _ => "") (notesWorld "alpha beta")
           (EditFile.mkArgs "notes.txt" (Some "beta") (Some "gamma") None None)
           (Some notesRead) (WriteFile "/a/proj/notes.txt" "alpha gamma")).
  vm_compute. now left.
Defined.

(** X27.  What a search/replace edit writes: when [executeEditFile] writes
    without [replace_full], the file read was [before ++ old ++ after] with
    [old] the [old_content] at its first occurrence, and the text written
    is [before], the replacement text of [new_content] and [after], where
    the replacement text is [new_content] with the patterns [$$], [$&],
    [$`] and [$'] of [String.prototype.replace] expanded; it is
    [new_content] itself when that contains no dollar sign. *)
Theorem executeEditFile_replaces_first_occurrence :
  forall (newRegExp : string -> option (string -> bool)) (throws : FsEffect -> bool)
         (caughtMessage : CaughtError -> string) (w : World)
         (args : EditFile.EditFileArgs) (context : option ToolExecutor.ToolContext)
         (p text : string),
    EditFile.replace_full args <> Some true ->
    In (WriteFile p text)
       (snd (EditFile.executeEditFile newRegExp throws caughtMessage w args context)) ->
    exists old new before after,
      EditFile.old_content args = Some old
      /\ EditFile.new_content args = Some new
      /\ readFileSync w p = Some (before ++ old ++ after)
      /\ (forall b a, before ++ old ++ after = b ++ old ++ a ->
                      String.length before <= String.length b)
      /\ text = before ++ StringSearch.substitution old before after new ++ after
      /\ (JS.includes new "$" = false -> text = before ++ new ++ after).
Proof.
  intros newRegExp throws caughtMessage w args context p text Hmode Hin.
  destruct (EditFacts.edit_outcome newRegExp throws caughtMessage w args context)
    as [Hnone|[p' [text' [v [c [Hsnd [_ [_ [_ [_ [_ Hcase]]]]]]]]]]].
  { rewrite Hnone in Hin. destruct Hin. }
  rewrite Hsnd in Hin. destruct Hin as [Heq|[]]. injection Heq as -> ->.
  destruct Hcase as [[Hfull _]|[_ [old [new [current [Hold [Hnew [_ [Hcur [Hinc [_ ->]]]]]]]]]]];
    [contradiction|].
  destruct (EditFacts.includes_split old current Hinc) as [a [r ->]].
  assert (Hfirst : exists before after,
             a ++ old ++ r = before ++ old ++ after
             /\ StringSearch.indexOf (a ++ old ++ r) old = Some (String.length before)).
  { destruct old as [|c0 old].
    - exists "", (a ++ r). split; [reflexivity|].
      rewrite EditFacts.indexOf_eq.
      replace (String.prefix "" (a ++ "" ++ r)) with true
        by (symmetry; apply EditFacts.prefix_split; now exists (a ++ "" ++ r)).
      reflexivity.
    - destruct (EditFacts.first_match (String c0 old) ltac:(discriminate) a r)
        as [before [after [Heq [_ [Hi _]]]]].
      now exists before, after. }
  destruct Hfirst as [before [after [Heq Hi]]].
  rewrite Heq in *.
  exists old, new, before, after.
  assert (Htext : StringSearch.replaceFirst (before ++ old ++ after) old new
                  = before ++ StringSearch.substitution old before after new ++ after)
    by now apply EditFacts.replaceFirst_at.
  repeat split; try assumption.
  - intros b a' Hb.
    destruct old as [|c0 old].
    + rewrite Hb in Hi. rewrite EditFacts.indexOf_eq in Hi.
      replace (String.prefix "" (b ++ "" ++ a')) with true in Hi
        by (symmetry; apply EditFacts.prefix_split; now exists (b ++ "" ++ a')).
      injection Hi as Hi. lia.
    + destruct (EditFacts.first_match (String c0 old) ltac:(discriminate) b a')
        as [q [s' [_ [Hlen [Hi' _]]]]].
      rewrite <- Hb, Hi in Hi'. injection Hi' as Hi'. lia.
  - intros Hplain. rewrite Htext.
    now rewrite (EditFacts.substitution_plain old before after new Hplain).
Qed.

Lemma executeEditFile_replaces_first_occurrence_witness :
  exists old new before after,
    Some "beta" = Some old
    /\ Some "$& and gamma" = Some new
    /\ readFileSync (notesWorld "alpha beta") "/a/proj/notes.txt"
       = Some (before ++ old ++ after)
    /\ (forall b a, before ++ old ++ after = b ++ old ++ a ->
                    String.length before <= String.length b)
    /\ "alpha beta and gamma"
       = before ++ StringSearch.substitution old before after new ++ after
    /\ (JS.includes new "$" = false -> "alpha beta and gamma" = before ++ new ++ after).
Proof.
  apply (executeEditFile_replaces_first_occurrence (fun _ => None) (fun _ => false)
           (fun _ => "") (notesWorld "alpha beta")
           (EditFile.mkArgs "notes.txt" (Some "beta") (Some "$& and gamma") None None)
           (Some notesRead) "/a/proj/notes.txt" "alpha beta and gamma").
  - discriminate.
  - vm_compute. now left.
Defined.

(** X28.  A search/replace edit never touches a file in which
    [old_content] occurs twice side by side: if the file at the resolved
    path reads [a ++ old ++ b ++ old ++ c] for a non-empty [old_content]
    [old], [executeEditFile] without [replace_full] carries out no
    operation on the file system, whatever the other arguments and the
    context are. *)
Theorem executeEditFile_refuses_repeated_old_content :
  forall (newRegExp : string -> option (string -> bool)) (throws : FsEffect -> bool)
         (caughtMessage : CaughtError -> string) (w : World)
         (args : EditFile.EditFileArgs) (context : option ToolExecutor.ToolContext)
         (old a b c : string),
    EditFile.replace_full args <> Some true ->
    EditFile.old_content args = Some old ->
    old <> "" ->
    readFileSync w (Path.resolve (cwd w) (EditFile.file_path args))
    = Some (a ++ old ++ b ++ old ++ c) ->
    snd (EditFile.executeEditFile newRegExp throws caughtMessage w args context) = [].
Proof.
  intros newRegExp throws caughtMessage w args context old a b c Hmode Hold Hne Hcur.
  destruct (EditFacts.edit_outcome newRegExp throws caughtMessage w args context)
    as [Hnone|[p [text [v [c0 [_ [Hv [Hvalid [Habs [_ [_ Hcase]]]]]]]]]]];
    [exact Hnone|].
  exfalso.
  pose proof (ComposedFacts.validated newRegExp PathValidator.file w
                (EditFile.file_path args) "edit files" false v Hv) as Hres.
  cbv zeta in Hres. rewrite Hvalid in Hres. destruct Hres as [Habs' _].
  rewrite Habs in Habs'. injection Habs' as ->.
  destruct Hcase as [[Hfull _]|[_ [old' [new [current [Hold' [_ [_ [Hcur' [_ [Hparts _]]]]]]]]]]];
    [contradiction|].
  rewrite Hold in Hold'. injection Hold' as <-.
  rewrite Hcur in Hcur'. injection Hcur' as <-.
  unfold StringSearch.splitBy in Hparts.
  replace (String.eqb old "") with false in Hparts
    by (symmetry; now apply String.eqb_neq).
  pose proof (EditFacts.two_matches old Hne a b c "") as Hthree. lia.
Qed.

Lemma executeEditFile_refuses_repeated_old_content_witness :
  snd (EditFile.executeEditFile (fun _ => None) (fun _ => false) (fun _ => "")
         (notesWorld "alpha beta alpha")
         (EditFile.mkArgs "notes.txt" (Some "alpha") (Some "omega") None None)
         (Some notesRead)) = [].
Proof.
  apply (executeEditFile_refuses_repeated_old_content (fun _ => None) (fun _ => false)
           (fun _ => "") (notesWorld "alpha beta alpha")
           (EditFile.mkArgs "notes.txt" (Some "alpha") (Some "omega") None None)
           (Some notesRead) "alpha" "" " beta " "").
  - discriminate.
  - reflexivity.
  - discriminate.
  - reflexivity.
Defined.

(* ===================================================================== *)
(** * Further properties: the process tree that an abort kills *)
(* ===================================================================== *)

Module ProcessFacts.

Section Walk.

Variable pgrep : Z -> option string.
Variable parseInt : string -> option Z.

Let children := reportedChildren pgrep parseInt.
Let walk := ProcessTree.walk pgrep parseInt.

Lemma pop_snoc (l : list Z) (x : Z) : ProcessTree.pop (l ++ [x]) = Some (x, l).
Proof. unfold ProcessTree.pop. now rewrite rev_unit, rev_involutive. Qed.

Lemma pop_some (l : list Z) (x : Z) (rest : list Z) :
  ProcessTree.pop l = Some (x, rest) -> l = (rest ++ [x])%list.
Proof.
  unfold ProcessTree.pop. destruct (rev l) as [|y others] eqn:E; [discriminate|].
  intros H. injection H as <- <-.
  rewrite <- (rev_involutive l), E. reflexivity.
Qed.

Lemma pop_none (l : list Z) : ProcessTree.pop l = None -> l = [].
Proof.
  unfold ProcessTree.pop. destruct (rev l) as [|y others] eqn:E; [|discriminate].
  intros _. rewrite <- (rev_involutive l), E. reflexivity.
Qed.

Lemma walk_done (fuel : nat) (D : list Z) : walk fuel D [] = Some D.
Proof. now destruct fuel. Qed.

Lemma walk_step (fuel : nat) (D rest : list Z) (x : Z) :
  walk (S fuel) D (rest ++ [x])
  = if existsb (Z.eqb x) D then walk fuel D rest
    else walk fuel (D ++ [x]) (rest ++ children x).
Proof.
  unfold walk, children, reportedChildren. cbn [ProcessTree.walk].
  rewrite pop_snoc. destruct (existsb (Z.eqb x) D); [reflexivity|].
  cbv zeta. destruct (pgrep x); [reflexivity | now rewrite app_nil_r].
Qed.

Lemma walk_out_of_fuel (D rest : list Z) (x : Z) : walk 0 D (rest ++ [x]) = None.
Proof. unfold walk. cbn [ProcessTree.walk]. now rewrite pop_snoc. Qed.

Lemma stack_cases (T : list Z) : T = [] \/ exists rest x, T = (rest ++ [x])%list.
Proof.
  destruct (ProcessTree.pop T) as [[x rest]|] eqn:E.
  - right. exists rest, x. now apply pop_some.
  - left. now apply pop_none.
Qed.

Lemma seen_In (x : Z) (D : list Z) : existsb (Z.eqb x) D = true <-> In x D.
Proof.
  rewrite existsb_exists. split.
  - intros [y [Hy Heq]]. apply Z.eqb_eq in Heq. now subst.
  - intros H. exists x. split; [exact H | apply Z.eqb_refl].
Qed.

Lemma unseen_not_In (x : Z) (D : list Z) : existsb (Z.eqb x) D = false -> ~ In x D.
Proof. intros H Hin. apply seen_In in Hin. congruence. Qed.

(** The result extends the set without repetition, and whatever it adds
    was on the stack or is a child of something added before it. *)
Lemma walk_sound :
  forall fuel D T result,
    walk fuel D T = Some result -> NoDup D ->
    exists more,
      result = (D ++ more)%list
      /\ NoDup result
      /\ forall l1 q l2, more = (l1 ++ q :: l2)%list ->
           In q T \/ exists p, In p l1 /\ In q (children p).
Proof.
  induction fuel as [|fuel IH]; intros D T result Hwalk Hnodup;
    destruct (stack_cases T) as [->|[rest [x ->]]].
  - rewrite walk_done in Hwalk. injection Hwalk as <-. exists [].
    rewrite app_nil_r. repeat split; [assumption|].
    intros [|] q l2 H; discriminate H.
  - rewrite walk_out_of_fuel in Hwalk. discriminate.
  - rewrite walk_done in Hwalk. injection Hwalk as <-. exists [].
    rewrite app_nil_r. repeat split; [assumption|].
    intros [|] q l2 H; discriminate H.
  - rewrite walk_step in Hwalk. destruct (existsb (Z.eqb x) D) eqn:Hseen.
    + destruct (IH D rest result Hwalk Hnodup) as [more [-> [Hnd Hmore]]].
      exists more. repeat split; [assumption|].
      intros l1 q l2 Heq. destruct (Hmore l1 q l2 Heq) as [Hin|Hp].
      * left. apply in_or_app. now left.
      * now right.
    + assert (Hnodup' : NoDup (D ++ [x])).
      { apply NoDup_app; [assumption|repeat constructor; intros []|].
        intros y Hy [<-|[]]. now apply (unseen_not_In _ _ Hseen). }
      destruct (IH (D ++ [x])%list (rest ++ children x)%list result Hwalk Hnodup')
        as [more [-> [Hnd Hmore]]].
      exists (x :: more). split; [now rewrite <- app_assoc|]. split; [assumption|].
      intros [|y l1] q l2 Heq; cbn [app] in Heq; injection Heq as <- Heq.
      * left. apply in_or_app. right. now left.
      * destruct (Hmore l1 q l2 Heq) as [Hin|[p [Hp Hq]]].
        -- apply in_app_or in Hin as [Hin|Hin].
           ++ left. apply in_or_app. now left.
           ++ right. exists x. split; [now left | exact Hin].
        -- right. exists p. split; [now right | exact Hq].
Qed.

(** The result holds the set and the stack, and is closed under children
    when the set is closed up to the stack. *)
Lemma walk_closed :
  forall fuel D T result,
    walk fuel D T = Some result ->
    (forall p q, In p D -> In q (children p) -> In q D \/ In q T) ->
    incl D result /\ incl T result
    /\ forall p q, In p result -> In q (children p) -> In q result.
Proof.
  induction fuel as [|fuel IH]; intros D T result Hwalk Hinv;
    destruct (stack_cases T) as [->|[rest [x ->]]].
  - rewrite walk_done in Hwalk. injection Hwalk as <-.
    repeat split; [apply incl_refl | intros y []|].
    intros p q Hp Hq. destruct (Hinv p q Hp Hq) as [H|[]]. exact H.
  - rewrite walk_out_of_fuel in Hwalk. discriminate.
  - rewrite walk_done in Hwalk. injection Hwalk as <-.
    repeat split; [apply incl_refl | intros y []|].
    intros p q Hp Hq. destruct (Hinv p q Hp Hq) as [H|[]]. exact H.
  - rewrite walk_step in Hwalk. destruct (existsb (Z.eqb x) D) eqn:Hseen.
    + apply seen_In in Hseen.
      destruct (IH D rest result Hwalk) as [HD [HT Hclosed]].
      { intros p q Hp Hq. destruct (Hinv p q Hp Hq) as [H|H]; [now left|].
        apply in_app_or in H as [H|[<-|[]]]; [now right | now left]. }
      repeat split; [assumption| |assumption].
      intros y Hy. apply in_app_or in Hy as [Hy|[<-|[]]]; [now apply HT | now apply HD].
    + destruct (IH (D ++ [x])%list (rest ++ children x)%list result Hwalk)
        as [HD [HT Hclosed]].
      { intros p q Hp Hq. apply in_app_or in Hp as [Hp|[<-|[]]].
        - destruct (Hinv p q Hp Hq) as [H|H].
          + left. apply in_or_app. now left.
          + apply in_app_or in H as [H|[<-|[]]].
            * right. apply in_or_app. now left.
            * left. apply in_or_app. right. now left.
        - right. apply in_or_app. now right. }
      repeat split; [| |assumption].
      * intros y Hy. apply HD, in_or_app. now left.
      * intros y Hy. apply in_app_or in Hy as [Hy|[<-|[]]].
        -- apply HT, in_or_app. now left.
        -- apply HD, in_or_app. right. now left.
Qed.

Section Finite.

Variable universe : list Z.
Hypothesis universe_closed :
  forall p q, In p universe -> In q (children p) -> In q universe.

Let weight := ProofNotions.weight children.

Lemma weight_cons (D : list Z) (u : Z) (U : list Z) :
  weight D (u :: U)
  = (if existsb (Z.eqb u) D then 0 else S (List.length (children u))) + weight D U.
Proof. reflexivity. Qed.

Lemma weight_mono (D : list Z) (x : Z) :
  forall U, weight (D ++ [x]) U <= weight D U.
Proof.
  induction U as [|u U IH]; [apply Nat.le_refl|].
  rewrite !weight_cons, existsb_app.
  destruct (existsb (Z.eqb u) D); cbn [orb]; [lia|].
  destruct (existsb (Z.eqb u) [x]); lia.
Qed.

Lemma weight_add (D : list Z) (x : Z) :
  existsb (Z.eqb x) D = false ->
  forall U, In x U -> weight (D ++ [x]) U + S (List.length (children x)) <= weight D U.
Proof.
  intros Hnew. induction U as [|u U IH]; [intros []|].
  intros [->|Hin].
  - pose proof (weight_mono D x U) as Hm.
    rewrite !weight_cons, existsb_app, Hnew. cbn [orb existsb].
    rewrite Z.eqb_refl. cbn [orb]. lia.
  - specialize (IH Hin). rewrite !weight_cons, existsb_app.
    destruct (existsb (Z.eqb u) D); cbn [orb]; [lia|].
    destruct (existsb (Z.eqb u) [x]); lia.
Qed.

Lemma walk_terminates :
  forall fuel D T,
    incl D universe -> incl T universe ->
    List.length T + weight D universe <= fuel ->
    exists result, walk fuel D T = Some result /\ incl result universe.
Proof.
  induction fuel as [|fuel IH]; intros D T HD HT Hfuel;
    destruct (stack_cases T) as [->|[rest [x ->]]].
  - exists D. now rewrite walk_done.
  - rewrite length_app in Hfuel. cbn in Hfuel. lia.
  - exists D. now rewrite walk_done.
  - rewrite walk_step. rewrite length_app in Hfuel. cbn [List.length] in Hfuel.
    assert (Hx : In x universe) by (apply HT, in_or_app; right; now left).
    assert (Hrest : incl rest universe)
      by (intros y Hy; apply HT, in_or_app; now left).
    destruct (existsb (Z.eqb x) D) eqn:Hseen.
    + apply IH; [assumption|assumption|lia].
    + pose proof (weight_add D x Hseen universe Hx) as Hw.
      apply IH.
      * intros y Hy. apply in_app_or in Hy as [Hy|[<-|[]]]; [now apply HD | exact Hx].
      * intros y Hy. apply in_app_or in Hy as [Hy|Hy];
          [now apply Hrest | now apply (universe_closed x)].
      * rewrite length_app. lia.
Qed.

End Finite.

End Walk.

End ProcessFacts.

(** X29.  [killProcessTree] kills children before their parents and the
    root last: whenever the walk of [findAllDescendants] ends, the
    processes that are sent [SIGKILL] are pairwise different, the last of
    them is the process given, and every other one is a child, as [pgrep]
    reported it, of a process that is killed after it. *)
Theorem killProcessTree_kills_children_first :
  forall (pgrep : Z -> option string) (parseInt : string -> option Z)
         (fuel : nat) (pid : Z) (kills : list Z),
    ProcessTree.killProcessTree pgrep parseInt fuel pid = Some kills ->
    NoDup kills
    /\ (exists before, kills = (before ++ [pid])%list)
    /\ forall l1 q l2, kills = (l1 ++ q :: l2)%list -> l2 <> [] ->
         exists p, In p l2 /\ In q (reportedChildren pgrep parseInt p).
Proof.
  intros pgrep parseInt fuel pid kills.
  unfold ProcessTree.killProcessTree, ProcessTree.findAllDescendants.
  destruct (ProcessTree.walk pgrep parseInt fuel [] [pid]) as [result|] eqn:Hwalk;
    [|discriminate].
  intros H. injection H as <-.
  destruct fuel as [|fuel];
    [change [pid] with ([] ++ [pid])%list in Hwalk;
     rewrite (ProcessFacts.walk_out_of_fuel pgrep parseInt) in Hwalk; discriminate|].
  change [pid] with ([] ++ [pid])%list in Hwalk.
  rewrite (ProcessFacts.walk_step pgrep parseInt) in Hwalk.
  cbn [existsb app] in Hwalk.
  destruct (ProcessFacts.walk_sound pgrep parseInt fuel [pid] _ result Hwalk)
    as [more [-> [Hnodup Hmore]]].
  { repeat constructor. intros []. }
  cbn [app] in *. split; [|split].
  - apply NoDup_rev in Hnodup. exact Hnodup.
  - exists (rev more). reflexivity.
  - intros l1 q l2 Heq Hlast.
    apply (f_equal (@rev Z)) in Heq.
    rewrite rev_involutive, rev_app_distr in Heq. cbn [rev] in Heq.
    rewrite <- app_assoc in Heq. cbn [app] in Heq.
    destruct (rev l2) as [|r0 later] eqn:Hl2.
    { apply (f_equal (@rev Z)) in Hl2. rewrite rev_involutive in Hl2.
      now apply Hlast in Hl2. }
    cbn [app] in Heq. injection Heq as <- Heq.
    destruct (Hmore later q (rev l1) Heq) as [Hin|[p [Hp Hq]]].
    + exists pid. split; [|exact Hin].
      apply in_rev. rewrite Hl2. now left.
    + exists p. split; [|exact Hq].
      apply in_rev. rewrite Hl2. now right.
Qed.

Lemma killProcessTree_kills_children_first_witness :
  NoDup [103; 101; 102; 100]%Z
  /\ (exists before, [103; 101; 102; 100]%Z = (before ++ [100%Z])%list)
  /\ forall l1 q l2, [103; 101; 102; 100]%Z = (l1 ++ q :: l2)%list -> l2 <> [] ->
       exists p, In p l2 /\ In q (reportedChildren sampleTree decimalPid p).
Proof.
  apply (killProcessTree_kills_children_first sampleTree decimalPid 10 100%Z
           [103; 101; 102; 100]%Z).
  vm_compute. reflexivity.
Defined.

(** X30.  On a finite process tree [findAllDescendants] returns, and it
    returns the tree: if the process given and, with every process, the
    children that [pgrep] reports for it lie in a finite set, then after a
    bounded number of rounds the walk ends with a list that holds the
    process given, holds the reported children of each of its processes,
    and lies in that set; so it is the least such set. *)
Theorem findAllDescendants_finds_the_tree :
  forall (pgrep : Z -> option string) (parseInt : string -> option Z)
         (universe : list Z) (pid : Z),
    In pid universe ->
    (forall p q, In p universe -> In q (reportedChildren pgrep parseInt p) ->
                 In q universe) ->
    exists rounds, forall fuel, rounds <= fuel ->
      exists result,
        ProcessTree.findAllDescendants pgrep parseInt fuel pid = Some result
        /\ In pid result
        /\ (forall p q, In p result -> In q (reportedChildren pgrep parseInt p) ->
                        In q result)
        /\ incl result universe.
Proof.
  intros pgrep parseInt universe pid Hpid Hclosed.
  exists (1 + ProofNotions.weight (reportedChildren pgrep parseInt) [] universe).
  intros fuel Hfuel. unfold ProcessTree.findAllDescendants.
  destruct (ProcessFacts.walk_terminates pgrep parseInt universe Hclosed fuel [] [pid])
    as [result [Hwalk Hincl]].
  - intros y [].
  - intros y [<-|[]]. exact Hpid.
  - exact Hfuel.
  - exists result.
    destruct (ProcessFacts.walk_closed pgrep parseInt fuel [] [pid] result Hwalk)
      as [_ [Hstack Hall]].
    { intros p q []. }
    repeat split; [exact Hwalk | apply Hstack; now left | exact Hall | exact Hincl].
Qed.

Lemma findAllDescendants_finds_the_tree_witness :
  exists rounds, forall fuel, rounds <= fuel ->
    exists result,
      ProcessTree.findAllDescendants sampleTree decimalPid fuel 100%Z = Some result
      /\ In 100%Z result
      /\ (forall p q, In p result -> In q (reportedChildren sampleTree decimalPid p) ->
                      In q result)
      /\ incl result [100; 101; 102; 103]%Z.
Proof.
  apply (findAllDescendants_finds_the_tree sampleTree decimalPid
           [100; 101; 102; 103]%Z 100%Z).
  - now left.
  - intros p q [<-|[<-|[<-|[<-|[]]]]] Hq; vm_compute in Hq |- *; tauto.
Defined.
